(** * NLWeb retrieval layer: the unified vector-database client

    A shallow embedding of [code/retrieval/retriever.py] (class
    [VectorDBClient]) and of [code/pre_retrieval/relevance_detection.py]
    (class [RelevanceDetection]).

    Python values are modelled as the code uses them: a result row
    ([List[str]]) is a [list string]; a [dict] whose iteration order the code
    depends on is an association list in insertion order; a [dict] or [set]
    that is only looked up is a [gmap] or a [gset]; an exception is a value of
    [exn] returned on the left of a sum. *)

From Stdlib Require Import ZArith Ascii.
From stdpp Require Import gmap strings list fin_maps pretty.

Open Scope string_scope.
Open Scope list_scope.

(** ** Python preliminaries *)

(** Truthiness of a [str]: only the empty string is falsy. *)
Definition truthy (s : string) : bool :=
  match s with
  | EmptyString => false
  | String _ _ => true
  end.

(** Truthiness of an [Optional[str]]: [None] and the empty string are falsy. *)
Definition truthy_opt (o : option string) : bool :=
  match o with
  | None => false
  | Some s => truthy s
  end.

(** An insertion-ordered [dict] with [str] keys. *)
Abbreviation pydict V := (list (string * V)).

(** [d[k] = v]: an existing key keeps its position, a new key goes last. *)
Fixpoint dict_set {V} (k : string) (v : V) (d : pydict V) : pydict V :=
  match d with
  | [] => [(k, v)]
  | (k', v') :: d' =>
      if String.eqb k k' then (k, v) :: d' else (k', v') :: dict_set k v d'
  end.

(** [del d[k]]. *)
Fixpoint dict_del {V} (k : string) (d : pydict V) : pydict V :=
  match d with
  | [] => []
  | (k', v') :: d' =>
      if String.eqb k k' then d' else (k', v') :: dict_del k d'
  end.

(** [d.get(k)]. *)
Fixpoint dict_get {V} (k : string) (d : pydict V) : option V :=
  match d with
  | [] => None
  | (k', v') :: d' => if String.eqb k k' then Some v' else dict_get k d'
  end.

(** The keys of a [dict] are pairwise distinct. *)
Definition is_dict {V} (d : pydict V) : Prop := NoDup (d.*1).

(** [l[:n]] for an [int] [n]: a negative [n] drops the last [-n] items. *)
Definition slice_to {A} (l : list A) (n : Z) : list A :=
  if (0 <=? n)%Z then take (Z.to_nat n) l
  else take (length l - Z.to_nat (- n)) l.

(** ** Result rows *)

(** A search result as the adapters return it: [[url, json, name, site]]. *)
Abbreviation row := (list string).

(** The value stored per URL by the first pass of [_aggregate_results]. *)
Record url_data := UrlData {
  ud_url : string;
  ud_json_list : list string;
  ud_name : string;
  ud_site : string;
  ud_first_endpoint : string
}.

Module Aggregate.
Section Aggregate.

(** [utils.json_utils.merge_json_array] and [json.dumps] are not part of the
    files at hand; the aggregation is parametric in them, and they are taken
    to return a value. *)
Context {Json : Type}.
Variable merge_json_array : list string -> Json.
Variable json_dumps : Json -> string.

(** *** First pass: group by URL *)

(** Body of the inner [for result in results] loop. *)
Definition record_result (endpoint_name : string)
    (url_to_data : gmap string url_data) (result : row) : gmap string url_data :=
  match result with
  | url :: json_data :: name :: site :: _ =>      (* len(result) >= 4 *)
      match url_to_data !! url with
      | None =>
          <[url := {| ud_url := url;
                      ud_json_list := if truthy json_data then [json_data] else [];
                      ud_name := name;
                      ud_site := site;
                      ud_first_endpoint := endpoint_name |}]> url_to_data
      | Some data =>
          if truthy json_data then
            <[url := {| ud_url := ud_url data;
                        ud_json_list := ud_json_list data ++ [json_data];
                        ud_name := ud_name data;
                        ud_site := ud_site data;
                        ud_first_endpoint := ud_first_endpoint data |}]> url_to_data
          else url_to_data
      end
  | _ => url_to_data
  end.

Definition record_endpoint (url_to_data : gmap string url_data)
    (entry : string * list row) : gmap string url_data :=
  fold_left (record_result entry.1) entry.2 url_to_data.

Definition first_pass (endpoint_results : pydict (list row)) : gmap string url_data :=
  fold_left record_endpoint endpoint_results ∅.

(** *** Second pass: interleave *)

(** The JSON string of a merged record. *)
Definition merged_json_str (json_list : list string) : string :=
  if (1 <? length json_list)%nat then json_dumps (merge_json_array json_list)
  else match json_list with
       | j :: _ => j
       | [] => "{}"%string
       end.

Definition merged_result (data : url_data) : row :=
  [ud_url data; merged_json_str (ud_json_list data); ud_name data; ud_site data].

(** [seen_urls] and [final_results]. *)
Definition emit_state : Type := gset string * list row.

(** What the second pass does with one row drawn from an iterator. *)
Definition visit (url_to_data : gmap string url_data)
    (st : emit_state) (result : row) : emit_state :=
  match result with
  | [] => st                                         (* len(result) >= 1 fails *)
  | url :: _ =>
      if truthy url && negb (bool_decide (url ∈ st.1)) then
        ({[url]} ∪ st.1,
         match url_to_data !! url with
         | Some data => st.2 ++ [merged_result data]
         | None => st.2
         end)
      else st
  end.

(** [iterators]: endpoint name to the rows its iterator has not yielded yet. *)
Definition make_iterators (endpoint_results : pydict (list row)) : pydict (list row) :=
  fold_left (fun its entry =>
               match entry.2 with
               | [] => its
               | _ :: _ => dict_set entry.1 entry.2 its
               end) endpoint_results [].

(** One execution of the [for endpoint_name, iterator in iterators.items()]
    loop: every iterator is advanced once; the result is the iterators after
    the round, [endpoints_to_remove], and the state. *)
Fixpoint round (url_to_data : gmap string url_data) (its : pydict (list row))
    (st : emit_state) : pydict (list row) * list string * emit_state :=
  match its with
  | [] => ([], [], st)
  | (endpoint_name, []) :: rest =>                              (* StopIteration *)
      let '(rest', removed, st') := round url_to_data rest st in
      ((endpoint_name, []) :: rest', endpoint_name :: removed, st')
  | (endpoint_name, result :: remaining) :: rest =>
      let '(rest', removed, st') := round url_to_data rest (visit url_to_data st result) in
      ((endpoint_name, remaining) :: rest', removed, st')
  end.

(** The [while iterators:] loop, with a bound on the number of rounds. *)
Fixpoint interleave_loop (fuel : nat) (url_to_data : gmap string url_data)
    (its : pydict (list row)) (st : emit_state) : option emit_state :=
  match its with
  | [] => Some st
  | _ :: _ =>
      match fuel with
      | 0 => None
      | S fuel' =>
          let '(its', removed, st') := round url_to_data its st in
          interleave_loop fuel' url_to_data
            (fold_left (fun d k => dict_del k d) removed its') st'
      end
  end.

Definition _aggregate_results_within (fuel : nat)
    (endpoint_results : pydict (list row)) : option (list row) :=
  snd <$> interleave_loop fuel (first_pass endpoint_results)
            (make_iterators endpoint_results) (∅, []).

(** Rounds the loop needs: one per row of the longest list, and one more in
    which the last iterators raise [StopIteration]. *)
Definition rounds_bound (endpoint_results : pydict (list row)) : nat :=
  S (max_list (length <$> endpoint_results.*2)).

Definition _aggregate_results (endpoint_results : pydict (list row)) : list row :=
  default [] (_aggregate_results_within (rounds_bound endpoint_results) endpoint_results).

End Aggregate.
End Aggregate.

(** ** Configuration, exceptions and adapters *)

(** One entry of [CONFIG.retrieval_endpoints]. The configuration classes are
    loaded by [config.config]; only the fields the client reads are kept. *)
Record endpoint_config := EndpointConfig {
  enabled : bool;
  db_type : string;
  api_key : option string;
  api_endpoint : option string;
  database_path : option string
}.

(** The part of [CONFIG] the client reads. *)
Record config := Config {
  retrieval_endpoints : pydict endpoint_config;
  write_endpoint : option string
}.

(** The messages of the [ValueError]s the client raises. *)
Inductive error_message :=
  | InvalidEndpoint (endpoint_name : string) (registered : list string)
      (* "Invalid endpoint: {endpoint_name}. Must be one of: {...}" *)
  | NoEnabledEndpoints
      (* "No enabled retrieval endpoints with valid credentials found" *)
  | WriteEndpointNotFound (name : string)
      (* "Write endpoint '{name}' not found in configuration" *)
  | WriteEndpointMissingCredentials (name : string)
      (* "Write endpoint '{name}' is missing required credentials" *)
  | EndpointNotEnabled (endpoint_name : string)
      (* "Endpoint {endpoint_name} is not in enabled endpoints" *)
  | UnsupportedDatabaseType (db_type : string)
      (* "Unsupported database type: {db_type}" *)
  | NoWriteEndpointForDelete
      (* "No write endpoint configured for delete operations" *)
  | NoWriteEndpointForUpload
      (* "No write endpoint configured for upload operations" *)
  | NoValidEndpoints
      (* "No valid endpoints available for search" *)
  | AllSearchesFailed.
      (* "All endpoint searches failed" *)

(** Exceptions: a [ValueError] of the client, a [KeyError] of a [dict]
    subscript, or whatever else a collaborator raised. *)
Inductive exn :=
  | ValueError (msg : error_message)
  | KeyError (key : string)
  | BackendError (what : string).

(** A [site] argument: [Union[str, List[str]]]. *)
Inductive site_filter :=
  | SiteStr (s : string)
  | SiteList (l : list string).

(** [site == "all"]: a list never equals a [str]. *)
Definition site_is (site : site_filter) (lit : string) : bool :=
  match site with
  | SiteStr s => String.eqb s lit
  | SiteList _ => false
  end.

(** A document to upload ([Dict[str, Any]]), opaque to the client. *)
Abbreviation document := (pydict string).

(** A method call on an adapter. *)
Inductive adapter_call :=
  | GetSites
  | Search (query : string) (site : site_filter) (num_results : Z)
  | SearchAllSites (query : string) (num_results : Z)
  | UploadDocuments (documents : list document)
  | DeleteDocumentsBySite (site : string).

(** An adapter instance: the class is chosen by [db_type], the constructor
    receives the endpoint name. *)
Record adapter := Adapter {
  adapter_class : string;
  adapter_endpoint : string
}.

(** What the client does to adapters, in order. *)
Inductive event :=
  | Constructed (a : adapter)
  | Called (a : adapter) (call : adapter_call).

(** The mutable state: the module-level [_client_cache], the client's
    [_endpoint_sites_cache], and the adapter events so far. *)
Record world := World {
  client_cache : gmap string adapter;
  endpoint_sites_cache : gmap string (option (list string));
  trace : list event
}.

(** A computation that reads and writes the [world] and may raise. *)
Definition M (A : Type) : Type := world -> (exn + A) * world.

Definition ret {A} (a : A) : M A := fun w => (inr a, w).
Definition raise {A} (e : exn) : M A := fun w => (inl e, w).
Definition bind {A B} (m : M A) (k : A -> M B) : M B :=
  fun w => match m w with
           | (inl e, w') => (inl e, w')
           | (inr a, w') => k a w'
           end.
(** [try: m except Exception as e: h e]. *)
Definition try_except {A} (m : M A) (h : exn -> M A) : M A :=
  fun w => match m w with
           | (inl e, w') => h e w'
           | (inr a, w') => (inr a, w')
           end.

Notation "'let*' x ':=' m 'in' k" := (bind m (fun x => k))
  (at level 10, x pattern, m at level 100, k at level 200).

(** The client object after [__init__]; its sites cache lives in the [world]. *)
Record client := Client {
  endpoint_name : option string;
  client_db_type : option string;
  enabled_endpoints : pydict endpoint_config;
  client_write_endpoint : option string
}.

Module VectorDBClient.
Section VectorDBClient.

Context {Json : Type}.
Variable merge_json_array : list string -> Json.
Variable json_dumps : Json -> string.

(** The global [CONFIG]. *)
Variable CONFIG : config.

(** The backend adapters are external: [adapter_init a] is the exception the
    constructor of [a] raises, if any; [sites_of a] is what [get_sites]
    returns or raises, [rows_of a call] what a search does, and
    [count_of a call] what an upload or a deletion does. *)
Variable adapter_init : adapter -> option exn.
Variable sites_of : adapter -> exn + option (list string).
Variable rows_of : adapter -> adapter_call -> exn + list row.
Variable count_of : adapter -> adapter_call -> exn + Z.

(** *** [_has_valid_credentials] *)

Definition _has_valid_credentials (name : string) (cfg : endpoint_config) : bool :=
  if String.eqb (db_type cfg) "azure_ai_search"
     || String.eqb (db_type cfg) "snowflake_cortex_search" then
    truthy_opt (api_key cfg) && truthy_opt (api_endpoint cfg)
  else if String.eqb (db_type cfg) "opensearch" then
    truthy_opt (api_endpoint cfg) && truthy_opt (api_key cfg)
  else if String.eqb (db_type cfg) "qdrant" then
    if truthy_opt (database_path cfg) then true
    else truthy_opt (api_endpoint cfg)
  else if String.eqb (db_type cfg) "milvus" then
    truthy_opt (database_path cfg)
  else false.

(** *** [__init__] *)

(** The loop that collects the enabled endpoints with valid credentials. *)
Definition collect_enabled (endpoints : pydict endpoint_config) : pydict endpoint_config :=
  fold_left (fun acc entry =>
               if negb (enabled entry.2) then acc
               else if _has_valid_credentials entry.1 entry.2
                    then dict_set entry.1 entry.2 acc
                    else acc) endpoints [].

(** The validation of [CONFIG.write_endpoint] at the end of [__init__]. *)
Definition validate_write_endpoint (c : client) : exn + client :=
  if truthy_opt (write_endpoint CONFIG) then
    let w := default "" (write_endpoint CONFIG) in
    match dict_get w (retrieval_endpoints CONFIG) with
    | None => inl (ValueError (WriteEndpointNotFound w))
    | Some write_config =>
        if negb (_has_valid_credentials w write_config)
        then inl (ValueError (WriteEndpointMissingCredentials w))
        else inr c
    end
  else inr c.

Definition init (endpoint_name : option string) : exn + client :=
  if truthy_opt endpoint_name then
    let name := default "" endpoint_name in
    match dict_get name (retrieval_endpoints CONFIG) with
    | None => inl (ValueError (InvalidEndpoint name (retrieval_endpoints CONFIG).*1))
    | Some endpoint_config =>
        validate_write_endpoint
          {| endpoint_name := endpoint_name;
             client_db_type := Some (db_type endpoint_config);
             enabled_endpoints := [(name, endpoint_config)];
             client_write_endpoint := write_endpoint CONFIG |}
    end
  else
    let enabled_endpoints := collect_enabled (retrieval_endpoints CONFIG) in
    match enabled_endpoints with
    | [] => inl (ValueError NoEnabledEndpoints)
    | first_endpoint :: _ =>
        validate_write_endpoint
          {| endpoint_name := endpoint_name;
             client_db_type := Some (db_type first_endpoint.2);
             enabled_endpoints := enabled_endpoints;
             client_write_endpoint := write_endpoint CONFIG |}
    end.

(** *** [get_client] *)

Definition known_db_type (t : string) : bool :=
  String.eqb t "azure_ai_search" || String.eqb t "milvus" || String.eqb t "opensearch"
  || String.eqb t "qdrant" || String.eqb t "snowflake_cortex_search".

Definition get_client (self : client) (endpoint_name : string) : M adapter :=
  match dict_get endpoint_name (enabled_endpoints self) with
  | None => raise (ValueError (EndpointNotEnabled endpoint_name))
  | Some cfg =>
      let cache_key := (db_type cfg ++ "_" ++ endpoint_name)%string in
      fun w =>
        match client_cache w !! cache_key with
        | Some a => (inr a, w)
        | None =>
            if known_db_type (db_type cfg) then
              let a := Adapter (db_type cfg) endpoint_name in
              match adapter_init a with
              | Some e => (inl e, w)
              | None =>
                  (inr a, World (<[cache_key := a]> (client_cache w))
                                (endpoint_sites_cache w)
                                (trace w ++ [Constructed a]))
              end
            else (inl (ValueError (UnsupportedDatabaseType (db_type cfg))), w)
        end
  end.

(** Awaiting a method of an adapter. *)
Definition call_sites (a : adapter) : M (option (list string)) :=
  fun w => (sites_of a, World (client_cache w) (endpoint_sites_cache w)
                              (trace w ++ [Called a GetSites])).
Definition call_count (a : adapter) (c : adapter_call) : M Z :=
  fun w => (count_of a c, World (client_cache w) (endpoint_sites_cache w)
                                (trace w ++ [Called a c])).

(** *** The site index *)

Definition cache_sites (endpoint_name : string) (sites : option (list string)) : M unit :=
  fun w => (inr tt, World (client_cache w)
                          (<[endpoint_name := sites]> (endpoint_sites_cache w))
                          (trace w)).

Definition _get_endpoint_sites (self : client) (endpoint_name : string)
    : M (option (list string)) :=
  fun w =>
    match endpoint_sites_cache w !! endpoint_name with
    | Some cached => (inr cached, w)
    | None =>
        try_except
          (let* a := get_client self endpoint_name in
           let* sites := call_sites a in
           let* _ := cache_sites endpoint_name sites in
           match sites with
           | None => raise (BackendError "TypeError")      (* len(None) *)
           | Some _ => ret sites
           end)
          (fun _ => let* _ := cache_sites endpoint_name None in ret None) w
    end.

(** [sites_to_check]: a [str] is one site, a list is taken as it is. *)
Definition sites_to_check (site : site_filter) : list string :=
  match site with
  | SiteStr s => [s]
  | SiteList l => l
  end.

Definition _endpoint_has_site (self : client) (endpoint_name : string)
    (site : site_filter) : M bool :=
  if site_is site "all" then ret true
  else
    let* endpoint_sites := _get_endpoint_sites self endpoint_name in
    match endpoint_sites with
    | None => ret true
    | Some [] => ret false
    | Some sites =>
        ret (existsb (fun site_name => bool_decide (site_name ∈ sites))
                     (sites_to_check site))
    end.

(** *** Writes *)

Definition delete_documents_by_site (self : client) (site : string) : M Z :=
  if negb (truthy_opt (client_write_endpoint self)) then
    raise (ValueError NoWriteEndpointForDelete)
  else
    try_except
      (let* a := get_client self (default "" (client_write_endpoint self)) in
       call_count a (DeleteDocumentsBySite site))
      (fun e => raise e).

Definition upload_documents (self : client) (documents : list document) : M Z :=
  if negb (truthy_opt (client_write_endpoint self)) then
    raise (ValueError NoWriteEndpointForUpload)
  else
    try_except
      (let* a := get_client self (default "" (client_write_endpoint self)) in
       call_count a (UploadDocuments documents))
      (fun e => raise e).

(** *** [search]: the fan-out under the retrieval lock

    The [site] argument is the filter after normalisation and no endpoint is
    pinned. A task is modelled by the adapter and the call it will make;
    [asyncio.gather(..., return_exceptions=True)] yields the outcomes in task
    order. *)

Definition task : Type := string * adapter * adapter_call.

(** The call a task makes: [search_all_sites] for the site ["all"]. *)
Definition search_call (query : string) (site : site_filter) (num_results : Z)
    : adapter_call :=
  if site_is site "all" then SearchAllSites query num_results
  else Search query site num_results.

(** One iteration of [for endpoint_name in self.enabled_endpoints]. *)
Definition create_task (self : client) (query : string) (site : site_filter)
    (num_results : Z) (tasks : list task) (endpoint_name : string) : M (list task) :=
  try_except
    (let* has := _endpoint_has_site self endpoint_name site in
     if negb has then ret tasks
     else
       let* a := get_client self endpoint_name in
       ret (tasks ++ [(endpoint_name, a, search_call query site num_results)]))
    (fun _ => ret tasks).

Fixpoint create_tasks (self : client) (query : string) (site : site_filter)
    (num_results : Z) (tasks : list task) (names : list string) : M (list task) :=
  match names with
  | [] => ret tasks
  | endpoint_name :: rest =>
      let* tasks' := create_task self query site num_results tasks endpoint_name in
      create_tasks self query site num_results tasks' rest
  end.

(** A task run to completion: its outcome is a value, never raised. *)
Definition run_task (t : task) : M (exn + list row) :=
  fun w => (inr (rows_of t.1.2 t.2),
            World (client_cache w) (endpoint_sites_cache w)
                  (trace w ++ [Called t.1.2 t.2])).

(** [await asyncio.gather] over the tasks, with [return_exceptions=True]. *)
Fixpoint gather (tasks : list task) : M (list (exn + list row)) :=
  match tasks with
  | [] => ret []
  | t :: rest =>
      let* outcome := run_task t in
      let* outcomes := gather rest in
      ret (outcome :: outcomes)
  end.

(** The loop over [zip(endpoint_names, results)]. *)
Definition collect_results (endpoint_names : list string)
    (results : list (exn + list row)) : pydict (list row) * nat :=
  fold_left (fun acc nr =>
               match nr.2 with
               | inl _ => acc
               | inr result => (dict_set nr.1 result acc.1, S acc.2)
               end) (zip endpoint_names results) ([], 0).

Definition search (self : client) (query : string) (site : site_filter)
    (num_results : Z) : M (list row) :=
  let* tasks := create_tasks self query site num_results [] (enabled_endpoints self).*1 in
  match tasks with
  | [] => raise (ValueError NoValidEndpoints)
  | _ :: _ =>
      let* results := gather tasks in
      let '(endpoint_results, successful_endpoints) :=
        collect_results (tasks.*1.*1) results in
      if (successful_endpoints =? 0)%nat then raise (ValueError AllSearchesFailed)
      else
        ret (slice_to (Aggregate._aggregate_results merge_json_array json_dumps
                         endpoint_results) num_results)
  end.

(** *** Notions the properties are stated with *)

(** When the validation of the write endpoint fails. *)
Definition write_endpoint_invalid : Prop :=
  truthy_opt (write_endpoint CONFIG) = true
  ∧ (dict_get (default "" (write_endpoint CONFIG)) (retrieval_endpoints CONFIG) = None
     ∨ exists cfg,
         dict_get (default "" (write_endpoint CONFIG)) (retrieval_endpoints CONFIG) = Some cfg
         ∧ _has_valid_credentials (default "" (write_endpoint CONFIG)) cfg = false).

(** What the adapter of an endpoint reports when it is asked for its sites in
    the world [w]: [None] when the adapter cannot be had, when the call
    raises, or when it returns [None]. *)
Definition listed_sites (self : client) (endpoint_name : string) (w : world)
    : option (list string) :=
  match get_client self endpoint_name w with
  | (inl _, _) => None
  | (inr a, _) =>
      match sites_of a with
      | inr (Some sites) => Some sites
      | _ => None
      end
  end.

(** The result list of a task that succeeds, under the name of its endpoint. *)
Definition success (t : task) : option (string * list row) :=
  match rows_of t.1.2 t.2 with
  | inr result => Some (t.1.1, result)
  | inl _ => None
  end.

End VectorDBClient.
End VectorDBClient.

(** ** The relevance precheck *)

Module RelevanceDetection.

(** The values the guard of [do] can evaluate to. *)
Inductive pyval :=
  | PyBool (b : bool)
  | PyStr (s : string).

Definition py_truthy (v : pyval) : bool :=
  match v with
  | PyBool b => b
  | PyStr s => truthy s
  end.

(** [a or b]: the first operand if it is truthy, else the second. *)
Definition py_or (a b : pyval) : pyval := if py_truthy a then a else b.

Definition RELEVANCE_PROMPT_NAME : string := "DetectIrrelevantQueryPrompt".
Definition STEP_NAME : string := "Relevance".

(** What [do] asks of its collaborators, in order. *)
Inductive action :=
  | PrecheckStepDone (step : string)
  | RunPrompt (prompt_name level : string)
  | AbortFastTrack
  | SendMessage (message_type message : string).

(** The attributes [do] reads and writes, on [self] and on [self.handler]. *)
Record state := State {
  site : site_filter;
  query_is_irrelevant : option bool;
  query_done : option bool;
  site_is_irrelevant_to_query : option string;
  explanation_for_irrelevance : option string;
  actions : list action
}.

Definition act (a : action) (st : state) : state :=
  State (site st) (query_is_irrelevant st) (query_done st)
        (site_is_irrelevant_to_query st) (explanation_for_irrelevance st)
        (actions st ++ [a]).

(** [self.handler.site == 'all' or self.handler.site == 'nlws' or 'true']. *)
Definition guard (st : state) : pyval :=
  py_or (py_or (PyBool (site_is (site st) "all")) (PyBool (site_is (site st) "nlws")))
        (PyStr "true").

(** [do]; [response] is what [run_prompt] would answer. *)
Definition do (response : option (pydict string)) (st : state) : option exn * state :=
  if py_truthy (guard st) then (None, act (PrecheckStepDone STEP_NAME) st)
  else
    let st := act (RunPrompt RELEVANCE_PROMPT_NAME "high") st in
    match response with
    | None | Some [] => (None, act (PrecheckStepDone STEP_NAME) st)
    | Some fields =>
        match dict_get "site_is_irrelevant_to_query" fields with
        | None => (Some (KeyError "site_is_irrelevant_to_query"), st)
        | Some irrelevant =>
            match dict_get "explanation_for_irrelevance" fields with
            | None =>
                (Some (KeyError "explanation_for_irrelevance"),
                 State (site st) (query_is_irrelevant st) (query_done st)
                       (Some irrelevant) (explanation_for_irrelevance st) (actions st))
            | Some explanation =>
                let st := State (site st) (query_is_irrelevant st) (query_done st)
                                (Some irrelevant) (Some explanation) (actions st) in
                if String.eqb irrelevant "True" then
                  let st := State (site st) (Some true) (Some true)
                                  (site_is_irrelevant_to_query st)
                                  (explanation_for_irrelevance st) (actions st) in
                  let st := act AbortFastTrack st in
                  let st := act (SendMessage "site_is_irrelevant_to_query" explanation) st in
                  (None, act (PrecheckStepDone STEP_NAME) st)
                else
                  let st := State (site st) (Some false) (query_done st)
                                  (site_is_irrelevant_to_query st)
                                  (explanation_for_irrelevance st) (actions st) in
                  (None, act (PrecheckStepDone STEP_NAME) st)
            end
        end
    end.

End RelevanceDetection.

(** ** JSON payloads *)

Module Json.

(** The double quote character and a quoted string. *)
Definition dquote : ascii := "034"%char.
Definition quoted (s : string) : string :=
  String dquote (s ++ String dquote "")%string.

Section Json.

(** A scalar is a JSON value that is neither an array nor an object: a
    number, a string, a truth value or [null]. What scalars there are, and
    how [json.loads] reads a text and [json.dumps] writes a value, is the
    standard library's business: the scalars are a type parameter here, the
    reader is the parameter [json_loads] below, and the writer is the
    [json_dumps] that the aggregation takes. *)
Context {scalar : Type} `{!EqDecision scalar}.

(** A JSON value as [json.loads] returns it; an object is a [dict]. *)
#[local] Unset Elimination Schemes.
Inductive json :=
  | JScalar (x : scalar)
  | JArr (items : list json)
  | JObj (fields : pydict json).
#[local] Set Elimination Schemes.

(** Induction on a JSON value, with the items of an array and the values of
    the fields of an object as smaller values. *)
Section json_ind.
Variable P : json -> Prop.
Hypothesis Hscalar : forall x, P (JScalar x).
Hypothesis Harr : forall items, Forall P items -> P (JArr items).
Hypothesis Hobj : forall fields, Forall (fun kv => P kv.2) fields -> P (JObj fields).

Fixpoint json_ind (v : json) : P v :=
  match v with
  | JScalar x => Hscalar x
  | JArr items =>
      Harr items
        ((fix go (l : list json) : Forall P l :=
            match l with
            | [] => @List.Forall_nil _ P
            | x :: l' => @List.Forall_cons _ P x l' (json_ind x) (go l')
            end) items)
  | JObj fields =>
      Hobj fields
        ((fix go (l : pydict json) : Forall (fun kv => P kv.2) l :=
            match l with
            | [] => @List.Forall_nil _ _
            | kv :: l' => @List.Forall_cons _ (fun kv => P kv.2) kv l' (json_ind kv.2) (go l')
            end) fields)
  end.
End json_ind.

(** Equality of values, item by item and field by field; it is by this
    equality that an array lacks an item. *)
Fixpoint json_eqb (a b : json) : bool :=
  match a, b with
  | JScalar x, JScalar y => bool_decide (x = y)
  | JArr xs, JArr ys =>
      (fix all2 (xs ys : list json) : bool :=
         match xs, ys with
         | [], [] => true
         | x :: xs', y :: ys' => json_eqb x y && all2 xs' ys'
         | _, _ => false
         end) xs ys
  | JObj xs, JObj ys =>
      (fix all2 (xs ys : pydict json) : bool :=
         match xs, ys with
         | [], [] => true
         | (k, x) :: xs', (k', y) :: ys' =>
             String.eqb k k' && json_eqb x y && all2 xs' ys'
         | _, _ => false
         end) xs ys
  | _, _ => false
  end.

(** *** Deep merge *)

(** Modelled from the spec: [utils.json_utils.merge_json_array] is not among
    the files of the repository at hand. The specification (4.5) asks for a
    deep merge into one combined structure with array/object union
    semantics, where later sources add or extend fields rather than
    overwrite: two objects are merged field by field, the fields of the
    earlier one first, a field of both being merged in turn and a field of
    the later one only being added as it is; two arrays are united, the
    later one adding, after the items of the earlier one, the items that the
    earlier one lacks; in any other case the earlier value stands. *)
Fixpoint deep_merge (a b : json) : json :=
  match a, b with
  | JObj fa, JObj fb =>
      JObj ((fix go (fa : pydict json) : pydict json :=
               match fa with
               | [] => []
               | (k, x) :: fa' =>
                   (k, match dict_get k fb with
                       | Some y => deep_merge x y
                       | None => x
                       end) :: go fa'
               end) fa
            ++ filter (fun ky => ky.1 ∉ fa.*1) fb)
  | JArr xa, JArr xb =>
      JArr (xa ++ filter (fun y => existsb (json_eqb y) xa = false) xb)
  | _, _ => a
  end.

(** [json_loads payload] is the structure that the payload serializes
    (specification, 3: a payload is serialized structured data). *)
Variable json_loads : string -> json.

(** Modelled from the spec: the payloads are read, deep-merged from first to
    last, and the result is what [json.dumps] then serializes again. No
    payload is passed over. *)
Definition merge_json_array (json_list : list string) : json :=
  match json_loads <$> json_list with
  | [] => JObj []
  | first :: others => fold_left deep_merge others first
  end.

(** *** Notions the merge policy is stated with *)

(** [extends a r]: the value [r] holds all that [a] holds, where [a] holds
    it. A scalar is extended by itself only; an array by an array that
    starts with its items; an object by an object that has each of its
    fields, with a value that extends the field's. *)
#[local] Unset Elimination Schemes.
Inductive extends : json -> json -> Prop :=
  | extends_scalar x : extends (JScalar x) (JScalar x)
  | extends_arr xa xr : xa `prefix_of` xr -> extends (JArr xa) (JArr xr)
  | extends_obj fa fr :
      (forall k x, dict_get k fa = Some x ->
                   exists y, dict_get k fr = Some y ∧ extends x y) ->
      extends (JObj fa) (JObj fr).
#[local] Set Elimination Schemes.

(** The field names of a value, none unless it is an object. *)
Definition keys (v : json) : list string :=
  match v with
  | JObj fields => fields.*1
  | _ => []
  end.

(** The value of a field. *)
Definition field (k : string) (v : json) : option json :=
  match v with
  | JObj fields => dict_get k fields
  | _ => None
  end.

Definition is_object (v : json) : Prop :=
  match v with
  | JObj _ => True
  | _ => False
  end.

End Json.

Arguments json : clear implicits.

End Json.

(** ** The interleave, as the specification words it *)

(** Round [i] of a round-robin over [ls]: item [i] of every list that still
    has one, in the order of the lists. *)
Definition take_round {A} (i : nat) (ls : list (list A)) : list A :=
  omap (fun l => l !! i) ls.

(** One item from each list per round, exhausted lists skipped. *)
Definition round_robin {A} (ls : list (list A)) : list A :=
  mbind (fun i => take_round i ls) (seq 0 (max_list (length <$> ls))).

(** The lists that still hold an item, each without its first one. *)
Definition advance {A} (ls : list (list A)) : list (list A) :=
  tail <$> filter (fun l => l ≠ []) ls.

(** The iterators that have not raised [StopIteration], each one item on. *)
Definition step_iterators (its : pydict (list row)) : pydict (list row) :=
  prod_map id tail <$> filter (fun e => e.2 ≠ []) its.

(** The URLs of a sequence of rows; an empty row carries none. *)
Definition urls (rows : list row) : list string := omap head rows.

(** Every element once, at the place of its first occurrence. *)
Fixpoint first_occurrences (l : list string) : list string :=
  match l with
  | [] => []
  | x :: l' => x :: filter (fun y => y ≠ x) (first_occurrences l')
  end.

(** A row the first pass records: [len(result) >= 4]. *)
Definition well_formed (r : row) : Prop := 4 <= length r.

Global Instance well_formed_dec r : Decision (well_formed r).
Proof. unfold well_formed. apply _. Defined.

(** [carries u r]: the first pass files row [r] under the URL [u]. *)
Definition carries (u : string) (r : row) : Prop := well_formed r ∧ head r = Some u.

Global Instance carries_dec u r : Decision (carries u r).
Proof. unfold carries. apply _. Defined.

(** The rows of [endpoint_results] that the first pass files under [url], in
    the order the first pass meets them. *)
Definition rows_for (url : string) (endpoint_results : pydict (list row)) : list row :=
  filter (carries url) (concat endpoint_results.*2).

(** The payload, name and site of a row. *)
Definition payload_of (r : row) : string := default "" (r !! 1).
Definition name_of (r : row) : string := default "" (r !! 2).
Definition site_of (r : row) : string := default "" (r !! 3).
Definition url_of (r : row) : string := default "" (head r).

(** A row cut to four fields, an empty payload written as the empty object. *)
Definition normalize (r : row) : row :=
  [url_of r; (if truthy (payload_of r) then payload_of r else "{}"); name_of r; site_of r].

(** The non-empty payloads of a list of rows. *)
Definition payloads (rows : list row) : list string :=
  filter (fun p => p ≠ "") (payload_of <$> rows).

(** What [url_to_data] holds once the rows [seen] have been recorded: for
    every URL, nothing when no row carries it, and otherwise its payload list,
    and the name and site of the first row that carries it. *)
Definition files (utd : gmap string url_data) (seen : list row) : Prop :=
  forall u,
    match utd !! u with
    | None => filter (carries u) seen = []
    | Some d =>
        ud_url d = u
        ∧ ud_json_list d = payloads (filter (carries u) seen)
        ∧ exists r0, head (filter (carries u) seen) = Some r0
                     ∧ ud_name d = name_of r0 ∧ ud_site d = site_of r0
    end.

(** The records the scan of the second pass emits for the URLs [us] when
    [seen] is the set of URLs met before. *)
Definition emitted {Json} (merge_json_array : list string -> Json)
    (json_dumps : Json -> string) (utd : gmap string url_data)
    (seen : gset string) (us : list string) : list row :=
  omap (fun u => Aggregate.merged_result merge_json_array json_dumps <$> utd !! u)
       (filter (fun u => u ≠ "" ∧ u ∉ seen) (first_occurrences us)).

(** ** The usability table, as the specification words it *)

(** The closed set of backend kinds of the specification (4.1), and the
    [db_type] that names each in the configuration. *)
Inductive backend_kind :=
  | ManagedSearch          (* "azure_ai_search" *)
  | ManagedCortexSearch    (* "snowflake_cortex_search" *)
  | SelfHostedSearch       (* "opensearch" *)
  | LocalOrRemote          (* "qdrant" *)
  | LocalOnly              (* "milvus" *)
  | OtherKind.

Definition kind_of (db_type : string) : backend_kind :=
  if decide (db_type = "azure_ai_search") then ManagedSearch
  else if decide (db_type = "snowflake_cortex_search") then ManagedCortexSearch
  else if decide (db_type = "opensearch") then SelfHostedSearch
  else if decide (db_type = "qdrant") then LocalOrRemote
  else if decide (db_type = "milvus") then LocalOnly
  else OtherKind.

(** The table of 4.1: which credential fields must be present. *)
Definition usable_by_table (kind : backend_kind)
    (has_api_key has_api_endpoint has_database_path : bool) : bool :=
  match kind with
  | ManagedSearch | ManagedCortexSearch => has_api_key && has_api_endpoint
  | SelfHostedSearch => has_api_endpoint && has_api_key
  | LocalOrRemote => has_database_path || has_api_endpoint
  | LocalOnly => has_database_path
  | OtherKind => false
  end.

(** ** Sample inputs *)

Module Samples.

(** The payloads [{"a":1}] and [{"b":2}], written without the quote
    character. *)
Definition payload_a : string := ("{" ++ Json.quoted "a" ++ ":1}")%string.
Definition payload_b : string := ("{" ++ Json.quoted "b" ++ ":2}")%string.

(** Endpoint [A] returns three rows and endpoint [B] two. *)
Definition two_endpoints : pydict (list row) :=
  [("A", [["u1"; payload_a; "n1"; "s"]; ["u2"; payload_a; "n2"; "s"];
          ["u3"; payload_b; "n3"; "s"]]);
   ("B", [["u4"; payload_b; "n4"; "s"]; ["u5"; payload_a; "n5"; "s"]])].

(** One endpoint, one row whose URL is the empty string. *)
Definition empty_url : pydict (list row) := [("A", [[""; payload_a; "n"; "s"]])].

(** One endpoint, one row whose payload is the empty string. *)
Definition empty_payload : pydict (list row) := [("A", [["u"; ""; "n"; "s"]])].

(** Rows of four fields with distinct URLs. *)
Definition clean_rows : list row :=
  [["u1"; payload_a; "n1"; "s"]; ["u2"; payload_b; "n2"; "s"]].

(** One endpoint that returns the same row twice. *)
Definition repeated_row : list row :=
  [["u"; payload_a; "n"; "s"]; ["u"; payload_a; "n"; "s"]].

(** One endpoint, a short row and a row of four fields for another URL. *)
Definition short_row : pydict (list row) :=
  [("A", [["u1"; payload_a]; ["u2"; payload_b; "n2"; "s"]])].

(** A configuration with two read endpoints and a write endpoint that is
    registered with valid credentials but not enabled. *)
Definition azure : endpoint_config :=
  EndpointConfig true "azure_ai_search" (Some "key") (Some "https://azure") None.
Definition qdrant_remote : endpoint_config :=
  EndpointConfig true "qdrant" None (Some "https://qdrant") None.
Definition qdrant_local : endpoint_config :=
  EndpointConfig false "qdrant" None None (Some "/data/qdrant").

Definition sample_config : config :=
  Config [("E1", azure); ("E2", qdrant_remote); ("W", qdrant_local)] (Some "W").

(** The same endpoints without a write endpoint. *)
Definition read_only_config : config :=
  Config [("E1", azure); ("E2", qdrant_remote); ("W", qdrant_local)] None.

(** The client that [VectorDBClient()] builds from [sample_config]. *)
Definition sample_client : client :=
  Client None (Some "azure_ai_search") [("E1", azure); ("E2", qdrant_remote)] (Some "W").

(** Adapters: every constructor succeeds; [E1] lists the site [siteX] and
    answers a search with one row; any other endpoint does not list its
    sites and fails a search; a write stores or deletes one document. *)
Definition sample_init (a : adapter) : option exn := None.
Definition sample_sites (a : adapter) : exn + option (list string) :=
  if String.eqb (adapter_endpoint a) "E1" then inr (Some ["siteX"]) else inr None.
Definition sample_rows (a : adapter) (c : adapter_call) : exn + list row :=
  if String.eqb (adapter_endpoint a) "E1" then inr [["u1"; payload_a; "n1"; "siteX"]]
  else inl (BackendError "timeout").
Definition sample_count (a : adapter) (c : adapter_call) : exn + Z := inr 1%Z.

(** A world in which nothing has happened yet, and one in which the index of
    [E1] is cached. *)
Definition fresh_world : world := World ∅ ∅ [].
Definition indexed_world : world := World ∅ {["E1" := Some ["siteX"]]} [].

End Samples.

(** ** Sample payloads, read and written *)

Module JsonSamples.
Import Json.

(** The scalars of the samples are the texts that write them. *)
Abbreviation json := (Json.json string).

(** The payload [{"a":9}], which has the field of [Samples.payload_a] with
    another value. *)
Definition payload_a9 : string := ("{" ++ quoted "a" ++ ":9}")%string.

(** A reader for the payloads of the samples; any other text is read as the
    scalar that this text writes. *)
Definition sample_loads (payload : string) : json :=
  if String.eqb payload Samples.payload_a then JObj [("a", JScalar "1")]
  else if String.eqb payload Samples.payload_b then JObj [("b", JScalar "2")]
  else if String.eqb payload payload_a9 then JObj [("a", JScalar "9")]
  else JScalar payload.

(** A writer in the layout of [json.dumps] with its default separators; a
    scalar is written as its text and the name of a field is put between
    quotes as it is. *)
Fixpoint sample_dumps (v : json) : string :=
  match v with
  | JScalar text => text
  | JArr items =>
      ("[" ++ (fix go (items : list json) : string :=
                 match items with
                 | [] => ""
                 | [x] => sample_dumps x
                 | x :: rest => sample_dumps x ++ ", " ++ go rest
                 end) items ++ "]")%string
  | JObj fields =>
      ("{" ++ (fix go (fields : pydict json) : string :=
                 match fields with
                 | [] => ""
                 | [(k, x)] => quoted k ++ ": " ++ sample_dumps x
                 | (k, x) :: rest => quoted k ++ ": " ++ sample_dumps x ++ ", " ++ go rest
                 end) fields ++ "}")%string
  end.

(** The merge of the specification over the sample reader. *)
Definition sample_merge : list string -> json := merge_json_array sample_loads.

End JsonSamples.

(** ** Further notions for the aggregation *)

Module AggregateNotions.

(** The merged record of a URL, read off the rows filed under it: the name
    and site of the first of them, and the payload made of all of them. *)
Definition record_for {Json} (merge_json_array : list string -> Json)
    (json_dumps : Json -> string) (u : string)
    (endpoint_results : pydict (list row)) : option row :=
  match rows_for u endpoint_results with
  | [] => None
  | r0 :: _ =>
      Some [u;
            Aggregate.merged_json_str merge_json_array json_dumps
              (payloads (rows_for u endpoint_results));
            name_of r0; site_of r0]
  end.

End AggregateNotions.

Module MoreSamples.

(** Endpoint [B] ranks [u1] first, endpoint [A] second; the first pass meets
    the row of [A] first, the interleave the row of [B]. *)
Definition crossed : pydict (list row) :=
  [("A", [["u2"; Samples.payload_a; "n2"; "siteA"];
          ["u1"; Samples.payload_a; "nameA"; "siteA"]]);
   ("B", [["u1"; Samples.payload_b; "nameB"; "siteB"]])].

(** [two_endpoints] with an endpoint in the middle that returned nothing. *)
Definition with_silent_endpoint : pydict (list row) :=
  [("A", [["u1"; Samples.payload_a; "n1"; "s"]]); ("Q", []);
   ("B", [["u4"; Samples.payload_b; "n4"; "s"]])].

(** The non-empty lists of [with_silent_endpoint] under other names. *)
Definition renamed : pydict (list row) :=
  [("X", [["u1"; Samples.payload_a; "n1"; "s"]]);
   ("Y", [["u4"; Samples.payload_b; "n4"; "s"]])].

End MoreSamples.

(** ** Further notions for the client *)

Module ClientNotions.

(** The [_client_cache] holds, under the key of a class and an endpoint, the
    adapter of that class for that endpoint, and only adapters of the classes
    [get_client] knows. *)
Definition cache_consistent (w : world) : Prop :=
  forall key a,
    client_cache w !! key = Some a ->
    key = (adapter_class a ++ "_" ++ adapter_endpoint a)%string
    ∧ VectorDBClient.known_db_type (adapter_class a) = true.

(** The events of a list of tasks that are run. *)
Definition calls_of (tasks : list VectorDBClient.task) : list event :=
  (fun t => Called t.1.2 t.2) <$> tasks.

(** The adapter of an enabled endpoint: the one of the class that its
    [db_type] names, for this endpoint. *)
Definition own_adapter (self : client) (endpoint_name : string) : option adapter :=
  (fun cfg => Adapter (db_type cfg) endpoint_name)
    <$> dict_get endpoint_name (enabled_endpoints self).

(** Every enabled endpoint has a [db_type] that [get_client] has an adapter
    class for, as the endpoints with valid credentials have. *)
Definition supported (self : client) : Prop :=
  Forall (fun e => VectorDBClient.known_db_type (db_type e.2) = true)
         (enabled_endpoints self).

(** An endpoint is eligible for a site filter when the filter is ["all"],
    when its site index is [None], or when the index holds one of the
    requested sites. *)
Definition eligible (site : site_filter) (index : option (list string)) : bool :=
  site_is site "all"
  || match index with
     | None => true
     | Some sites =>
         existsb (fun site_name => bool_decide (site_name ∈ sites))
                 (VectorDBClient.sites_to_check site)
     end.

(** The adapter and the site index that the world holds for an endpoint of
    the client, when it holds both. *)
Definition warm_entry (self : client) (w : world) (endpoint_name : string)
    : option (adapter * option (list string)) :=
  match dict_get endpoint_name (enabled_endpoints self) with
  | None => None
  | Some cfg =>
      match client_cache w !! (db_type cfg ++ "_" ++ endpoint_name)%string,
            endpoint_sites_cache w !! endpoint_name with
      | Some a, Some index => Some (a, index)
      | _, _ => None
      end
  end.

(** The task a search gives an endpoint in a world that is warm for it. *)
Definition warm_task (self : client) (w : world) (query : string)
    (site : site_filter) (num_results : Z) (endpoint_name : string)
    : option VectorDBClient.task :=
  match warm_entry self w endpoint_name with
  | Some (a, index) =>
      if eligible site index
      then Some (endpoint_name, a, VectorDBClient.search_call query site num_results)
      else None
  | None => None
  end.

(** The events of the dispatch phase of a search: adapters are built and
    asked for their sites, nothing else. *)
Definition is_setup (ev : event) : Prop :=
  match ev with
  | Constructed _ => True
  | Called _ GetSites => True
  | Called _ _ => False
  end.

(** The world [w'] is [w] after setup events: the trace has grown by such
    events only. *)
Definition setup_from (w w' : world) : Prop :=
  exists evs, trace w' = trace w ++ evs ∧ Forall is_setup evs.

End ClientNotions.

(** Sample worlds for the client of [Samples]. *)
Module ClientSamples.

Definition e1_adapter : adapter := Adapter "azure_ai_search" "E1".
Definition e2_adapter : adapter := Adapter "qdrant" "E2".

(** The world after the adapter of [E1] has been built. *)
Definition built_world : world :=
  World {["azure_ai_search_E1" := e1_adapter]} ∅ [Constructed e1_adapter].

(** A world that holds both adapters and both site indexes. *)
Definition warm_world : world :=
  World {["azure_ai_search_E1" := e1_adapter; "qdrant_E2" := e2_adapter]}
        {["E1" := Some ["siteX"]; "E2" := Some ["siteY"]]} [].

(** The client that [VectorDBClient(endpoint_name="W")] builds from
    [Samples.sample_config]; the endpoint [W] is not enabled. *)
Definition pinned_client : client :=
  Client (Some "W") (Some "qdrant") [("W", Samples.qdrant_local)] (Some "W").

End ClientSamples.

(** ** [_deduplicate_by_url] *)

Module Deduplicate.

(** [result[2]], the content of a result of at least three fields. *)
Definition content (result : row) : string := default "" (result !! 2).

(** [len(s)] of a [str] is the number of its characters. A string holds the
    UTF-8 bytes of the text, so a character is every byte that does not
    continue one: every byte but those from 128 to 191. *)
Definition continues (c : ascii) : bool :=
  (128 <=? nat_of_ascii c)%nat && (nat_of_ascii c <? 192)%nat.

Fixpoint len (s : string) : nat :=
  match s with
  | EmptyString => 0
  | String c s' => if continues c then len s' else S (len s')
  end.

(** One iteration of [for result in results]: a result of fewer than three
    fields is passed over; another one is stored under its URL when the URL
    is new or when its content is longer than that of the stored result. *)
Definition keep (url_to_result : pydict row) (result : row) : pydict row :=
  if (3 <=? length result)%nat then
    let url := default "" (head result) in
    match dict_get url url_to_result with
    | None => dict_set url result url_to_result
    | Some kept =>
        if (len (content kept) <? len (content result))%nat
        then dict_set url result url_to_result
        else url_to_result
    end
  else url_to_result.

(** [list(url_to_result.values())] after the loop. *)
Definition _deduplicate_by_url (results : list row) : list row :=
  (fold_left keep results []).*2.

(** A result the loop looks at: [len(result) >= 3]. *)
Definition wide (r : row) : Prop := 3 <= length r.

Global Instance wide_dec r : Decision (wide r).
Proof. unfold wide. apply _. Defined.

(** What the dictionary of the loop holds once the results [rows] have been
    looked at. *)
Definition kept_at (rows : list row) (u : string) (r : row) : Prop :=
  exists i,
    rows !! i = Some r ∧ wide r ∧ head r = Some u
    ∧ forall j r', rows !! j = Some r' -> wide r' -> head r' = Some u ->
        len (content r') <= len (content r)
        ∧ (j < i -> len (content r') < len (content r)).

End Deduplicate.

Module DeduplicateSamples.

(** Three results for the URL [u], the second and third with the longest
    content, one result for [v], and a result of two fields. *)
Definition mixed : list row :=
  [["u"; "t1"; "ab"]; ["v"; "t2"; "x"]; ["u"; "t3"; "abcd"]; ["w"; "t4"];
   ["u"; "t5"; "wxyz"]].

(** Results of three fields with distinct URLs. *)
Definition distinct : list row := [["u"; "t1"; "ab"]; ["v"; "t2"; "x"]].

(** Two results for the URL [u]: the content of the first is one accented
    character, of two bytes, and that of the second two characters. *)
Definition accented : list row := [["u"; "t1"; "é"]; ["u"; "t2"; "ab"]].

End DeduplicateSamples.

(** ** The client's [get_sites] and [search_by_url] *)

Module Facade.
Section Facade.

Variable CONFIG : config.
Variable adapter_init : adapter -> option exn.
Variable sites_of : adapter -> exn + option (list string).

(** [item_of a url] is what [search_by_url] of the adapter [a] returns or
    raises for [url]. *)
Variable item_of : adapter -> string -> exn + option row.

Local Abbreviation get_client := (VectorDBClient.get_client adapter_init).
Local Abbreviation call_sites := (VectorDBClient.call_sites sites_of).

(** [endpoint_name and endpoint_name != self.endpoint_name]. *)
Definition overrides (self : client) (requested : option string) : bool :=
  truthy_opt requested && negb (bool_decide (requested = endpoint_name self)).

(** *** [get_sites] *)

(** One iteration of the loop over the enabled endpoints: the sites of an
    endpoint are added when its adapter returns a list that is not empty; a
    failure is logged and passed over. *)
Definition add_sites (self : client) (all_sites : gset string) (name : string)
    : M (gset string) :=
  try_except
    (let* a := get_client self name in
     let* endpoint_sites := call_sites a in
     ret (match endpoint_sites with
          | Some (site_name :: rest) => all_sites ∪ list_to_set (site_name :: rest)
          | _ => all_sites
          end))
    (fun _ => ret all_sites).

Fixpoint collect_sites (self : client) (all_sites : gset string) (names : list string)
    : M (gset string) :=
  match names with
  | [] => ret all_sites
  | name :: rest =>
      let* all_sites' := add_sites self all_sites name in
      collect_sites self all_sites' rest
  end.

(** The part of [get_sites] under the retrieval lock. The order of
    [list(all_sites)] is that of a [set]: it is modelled by [elements], and
    only what does not depend on the order is proved of it. *)
Definition get_sites_locked (self : client) : M (list string) :=
  try_except
    (let* sites :=
       (if truthy_opt (endpoint_name self) then
          let* a := get_client self (default "" (endpoint_name self)) in
          call_sites a
        else
          let* all_sites := collect_sites self ∅ (enabled_endpoints self).*1 in
          ret (Some (elements all_sites))) in
     match sites with
     | None => ret []
     | Some sites => ret sites
     end)
    (fun _ => ret []).

Definition get_sites (self : client) (requested : option string) : M (list string) :=
  if overrides self requested then
    match VectorDBClient.init CONFIG requested with
    | inl e => raise e
    | inr temp_client => get_sites_locked temp_client
    end
  else get_sites_locked self.

(** *** [search_by_url]

    [search_by_url] of an adapter is a call that [adapter_call] does not
    list: the state of a lookup is the world together with the lookups made
    so far, each an adapter and the URL it was asked for. *)

Record lookup_state := LookupState {
  ls_world : world;
  ls_asked : list (adapter * string)
}.

Definition L (A : Type) : Type := lookup_state -> (exn + A) * lookup_state.

Definition lift {A} (m : M A) : L A :=
  fun s => let '(outcome, w) := m (ls_world s) in (outcome, LookupState w (ls_asked s)).

Definition call_item (a : adapter) (url : string) : L (option row) :=
  fun s => (item_of a url, LookupState (ls_world s) (ls_asked s ++ [(a, url)])).

(** The loop over the enabled endpoints: the first result that is truthy,
    neither [None] nor empty, is returned; an endpoint that fails or has
    nothing is passed over; [None] when the endpoints run out. *)
Fixpoint probe_all (self : client) (url : string) (names : list string)
    : L (option row) :=
  match names with
  | [] => fun s => (inr None, s)
  | name :: rest =>
      fun s =>
        match lift (get_client self name) s with
        | (inl _, s1) => probe_all self url rest s1
        | (inr a, s1) =>
            match call_item a url s1 with
            | (inr (Some (field :: fields)), s2) => (inr (Some (field :: fields)), s2)
            | (_, s2) => probe_all self url rest s2
            end
        end
  end.

(** The part under the retrieval lock; its [except] clause logs and raises
    again. *)
Definition search_by_url_locked (self : client) (url : string) : L (option row) :=
  if truthy_opt (endpoint_name self) then
    fun s =>
      match lift (get_client self (default "" (endpoint_name self))) s with
      | (inl e, s1) => (inl e, s1)
      | (inr a, s1) => call_item a url s1
      end
  else probe_all self url (enabled_endpoints self).*1.

Definition search_by_url (self : client) (url : string) (requested : option string)
    : L (option row) :=
  if overrides self requested then
    match VectorDBClient.init CONFIG requested with
    | inl e => fun s => (inl e, s)
    | inr temp_client => search_by_url_locked temp_client url
    end
  else search_by_url_locked self url.

(** *** Notions the properties are stated with *)

(** The answer of an adapter that counts: a result that is not empty. *)
Definition answer (url : string) (a : adapter) : option row :=
  match item_of a url with
  | inr (Some (field :: fields)) => Some (field :: fields)
  | _ => None
  end.

(** The adapters of a list up to and including the first that answers. *)
Fixpoint until_answer (url : string) (adapters : list adapter) : list adapter :=
  match adapters with
  | [] => []
  | a :: rest =>
      match answer url a with
      | Some _ => [a]
      | None => a :: until_answer url rest
      end
  end.

(** The sites an adapter lists, none when the call fails or returns [None]. *)
Definition listing (a : adapter) : list string :=
  match sites_of a with
  | inr (Some sites) => sites
  | _ => []
  end.

(** The adapter that the cache holds for an endpoint of the client. *)
Definition cached_adapter (self : client) (w : world) (name : string) : option adapter :=
  match dict_get name (enabled_endpoints self) with
  | Some cfg => client_cache w !! (db_type cfg ++ "_" ++ name)%string
  | None => None
  end.

(** The client of [VectorDBClient(endpoint_name=name)] for a registered
    endpoint. *)
Definition pinned (name : string) (cfg : endpoint_config) : client :=
  {| endpoint_name := Some name;
     client_db_type := Some (db_type cfg);
     enabled_endpoints := [(name, cfg)];
     client_write_endpoint := write_endpoint CONFIG |}.

End Facade.
End Facade.

Module FacadeSamples.

(** Only the adapter of [E2] has the page: the others have nothing. *)
Definition sample_page : row := ["u"; Samples.payload_a; "n"; "siteY"].
Definition sample_item (a : adapter) (url : string) : exn + option row :=
  if String.eqb (adapter_endpoint a) "E2" then inr (Some sample_page) else inr None.

(** A lookup that starts in the warm world, and one that starts from
    nothing. *)
Definition warm_lookup : Facade.lookup_state :=
  Facade.LookupState ClientSamples.warm_world [].
Definition fresh_lookup : Facade.lookup_state :=
  Facade.LookupState Samples.fresh_world [].

End FacadeSamples.

(** * Properties *)

(** ** Python dictionaries *)

Section Dict.
Context {V : Type}.
Implicit Types (d : pydict V) (k : string) (v : V).

Lemma dict_set_fresh k v d : k ∉ d.*1 -> dict_set k v d = d ++ [(k, v)].
Proof.
  induction d as [|[k' v'] d IH]; simpl; [done|].
  intros Hk. apply not_elem_of_cons in Hk as [Hne Hk].
  destruct (String.eqb_spec k k') as [->|_]; [done|]. by rewrite IH.
Qed.

Lemma dict_get_None k d : dict_get k d = None <-> k ∉ d.*1.
Proof.
  induction d as [|[k' v'] d IH]; simpl.
  - split; [intros _; apply not_elem_of_nil | done].
  - destruct (String.eqb_spec k k') as [->|Hne].
    + split; [done|]. intros H. exfalso. apply H. left.
    + rewrite IH, not_elem_of_cons. tauto.
Qed.

Lemma dict_get_Some k v d : dict_get k d = Some v -> (k, v) ∈ d.
Proof.
  induction d as [|[k' v'] d IH]; simpl; [done|].
  destruct (String.eqb_spec k k') as [->|Hne].
  - intros [= ->]. left.
  - intros H. right. by apply IH.
Qed.

Lemma dict_get_is_Some k d : is_Some (dict_get k d) <-> k ∈ d.*1.
Proof.
  rewrite <- not_eq_None_Some, dict_get_None.
  split; [apply dec_stable | by intros ? ?].
Qed.

Lemma dict_del_skip k k' v d :
  k ≠ k' -> dict_del k ((k', v) :: d) = (k', v) :: dict_del k d.
Proof. intros Hne. simpl. by destruct (String.eqb_spec k k'). Qed.

Lemma dict_del_absent k d : k ∉ d.*1 -> dict_del k d = d.
Proof.
  induction d as [|[k' v'] d IH]; simpl; [done|].
  intros Hk. apply not_elem_of_cons in Hk as [Hne Hk].
  destruct (String.eqb_spec k k') as [->|_]; [done|]. by rewrite IH.
Qed.

Lemma dict_del_all_skip (ks : list string) k v d :
  k ∉ ks ->
  fold_left (fun d k => dict_del k d) ks ((k, v) :: d)
  = (k, v) :: fold_left (fun d k => dict_del k d) ks d.
Proof.
  revert d. induction ks as [|k' ks IH]; intros d Hk; simpl; [done|].
  apply not_elem_of_cons in Hk as [Hne Hk].
  destruct (String.eqb_spec k' k) as [->|_]; [done|]. by apply IH.
Qed.

End Dict.

(** ** The round-robin interleave *)

Section RoundRobin.
Context {A : Type}.
Implicit Types (l : list A) (ls : list (list A)).

Lemma advance_cons_nil ls : advance ([] :: ls) = advance ls.
Proof. unfold advance. by rewrite filter_cons_False by naive_solver. Qed.

Lemma advance_cons_cons x l ls : advance ((x :: l) :: ls) = l :: advance ls.
Proof. unfold advance. by rewrite filter_cons_True. Qed.

Lemma take_round_0 ls : take_round 0 ls = omap head ls.
Proof.
  unfold take_round. induction ls as [|l ls IH]; [done|].
  destruct l; csimpl; by rewrite IH.
Qed.

Lemma take_round_S i ls : take_round (S i) ls = take_round i (advance ls).
Proof.
  induction ls as [|l ls IH]; [done|].
  destruct l as [|x l].
  - rewrite advance_cons_nil. exact IH.
  - rewrite advance_cons_cons. unfold take_round in *. csimpl. by rewrite IH.
Qed.

Lemma max_length_advance ls :
  max_list (length <$> advance ls) = pred (max_list (length <$> ls)).
Proof.
  induction ls as [|l ls IH]; [done|].
  destruct l as [|x l].
  - rewrite advance_cons_nil. exact IH.
  - rewrite advance_cons_cons. csimpl. rewrite IH. lia.
Qed.

Lemma max_length_0 ls : max_list (length <$> ls) = 0 -> omap head ls = [].
Proof.
  induction ls as [|l ls IH]; [done|].
  destruct l; csimpl; [|lia]. intros H. apply IH. lia.
Qed.

Lemma round_robin_unfold ls :
  round_robin ls = omap head ls ++ round_robin (advance ls).
Proof.
  unfold round_robin. rewrite max_length_advance.
  destruct (max_list (length <$> ls)) as [|m] eqn:Hm.
  - by rewrite max_length_0.
  - rewrite <- cons_seq, bind_cons, take_round_0. f_equal.
    rewrite <- fmap_S_seq, list_fmap_bind. simpl.
    apply list_bind_ext; [|done]. intros i. apply take_round_S.
Qed.

Lemma round_robin_nil : round_robin (@nil (list A)) = [].
Proof. done. Qed.

Lemma round_robin_single l : round_robin [l] = l.
Proof.
  induction l as [|x l IH]; [done|].
  rewrite round_robin_unfold, advance_cons_cons. csimpl.
  change (advance []) with (@nil (list A)). by rewrite IH.
Qed.

Lemma omap_head_live ls : omap head (filter (fun l => l ≠ []) ls) = omap head ls.
Proof.
  induction ls as [|l ls IH]; [done|].
  destruct l.
  - by rewrite filter_cons_False by naive_solver.
  - rewrite filter_cons_True by done. csimpl. by rewrite IH.
Qed.

Lemma round_robin_live ls : round_robin (filter (fun l => l ≠ []) ls) = round_robin ls.
Proof.
  rewrite (round_robin_unfold ls), (round_robin_unfold (filter _ ls)).
  rewrite omap_head_live. f_equal. unfold advance.
  rewrite list_filter_filter.
  by rewrite (list_filter_iff _ (fun l : list A => l ≠ [])) by (intros; tauto).
Qed.

End RoundRobin.

(** The interleave is a rearrangement of all the rows. *)
Lemma concat_heads_advance {A} (ls : list (list A)) :
  concat ls ≡ₚ omap head ls ++ concat (advance ls).
Proof.
  induction ls as [|l ls IH]; [done|].
  destruct l as [|x l].
  - rewrite advance_cons_nil. exact IH.
  - rewrite advance_cons_cons. csimpl. f_equiv. rewrite IH.
    rewrite !app_assoc. f_equiv. apply Permutation_app_comm.
Qed.

Lemma round_robin_Permutation {A} (ls : list (list A)) : round_robin ls ≡ₚ concat ls.
Proof.
  remember (max_list (length <$> ls)) as m eqn:Hm. revert ls Hm.
  induction m as [|m IH]; intros ls Hm.
  - unfold round_robin. rewrite <- Hm. simpl.
    induction ls as [|l ls IHls]; [done|].
    destruct l; csimpl in *; [apply IHls|]; lia.
  - rewrite round_robin_unfold, (concat_heads_advance ls). f_equiv.
    apply IH. rewrite max_length_advance. lia.
Qed.

(** ** First occurrences *)

Lemma first_occurrences_elem x l : x ∈ first_occurrences l <-> x ∈ l.
Proof.
  induction l as [|y l IH]; [done|]. simpl.
  rewrite !elem_of_cons, list_elem_of_filter, IH.
  destruct (decide (x = y)); tauto.
Qed.

Lemma first_occurrences_NoDup l : NoDup (first_occurrences l).
Proof.
  induction l as [|y l IH]; simpl; [constructor|].
  apply NoDup_cons. split; [|by apply NoDup_filter].
  rewrite list_elem_of_filter. tauto.
Qed.

Lemma filter_Forall_id {A} (P : A -> Prop) `{forall x, Decision (P x)} (l : list A) :
  Forall P l -> filter P l = l.
Proof.
  induction 1 as [|x l Hx _ IH]; [done|].
  rewrite filter_cons_True by done. by rewrite IH.
Qed.

Lemma first_occurrences_id l : NoDup l -> first_occurrences l = l.
Proof.
  induction l as [|y l IH]; [done|]. intros Hnd.
  apply NoDup_cons in Hnd as [Hy Hnd]. simpl. rewrite (IH Hnd). f_equal.
  apply filter_Forall_id, Forall_forall. by intros z Hz ->.
Qed.

(** ** The deep merge of payloads *)

Module JsonFacts.
Import Json.
Section JsonFacts.

Context {scalar : Type} `{!EqDecision scalar}.

Local Abbreviation json := (json scalar).

Lemma json_eqb_eq (a b : json) : json_eqb a b = true <-> a = b.
Proof.
  revert b. induction a as [x|items IH|fields IH] using json_ind; intros [y|ys|ys];
    simpl; try (split; [discriminate|done]).
  - rewrite bool_decide_eq_true. split; congruence.
  - revert ys. induction IH as [|x items Hx _ IHitems]; intros [|y ys];
      try (split; [discriminate||done|done]).
    rewrite andb_true_iff, Hx, IHitems. split; [intros [-> [= ->]]; done|].
    intros [= -> ->]. done.
  - revert ys. induction IH as [|[k x] fields Hx _ IHfields]; intros [|[k' y] ys];
      try (split; [discriminate||done|done]).
    simpl in Hx. rewrite !andb_true_iff, Hx, IHfields, String.eqb_eq.
    split; [intros [[-> ->] [= ->]]; done|]. intros [= -> -> ->]. done.
Qed.

(** The fields of a merged object. *)
Lemma deep_merge_obj (fa fb : pydict json) :
  deep_merge (JObj fa) (JObj fb)
  = JObj (((fun kx => (kx.1, match dict_get kx.1 fb with
                              | Some y => deep_merge kx.2 y
                              | None => kx.2
                              end)) <$> fa)
          ++ filter (fun ky => ky.1 ∉ fa.*1) fb).
Proof.
  cbn [deep_merge]. do 2 f_equal.
  induction fa as [|[k x] fa IH]; [done|]. csimpl. by rewrite IH.
Qed.

Lemma dict_get_app {V} (k : string) (d1 d2 : pydict V) :
  dict_get k (d1 ++ d2)
  = match dict_get k d1 with
    | Some v => Some v
    | None => dict_get k d2
    end.
Proof.
  induction d1 as [|[k' v'] d1 IH]; [done|]. simpl.
  by destruct (String.eqb_spec k k').
Qed.

Lemma dict_get_fmap {V W} (f : string -> V -> W) (k : string) (d : pydict V) :
  dict_get k ((fun kx => (kx.1, f kx.1 kx.2)) <$> d) = f k <$> dict_get k d.
Proof.
  induction d as [|[k' v'] d IH]; [done|]. csimpl.
  by destruct (String.eqb_spec k k') as [->|].
Qed.

Lemma dict_get_filter_fresh {V} (l : list string) (k : string) (d : pydict V) :
  dict_get k (filter (fun ky => ky.1 ∉ l) d)
  = if decide (k ∉ l) then dict_get k d else None.
Proof.
  induction d as [|[k' v'] d IH]; [by destruct (decide (k ∉ l))|].
  destruct (decide (k' ∉ l)) as [Hk'|Hk'].
  - rewrite filter_cons_True by done. simpl.
    destruct (String.eqb_spec k k') as [->|]; [by rewrite decide_True|done].
  - rewrite filter_cons_False by done. simpl.
    destruct (String.eqb_spec k k') as [->|]; [|done].
    rewrite IH. by rewrite !decide_False.
Qed.

(** Field by field: a field of both values is merged, a field of one of
    them is taken as it is. *)
Lemma deep_merge_field (fa fb : pydict json) (k : string) :
  field k (deep_merge (JObj fa) (JObj fb))
  = match dict_get k fa, dict_get k fb with
    | Some x, Some y => Some (deep_merge x y)
    | Some x, None => Some x
    | None, y => y
    end.
Proof.
  rewrite deep_merge_obj. cbn [field].
  rewrite dict_get_app.
  rewrite (dict_get_fmap (fun k x => match dict_get k fb with
                                     | Some y => deep_merge x y
                                     | None => x
                                     end)).
  rewrite dict_get_filter_fresh.
  destruct (dict_get k fa) as [x|] eqn:Hfa; cbn [fmap option_fmap option_map].
  - by destruct (dict_get k fb).
  - rewrite decide_True; [done|]. by apply dict_get_None.
Qed.

(** The field names of a merged object: those of the earlier one, then the
    new ones of the later one. *)
Lemma deep_merge_keys (fa fb : pydict json) :
  keys (deep_merge (JObj fa) (JObj fb)) = fa.*1 ++ filter (fun k => k ∉ fa.*1) fb.*1.
Proof.
  rewrite deep_merge_obj. cbn [keys]. rewrite fmap_app. f_equal.
  - rewrite <- list_fmap_compose. by apply list_fmap_ext.
  - generalize (fa.*1). intros l. induction fb as [|[k y] fb IH]; [done|]. csimpl.
    destruct (decide (k ∉ l)).
    + rewrite !filter_cons_True by done. csimpl. by rewrite IH.
    + rewrite !filter_cons_False by done. done.
Qed.

(** The items of a merged array: those of the earlier one, then the items
    of the later one that the earlier one lacks, in their order. *)
Lemma deep_merge_arr (xa xb : list json) :
  exists new,
    deep_merge (JArr xa) (JArr xb) = JArr (xa ++ new)
    ∧ new `sublist_of` xb
    ∧ forall z, z ∈ new <-> z ∈ xb ∧ z ∉ xa.
Proof.
  eexists. split; [reflexivity|]. split; [apply sublist_filter|].
  intros z. rewrite list_elem_of_filter.
  rewrite <- not_true_iff_false, existsb_exists. split.
  - intros [H Hz]. split; [done|]. intros Hin. apply H. exists z.
    split; [by apply list_elem_of_In|]. by apply json_eqb_eq.
  - intros [Hz H]. split; [|done]. intros (y & Hy & Heq).
    apply json_eqb_eq in Heq as <-. by apply H, list_elem_of_In.
Qed.

Lemma extends_refl (a : json) : extends a a.
Proof.
  induction a as [x|items IH|fields IH] using json_ind.
  - constructor.
  - by constructor.
  - constructor. intros k x Hk. exists x. split; [done|].
    apply dict_get_Some in Hk. rewrite Forall_forall in IH. exact (IH _ Hk).
Qed.

Lemma extends_trans (a b c : json) : extends a b -> extends b c -> extends a c.
Proof.
  revert b c. induction a as [x|items IH|fields IH] using json_ind; intros b c Hab Hbc.
  - inversion Hab; subst. by inversion Hbc; subst.
  - inversion Hab; subst. inversion Hbc; subst. constructor. by etrans.
  - inversion Hab as [| |? fb Hfb]; subst. inversion Hbc as [| |? fc Hfc]; subst.
    constructor. intros k x Hk.
    destruct (Hfb k x Hk) as (y & Hy & Hxy). destruct (Hfc k y Hy) as (z & Hz & Hyz).
    exists z. split; [done|].
    apply dict_get_Some in Hk. rewrite Forall_forall in IH. exact (IH _ Hk _ _ Hxy Hyz).
Qed.

(** The earlier value is extended, never overwritten, at every depth. *)
Lemma deep_merge_extends (a b : json) : extends a (deep_merge a b).
Proof.
  revert b. induction a as [x|items IH|fields IH] using json_ind; intros b.
  - destruct b; apply extends_refl.
  - destruct b as [y|ys|fb]; try apply extends_refl.
    destruct (deep_merge_arr items ys) as (new & -> & _). constructor.
    by exists new.
  - destruct b as [y|ys|fb]; try apply extends_refl.
    pose proof (deep_merge_field fields fb) as Hf.
    rewrite deep_merge_obj in *. constructor. intros k x Hk.
    specialize (Hf k). rewrite Hk in Hf. cbn [field] in Hf.
    destruct (dict_get k fb) as [y|].
    + eexists. split; [exact Hf|].
      apply dict_get_Some in Hk. rewrite Forall_forall in IH. exact (IH _ Hk y).
    + eexists. split; [exact Hf|]. apply extends_refl.
Qed.

Lemma extends_scalar_inv (x : scalar) (r : json) : extends (JScalar x) r -> r = JScalar x.
Proof. intros H. by inversion H. Qed.

Lemma extends_field (a r : json) (k : string) (x : json) :
  extends a r -> field k a = Some x -> exists y, field k r = Some y ∧ extends x y.
Proof.
  intros H Hk. destruct a as [?|?|fa]; try done.
  inversion H as [| |? fr Hfr]; subst. by apply Hfr.
Qed.

(** *** Merging a list of values *)

Lemma fold_merge_extends (others : list json) (a : json) :
  extends a (fold_left deep_merge others a).
Proof.
  revert a. induction others as [|b others IH]; intros a; [apply extends_refl|].
  simpl. eapply extends_trans; [apply deep_merge_extends|apply IH].
Qed.

Lemma is_object_keys (v : json) : is_object v -> exists fields, v = JObj fields.
Proof. destruct v; try done. eauto. Qed.

Lemma deep_merge_keys_elem (fa fb : pydict json) (k : string) :
  k ∈ keys (deep_merge (JObj fa) (JObj fb)) <-> k ∈ fa.*1 ∨ k ∈ fb.*1.
Proof.
  rewrite deep_merge_keys, elem_of_app, list_elem_of_filter.
  destruct (decide (k ∈ fa.*1)); tauto.
Qed.

Lemma fold_merge_keys (others : list json) (a : json) :
  is_object a -> Forall is_object others ->
  is_object (fold_left deep_merge others a)
  ∧ forall k, k ∈ keys (fold_left deep_merge others a)
      <-> k ∈ keys a ∨ exists v, v ∈ others ∧ k ∈ keys v.
Proof.
  revert a. induction others as [|b others IH]; intros a Ha Hall.
  - split; [done|]. intros k. split; [tauto|]. intros [?|(v & Hv & _)]; [done|].
    by apply elem_of_nil in Hv.
  - apply Forall_cons in Hall as [Hb Hall].
    destruct (is_object_keys a Ha) as [fa ->]. destruct (is_object_keys b Hb) as [fb ->].
    assert (is_object (deep_merge (JObj fa) (JObj fb))) as Hm
      by (by rewrite deep_merge_obj).
    destruct (IH _ Hm Hall) as [Hobj Hkeys]. split; [done|].
    intros k. cbn [fold_left]. rewrite Hkeys, deep_merge_keys_elem. cbn [keys]. split.
    + intros [[?|?]|(v & Hv & Hk)]; [tauto| |].
      * right. exists (JObj fb). split; [left|done].
      * right. exists v. split; [by right|done].
    + intros [?|(v & Hv & Hk)]; [tauto|].
      apply elem_of_cons in Hv as [->|Hv]; [tauto|]. right. eauto.
Qed.

Section merge_json_array.

Variable json_loads : string -> json.

Local Abbreviation merge_json_array := (merge_json_array json_loads).

(** The first payload is extended by the merge, never overwritten. *)
Lemma merge_extends_first (p : string) (ps : list string) :
  extends (json_loads p) (merge_json_array (p :: ps)).
Proof. unfold Json.merge_json_array. csimpl. apply fold_merge_extends. Qed.

(** The merge of payloads that are objects is an object with the field
    names of all of them. *)
Lemma merge_keys (p : string) (ps : list string) :
  (forall q, q ∈ p :: ps -> is_object (json_loads q)) ->
  is_object (merge_json_array (p :: ps))
  ∧ forall k, k ∈ keys (merge_json_array (p :: ps))
      <-> exists q, q ∈ p :: ps ∧ k ∈ keys (json_loads q).
Proof.
  intros Hall. unfold Json.merge_json_array. csimpl.
  destruct (fold_merge_keys (json_loads <$> ps) (json_loads p)) as [Hobj Hkeys].
  { apply Hall. left. }
  { apply Forall_fmap, Forall_forall. intros q Hq. apply Hall. by right. }
  split; [done|]. intros k. rewrite Hkeys. split.
  - intros [Hk|(v & Hv & Hk)].
    + exists p. split; [left|done].
    + apply list_elem_of_fmap in Hv as (q & -> & Hq). exists q. split; [by right|done].
  - intros (q & Hq & Hk). apply elem_of_cons in Hq as [->|Hq]; [tauto|].
    right. exists (json_loads q). split; [|done]. apply list_elem_of_fmap. eauto.
Qed.

(** The value of a field of the merge extends the value that the field has
    in the first payload that has it. *)
Lemma merge_field (before : list string) (p : string) (after : list string)
    (k : string) (x : json) :
  (forall q, q ∈ before -> is_object (json_loads q) ∧ k ∉ keys (json_loads q)) ->
  field k (json_loads p) = Some x ->
  exists y, field k (merge_json_array (before ++ p :: after)) = Some y ∧ extends x y.
Proof.
  intros Hbefore Hk.
  destruct before as [|q before].
  { apply (extends_field (json_loads p)); [|done]. apply merge_extends_first. }
  unfold Json.merge_json_array. csimpl.
  rewrite fmap_app, fold_left_app. csimpl.
  set (acc := fold_left deep_merge (json_loads <$> before) (json_loads q)).
  apply (extends_field (deep_merge acc (json_loads p))); [apply fold_merge_extends|].
  destruct (fold_merge_keys (json_loads <$> before) (json_loads q)) as [Hobj Hkeys].
  { apply Hbefore. left. }
  { apply Forall_fmap, Forall_forall. intros q' Hq'. apply Hbefore. by right. }
  fold acc in Hobj, Hkeys.
  destruct (is_object_keys acc Hobj) as [facc Hacc]. rewrite Hacc in *.
  destruct (json_loads p) as [?|?|fp] eqn:Hp; try done.
  rewrite deep_merge_field. cbn [field] in Hk. rewrite Hk.
  assert (dict_get k facc = None) as ->; [|done].
  apply dict_get_None. intros Hin.
  apply (Hkeys k) in Hin as [Hin|(v & Hv & Hin)].
  - by apply (proj2 (Hbefore q (list_elem_of_here _ _))).
  - apply list_elem_of_fmap in Hv as (q' & -> & Hq').
    apply (proj2 (Hbefore q' (list_elem_of_further _ _ _ Hq'))). done.
Qed.

End merge_json_array.

End JsonFacts.
End JsonFacts.

(** ** The second pass is a scan of the round-robin interleave *)

Module AggregateFacts.
Import Aggregate.
Section AggregateFacts.

Context {Json : Type}.
Variable merge_json_array : list string -> Json.
Variable json_dumps : Json -> string.

Local Abbreviation merged_result := (merged_result merge_json_array json_dumps).
Local Abbreviation visit := (visit merge_json_array json_dumps).
Local Abbreviation round := (round merge_json_array json_dumps).
Local Abbreviation interleave_loop := (interleave_loop merge_json_array json_dumps).
Local Abbreviation _aggregate_results_within :=
  (_aggregate_results_within merge_json_array json_dumps).
Local Abbreviation _aggregate_results := (_aggregate_results merge_json_array json_dumps).
Local Abbreviation emitted := (emitted merge_json_array json_dumps).

Implicit Types (utd : gmap string url_data) (its : pydict (list row))
  (st : emit_state) (er : pydict (list row)).

Lemma step_iterators_cons_nil k its :
  step_iterators ((k, []) :: its) = step_iterators its.
Proof. unfold step_iterators. by rewrite filter_cons_False by (simpl; tauto). Qed.

Lemma step_iterators_cons_cons k r l its :
  step_iterators ((k, r :: l) :: its) = (k, l) :: step_iterators its.
Proof. unfold step_iterators. by rewrite filter_cons_True. Qed.

Lemma step_iterators_keys its : (step_iterators its).*1 ⊆ its.*1.
Proof.
  induction its as [|[k l] its IH]; [done|].
  destruct l as [|r l].
  - rewrite step_iterators_cons_nil. intros x Hx. right. by apply IH.
  - rewrite step_iterators_cons_cons. csimpl. intros x Hx.
    apply elem_of_cons in Hx as [->|Hx]; [left|right; by apply IH].
Qed.

Lemma step_iterators_NoDup its : NoDup its.*1 -> NoDup (step_iterators its).*1.
Proof.
  induction its as [|[k l] its IH]; [done|].
  intros Hnd. apply NoDup_cons in Hnd as [Hk Hnd].
  destruct l as [|r l].
  - rewrite step_iterators_cons_nil. by apply IH.
  - rewrite step_iterators_cons_cons. csimpl. apply NoDup_cons. split; [|by apply IH].
    intros Hin. apply Hk. by apply (step_iterators_keys its).
Qed.

Lemma step_iterators_rows its : (step_iterators its).*2 = advance its.*2.
Proof.
  induction its as [|[k l] its IH]; [done|].
  destruct l as [|r l].
  - rewrite step_iterators_cons_nil, fmap_cons. simpl. by rewrite advance_cons_nil.
  - rewrite step_iterators_cons_cons, !fmap_cons. simpl.
    by rewrite advance_cons_cons, <- IH.
Qed.

Lemma step_iterators_exhausted its :
  max_list (length <$> its.*2) = 0 -> step_iterators its = [].
Proof.
  induction its as [|[k l] its IH]; [done|].
  destruct l; csimpl; [|lia]. intros H.
  rewrite step_iterators_cons_nil. apply IH. lia.
Qed.

(** A round visits the head of every iterator, advances it, and lists the
    exhausted ones for removal. *)
Lemma round_spec utd its st :
  NoDup its.*1 ->
  exists its' removed,
    round utd its st = (its', removed, fold_left (visit utd) (omap head its.*2) st)
    ∧ removed ⊆ its.*1
    ∧ fold_left (fun d k => dict_del k d) removed its' = step_iterators its.
Proof.
  revert st. induction its as [|[k l] its IH]; intros st Hnd.
  - by exists [], [].
  - apply NoDup_cons in Hnd as [Hk Hnd].
    destruct l as [|r l].
    + destruct (IH st Hnd) as (its' & removed & Hr & Hsub & Hdel).
      exists ((k, []) :: its'), (k :: removed). simpl. rewrite Hr.
      split; [done|]. split.
      * intros x Hx. apply elem_of_cons in Hx as [->|Hx]; [left|right; by apply Hsub].
      * by rewrite String.eqb_refl, Hdel, step_iterators_cons_nil.
    + destruct (IH (visit utd st r) Hnd) as (its' & removed & Hr & Hsub & Hdel).
      exists ((k, l) :: its'), removed. simpl. rewrite Hr.
      split; [done|]. split.
      * intros x Hx. right. by apply Hsub.
      * rewrite dict_del_all_skip by (intros Hin; apply Hk; by apply Hsub).
        by rewrite Hdel, step_iterators_cons_cons.
Qed.

(** With enough rounds the loop ends because the iterators are exhausted,
    having visited the rows in round-robin order. *)
Lemma interleave_loop_spec fuel utd its st :
  NoDup its.*1 ->
  max_list (length <$> its.*2) < fuel ->
  interleave_loop fuel utd its st
  = Some (fold_left (visit utd) (round_robin its.*2) st).
Proof.
  revert its st. induction fuel as [|fuel IH]; intros its st Hnd Hfuel; [lia|].
  destruct its as [|e its]; [done|].
  destruct (round_spec utd (e :: its) st Hnd) as (its' & removed & Hr & _ & Hdel).
  cbn [interleave_loop]. rewrite Hr, Hdel.
  rewrite (round_robin_unfold (_ :: _).*2), fold_left_app, <- step_iterators_rows.
  destruct (step_iterators (e :: its)) as [|e' its''] eqn:Hstep.
  - by destruct fuel.
  - rewrite <- Hstep. apply IH.
    + by apply step_iterators_NoDup.
    + rewrite step_iterators_rows, max_length_advance.
      destruct (max_list (length <$> (e :: its).*2)) eqn:Hmax; [|simpl; lia].
      by rewrite (step_iterators_exhausted _ Hmax) in Hstep.
Qed.

(** On a dictionary, [iterators] holds the non-empty lists in order. *)
Lemma make_iterators_spec er :
  is_dict er -> make_iterators er = filter (fun e => e.2 ≠ []) er.
Proof.
  unfold make_iterators, is_dict.
  assert (forall acc, NoDup (acc ++ er).*1 ->
    fold_left (fun its entry =>
                 match entry.2 with
                 | [] => its
                 | _ :: _ => dict_set entry.1 entry.2 its
                 end) er acc
    = acc ++ filter (fun e => e.2 ≠ []) er) as H.
  { induction er as [|[k l] er IH]; intros acc Hnd; simpl.
    - by rewrite app_nil_r.
    - destruct l as [|r l].
      + rewrite filter_cons_False by (simpl; tauto). apply IH.
        rewrite fmap_app, fmap_cons in Hnd. rewrite fmap_app.
        apply NoDup_app in Hnd as (H1 & H2 & H3). apply NoDup_cons in H3 as [_ H3].
        apply NoDup_app. split_and!; [done| |done].
        intros x Hx Hx'. apply (H2 x Hx). by right.
      + rewrite filter_cons_True by done.
        rewrite fmap_app, fmap_cons in Hnd. simpl in Hnd.
        rewrite dict_set_fresh.
        * rewrite IH; [by rewrite <- app_assoc|].
          rewrite <- app_assoc. simpl. by rewrite fmap_app, fmap_cons.
        * apply NoDup_app in Hnd as (_ & H2 & _). intros Hin.
          apply (H2 k Hin). left. }
  intros Hnd. by rewrite (H [] Hnd).
Qed.

Lemma filter_keys_NoDup er : is_dict er -> NoDup (filter (fun e => e.2 ≠ []) er).*1.
Proof.
  unfold is_dict. induction er as [|[k l] er IH]; [done|].
  intros Hnd. apply NoDup_cons in Hnd as [Hk Hnd].
  destruct l as [|r l].
  - rewrite filter_cons_False by (simpl; tauto). by apply IH.
  - rewrite filter_cons_True by done. csimpl. apply NoDup_cons. split; [|by apply IH].
    intros Hin. apply Hk.
    apply list_elem_of_fmap in Hin as (e & -> & He).
    apply list_elem_of_filter in He as [_ He].
    apply list_elem_of_fmap. by exists e.
Qed.

Lemma filter_rows_live er :
  (filter (fun e => e.2 ≠ []) er).*2 = filter (fun l => l ≠ []) er.*2.
Proof.
  induction er as [|[k l] er IH]; [done|].
  destruct l as [|r l].
  - by rewrite fmap_cons, !filter_cons_False by (simpl; tauto).
  - rewrite fmap_cons. simpl. rewrite !filter_cons_True by done.
    f_equal. exact IH.
Qed.

Lemma max_length_live (ls : list (list row)) :
  max_list (length <$> filter (fun l => l ≠ []) ls) = max_list (length <$> ls).
Proof.
  induction ls as [|l ls IH]; [done|].
  destruct l as [|r l].
  - by rewrite filter_cons_False by tauto.
  - rewrite filter_cons_True by done. csimpl. by rewrite IH.
Qed.

(** The loop of the second pass terminates within [rounds_bound] rounds, and
    more rounds change nothing. *)
Lemma aggregate_within_spec fuel er :
  is_dict er ->
  rounds_bound er <= fuel ->
  _aggregate_results_within fuel er
  = Some (fold_left (visit (first_pass er)) (round_robin er.*2) (∅, [])).2.
Proof.
  intros Hd Hfuel. unfold _aggregate_results_within.
  rewrite (make_iterators_spec er Hd), interleave_loop_spec.
  - by rewrite filter_rows_live, round_robin_live.
  - by apply filter_keys_NoDup.
  - rewrite filter_rows_live, max_length_live. unfold rounds_bound in Hfuel. lia.
Qed.

Lemma aggregate_spec er :
  is_dict er ->
  _aggregate_results er
  = (fold_left (visit (first_pass er)) (round_robin er.*2) (∅, [])).2.
Proof.
  intros Hd. unfold Aggregate._aggregate_results.
  by rewrite (aggregate_within_spec _ er Hd (le_n _)).
Qed.

(** The loop of the second pass ends by itself: any number of rounds from
    [rounds_bound] on gives the result of [_aggregate_results]. *)
Lemma aggregate_terminates fuel er :
  is_dict er ->
  rounds_bound er <= fuel ->
  _aggregate_results_within fuel er = Some (_aggregate_results er).
Proof.
  intros Hd Hfuel. by rewrite (aggregate_within_spec fuel er Hd Hfuel), aggregate_spec.
Qed.

(** *** The scan *)

Lemma truthy_spec (s : string) : truthy s = true <-> s ≠ "".
Proof. by destruct s. Qed.

Lemma truthy_false (s : string) : truthy s = false <-> s = "".
Proof. by destruct s. Qed.

Lemma emitted_nil utd seen : emitted utd seen [] = [].
Proof. done. Qed.

Lemma emitted_cons_new utd seen u us :
  u ≠ "" -> u ∉ seen ->
  emitted utd seen (u :: us)
  = from_option (fun d => [merged_result d]) [] (utd !! u)
    ++ emitted utd ({[u]} ∪ seen) us.
Proof.
  intros Hne Hseen. unfold emitted. cbn [first_occurrences].
  rewrite filter_cons_True by done. cbn [omap list_omap].
  rewrite list_filter_filter.
  rewrite (list_filter_iff _ (fun u0 : string => u0 ≠ "" ∧ u0 ∉ {[u]} ∪ seen))
    by (intros x; rewrite elem_of_union, elem_of_singleton; tauto).
  by destruct (utd !! u).
Qed.

Lemma emitted_cons_old utd seen u us :
  u = "" ∨ u ∈ seen ->
  emitted utd seen (u :: us) = emitted utd seen us.
Proof.
  intros Hold. unfold emitted. cbn [first_occurrences].
  rewrite filter_cons_False by tauto.
  rewrite list_filter_filter. f_equal.
  apply list_filter_iff. intros x. split; [tauto|].
  intros [H1 H2]. split; [done|]. intros ->. tauto.
Qed.

Lemma scan_spec utd rows seen final :
  (fold_left (visit utd) rows (seen, final)).2
  = final ++ emitted utd seen (urls rows).
Proof.
  revert seen final. induction rows as [|r rows IH]; intros seen final.
  - by rewrite app_nil_r.
  - destruct r as [|u r]; [apply IH|].
    change (urls ((u :: r) :: rows)) with (u :: urls rows).
    cbn [fold_left Aggregate.visit fst snd].
    destruct (truthy u) eqn:Hu; cbn [andb].
    + apply truthy_spec in Hu. case_bool_decide as Hseen; cbn [negb].
      * rewrite IH. by rewrite emitted_cons_old by tauto.
      * rewrite emitted_cons_new by done.
        destruct (utd !! u); cbn [from_option]; rewrite IH; [|done].
        by rewrite <- app_assoc.
    + apply truthy_false in Hu. rewrite IH. by rewrite emitted_cons_old by tauto.
Qed.

(** The second pass emits, in the order of first encounter in the round-robin
    interleave, the merged record of every non-empty URL that has one. *)
Lemma aggregate_emits er :
  is_dict er ->
  _aggregate_results er
  = omap (fun u => merged_result <$> first_pass er !! u)
         (filter (fun u => u ≠ "") (first_occurrences (urls (round_robin er.*2)))).
Proof.
  intros Hd. rewrite (aggregate_spec er Hd), scan_spec. unfold emitted. simpl.
  f_equal. apply list_filter_iff. intros x. split; [tauto|].
  intros Hx. split; [done|]. apply not_elem_of_empty.
Qed.

(** *** The first pass *)

Lemma files_empty : files ∅ [].
Proof. intros u. by rewrite lookup_empty. Qed.

Lemma carries_short u r : ¬ well_formed r -> filter (carries u) [r] = [].
Proof. intros H. by rewrite filter_cons_False by (unfold carries; tauto). Qed.

Lemma carries_other u u' r : u ≠ u' -> filter (carries u) [u' :: r] = [].
Proof.
  intros H. rewrite filter_cons_False; [done|].
  unfold carries. simpl. intros [_ [= ->]]. done.
Qed.

Lemma carries_self u j n s t :
  filter (carries u) [u :: j :: n :: s :: t] = [u :: j :: n :: s :: t].
Proof.
  rewrite filter_cons_True; [done|].
  unfold carries, well_formed. simpl. split; [lia|done].
Qed.

Lemma payloads_app rows rows' : payloads (rows ++ rows') = payloads rows ++ payloads rows'.
Proof. unfold payloads. by rewrite fmap_app, filter_app. Qed.

Lemma payloads_single u j n s t :
  payloads [u :: j :: n :: s :: t] = if truthy j then [j] else [].
Proof.
  unfold payloads. simpl. destruct (truthy j) eqn:Hj.
  - apply truthy_spec in Hj. by rewrite filter_cons_True.
  - apply truthy_false in Hj. by rewrite filter_cons_False by tauto.
Qed.

Lemma files_unchanged utd seen r :
  files utd seen -> (forall u, filter (carries u) [r] = []) -> files utd (seen ++ [r]).
Proof.
  intros H Hr u. specialize (H u). rewrite filter_app, Hr, app_nil_r. exact H.
Qed.

Lemma files_record endpoint_name utd seen r :
  files utd seen -> files (record_result endpoint_name utd r) (seen ++ [r]).
Proof.
  intros H.
  destruct r as [|url [|j [|n [|s t]]]];
    try (apply files_unchanged; [done|];
         intros u; apply carries_short; unfold well_formed; simpl; lia).
  cbn [record_result]. intros u.
  pose proof (H url) as Hurl. pose proof (H u) as Hu.
  rewrite filter_app.
  destruct (decide (u = url)) as [->|Hne].
  - rewrite carries_self.
    destruct (utd !! url) as [d|] eqn:Hd.
    + destruct Hurl as (Hd1 & Hd2 & r0 & Hd3 & Hd4 & Hd5).
      assert (head (filter (carries url) seen ++ [url :: j :: n :: s :: t]) = Some r0) as Hh.
      { by destruct (filter (carries url) seen). }
      destruct (truthy j) eqn:Hj.
      * rewrite lookup_insert_eq. cbn.
        rewrite payloads_app, (payloads_single url j n s t), Hj.
        split; [done|]. split; [by rewrite Hd2|]. by exists r0.
      * rewrite Hd. rewrite payloads_app, (payloads_single url j n s t), Hj, app_nil_r.
        split; [done|]. split; [done|]. by exists r0.
    + rewrite lookup_insert_eq, Hurl, app_nil_l, (payloads_single url j n s t). cbn.
      split; [done|]. split; [done|]. by eexists.
  - rewrite (carries_other u url) by done. rewrite app_nil_r.
    destruct (utd !! url) as [d|] eqn:Hd.
    + destruct (truthy j); [by rewrite lookup_insert_ne|done].
    + by rewrite lookup_insert_ne.
Qed.

Lemma files_record_endpoint utd seen entry :
  files utd seen -> files (record_endpoint utd entry) (seen ++ entry.2).
Proof.
  unfold record_endpoint. generalize (entry.1) as ep. generalize (entry.2) as rows.
  intros rows ep. revert utd seen.
  induction rows as [|r rows IH]; intros utd seen H; simpl.
  - by rewrite app_nil_r.
  - rewrite (cons_middle r), app_assoc. apply IH. by apply files_record.
Qed.

Lemma first_pass_files er : files (first_pass er) (concat er.*2).
Proof.
  unfold first_pass.
  assert (forall utd seen, files utd seen ->
            files (fold_left record_endpoint er utd) (seen ++ concat er.*2)) as H.
  { induction er as [|e er IH]; intros utd seen H; simpl.
    - by rewrite app_nil_r.
    - rewrite app_assoc. apply IH. by apply files_record_endpoint. }
  apply (H ∅ []), files_empty.
Qed.

(** A URL has a merged record exactly when a row of at least four fields
    carries it. *)
Lemma first_pass_None er u : first_pass er !! u = None <-> rows_for u er = [].
Proof.
  pose proof (first_pass_files er u) as H. unfold rows_for.
  destruct (first_pass er !! u); [|done].
  destruct H as (_ & _ & r0 & H & _). split; [done|]. intros Hnil.
  by rewrite Hnil in H.
Qed.

(** The merged record of a URL: its fields come from the first row that
    carries it, its payload list from all of them. *)
Lemma first_pass_Some er u d :
  first_pass er !! u = Some d ->
  ud_url d = u
  ∧ ud_json_list d = payloads (rows_for u er)
  ∧ exists r0, head (rows_for u er) = Some r0
               ∧ ud_name d = name_of r0 ∧ ud_site d = site_of r0.
Proof.
  intros Hd. pose proof (first_pass_files er u) as H. by rewrite Hd in H.
Qed.

(** *** What the output holds *)

Lemma urls_elem (rows : list row) u :
  u ∈ urls rows <-> exists r, r ∈ rows ∧ head r = Some u.
Proof. apply list_elem_of_omap. Qed.

Lemma aggregate_elem er r :
  is_dict er ->
  r ∈ _aggregate_results er
  <-> exists u d, u ≠ "" ∧ (exists r0, r0 ∈ concat er.*2 ∧ head r0 = Some u)
                  ∧ first_pass er !! u = Some d ∧ r = merged_result d.
Proof.
  intros Hd. rewrite (aggregate_emits er Hd), list_elem_of_omap. split.
  - intros (u & Hu & Hr). apply list_elem_of_filter in Hu as [Hne Hu].
    apply first_occurrences_elem, urls_elem in Hu as (r0 & Hr0 & Hh).
    rewrite round_robin_Permutation in Hr0.
    destruct (first_pass er !! u) as [d|] eqn:Hfp; [|done].
    injection Hr as <-. exists u, d. split_and!; eauto.
  - intros (u & d & Hne & (r0 & Hr0 & Hh) & Hfp & ->). exists u. split.
    + apply list_elem_of_filter. split; [done|].
      apply first_occurrences_elem, urls_elem. exists r0.
      by rewrite round_robin_Permutation.
    + by rewrite Hfp.
Qed.

(** No URL is emitted twice. *)
Lemma aggregate_urls_NoDup er : is_dict er -> NoDup (urls (_aggregate_results er)).
Proof.
  intros Hd. rewrite (aggregate_emits er Hd).
  assert (forall us, NoDup us ->
            NoDup (urls (omap (fun u => merged_result <$> first_pass er !! u) us))) as H.
  { induction us as [|u us IH]; intros Hnd; [constructor|].
    apply NoDup_cons in Hnd as [Hu Hnd]. csimpl.
    destruct (first_pass er !! u) as [d|] eqn:Hfp; csimpl; [|by apply IH].
    apply NoDup_cons. split; [|by apply IH].
    intros Hin. apply urls_elem in Hin as (r & Hr & Hh).
    apply list_elem_of_omap in Hr as (u' & Hu' & Hr).
    destruct (first_pass er !! u') as [d'|] eqn:Hfp'; [|done].
    injection Hr as <-. simpl in Hh. injection Hh as Hh.
    apply first_pass_Some in Hfp as [Hfp _]. apply first_pass_Some in Hfp' as [Hfp' _].
    apply Hu. by rewrite <- Hfp, <- Hh, Hfp'. }
  apply H, NoDup_filter, first_occurrences_NoDup.
Qed.

(** *** Inputs without duplicates or malformed rows *)

Lemma filter_carries_none (rows : list row) u :
  u ∉ urls rows -> filter (carries u) rows = [].
Proof.
  intros Hu. induction rows as [|x rows IH]; [done|].
  rewrite filter_cons_False.
  - apply IH. intros Hin. apply Hu. apply urls_elem in Hin as (r & Hr & Hh).
    apply urls_elem. exists r. split; [by right|done].
  - intros [_ Hh]. apply Hu, urls_elem. exists x. split; [left|done].
Qed.

Lemma filter_carries_unique (rows : list row) u r :
  NoDup (urls rows) -> r ∈ rows -> carries u r -> filter (carries u) rows = [r].
Proof.
  intros Hnd Hr Hc. induction rows as [|x rows IH]; [by apply elem_of_nil in Hr|].
  destruct (decide (carries u x)) as [Hx|Hx].
  - rewrite filter_cons_True by done.
    assert (urls (x :: rows) = u :: urls rows) as Hurls.
    { unfold urls. csimpl. by rewrite (proj2 Hx). }
    rewrite Hurls in Hnd. apply NoDup_cons in Hnd as [Hu Hnd].
    rewrite (filter_carries_none rows u Hu).
    apply elem_of_cons in Hr as [->|Hr]; [done|].
    exfalso. apply Hu, urls_elem. exists r. by destruct Hc.
  - rewrite filter_cons_False by done.
    apply elem_of_cons in Hr as [->|Hr]; [done|]. apply IH; [|done].
    unfold urls in *. csimpl in Hnd. destruct (head x); [|done].
    by apply NoDup_cons in Hnd as [_ Hnd].
Qed.

Lemma merged_result_unique er u r :
  rows_for u er = [r] -> carries u r ->
  merged_result <$> first_pass er !! u = Some (normalize r).
Proof.
  intros Hrows [Hwf Hh].
  destruct (first_pass er !! u) as [d|] eqn:Hfp.
  - apply first_pass_Some in Hfp as (Hurl & Hjson & r0 & Hr0 & Hname & Hsite).
    rewrite Hrows in Hjson, Hr0. injection Hr0 as <-.
    destruct r as [|url [|j [|n [|s t]]]]; try (unfold well_formed in Hwf; simpl in Hwf; lia).
    injection Hh as ->. simpl. f_equal.
    unfold Aggregate.merged_result, normalize.
    rewrite Hurl, Hjson, Hname, Hsite, (payloads_single u j n s t).
    unfold url_of, payload_of, name_of, site_of. simpl.
    by destruct (truthy j).
  - apply first_pass_None in Hfp. by rewrite Hfp in Hrows.
Qed.

(** When every row has at least four fields and a URL that is not empty, and
    no URL occurs twice, the output is the round-robin interleave of the
    rows, each cut to its four fields. *)
Lemma aggregate_clean er :
  is_dict er ->
  Forall (fun r => well_formed r ∧ head r ≠ Some "") (concat er.*2) ->
  NoDup (urls (concat er.*2)) ->
  _aggregate_results er = normalize <$> round_robin er.*2.
Proof.
  intros Hd Hall Hnd. rewrite (aggregate_emits er Hd).
  pose proof (round_robin_Permutation er.*2) as Hperm.
  assert (NoDup (urls (round_robin er.*2))) as Hnd'.
  { unfold urls. by rewrite Hperm. }
  rewrite (first_occurrences_id _ Hnd').
  rewrite filter_Forall_id.
  2:{ apply Forall_forall. intros u Hu. apply urls_elem in Hu as (r & Hr & Hh).
      rewrite Hperm in Hr. rewrite Forall_forall in Hall.
      destruct (Hall r Hr) as [_ Hne]. intros ->. by apply Hne. }
  assert (forall rows, (forall r, r ∈ rows -> r ∈ concat er.*2) ->
            omap (fun u => merged_result <$> first_pass er !! u) (urls rows)
            = normalize <$> rows) as H.
  { induction rows as [|r rows IH]; intros Hsub; [done|].
    assert (r ∈ concat er.*2) as Hr by (apply Hsub; left).
    rewrite Forall_forall in Hall. destruct (Hall r Hr) as [Hwf _].
    destruct r as [|u r']; [unfold well_formed in Hwf; simpl in Hwf; lia|].
    change (urls ((u :: r') :: rows)) with (u :: urls rows). csimpl.
    rewrite (merged_result_unique er u (u :: r')).
    - rewrite IH; [done|]. intros r Hr0. apply Hsub. by right.
    - by apply filter_carries_unique.
    - done. }
  apply H. intros r Hr. by rewrite <- Hperm.
Qed.


Lemma first_pass_is_Some er u :
  is_Some (first_pass er !! u) <-> exists r, r ∈ concat er.*2 ∧ carries u r.
Proof.
  rewrite <- not_eq_None_Some, first_pass_None. unfold rows_for. split.
  - intros Hne. destruct (filter (carries u) (concat er.*2)) as [|r l] eqn:Hf; [done|].
    assert (r ∈ filter (carries u) (concat er.*2)) as Hin by (rewrite Hf; left).
    apply list_elem_of_filter in Hin as [? ?]. eauto.
  - intros (r & Hr & Hc) Hnil.
    assert (r ∈ filter (carries u) (concat er.*2)) as Hin
      by (by apply list_elem_of_filter).
    rewrite Hnil in Hin. by apply elem_of_nil in Hin.
Qed.

Lemma is_dict_two {V} (A B : string) (x y : V) : A ≠ B -> is_dict [(A, x); (B, y)].
Proof.
  intros Hne. unfold is_dict. simpl. apply NoDup_cons. split.
  - by intros ->%list_elem_of_singleton.
  - apply NoDup_singleton.
Qed.

Lemma is_dict_one {V} (A : string) (x : V) : is_dict [(A, x)].
Proof. unfold is_dict. simpl. apply NoDup_singleton. Qed.

(** The interleave of a list of three rows with a list of two. *)
Lemma interleave_3_2 (A B : string) (r1 r2 r3 r4 r5 : row) (us : list string) :
  A ≠ B -> NoDup us -> "" ∉ us ->
  Forall2 carries us [r1; r2; r3; r4; r5] ->
  _aggregate_results [(A, [r1; r2; r3]); (B, [r4; r5])]
  = normalize <$> [r1; r4; r2; r5; r3].
Proof.
  intros HAB Hnd Hne Hc.
  assert (urls [r1; r2; r3; r4; r5] = us) as Hurls.
  { clear -Hc. unfold urls. induction Hc as [|u r us rs [_ Hh] _ IH]; [done|].
    csimpl. by rewrite Hh, IH. }
  rewrite aggregate_clean; [done|by apply is_dict_two|..].
  - change (concat _) with [r1; r2; r3; r4; r5]. apply Forall_forall. intros r Hr.
    apply (list_elem_of_lookup_1 _ r) in Hr as [i Hi].
    destruct (Forall2_lookup_r _ _ _ _ _ Hc Hi) as (u & Hu & Hwf & Hh).
    split; [done|]. rewrite Hh. intros [= ->]. apply Hne.
    by apply list_elem_of_lookup_2 in Hu.
  - change (concat _) with [r1; r2; r3; r4; r5]. by rewrite Hurls.
Qed.

(** C1, as amended. On every dictionary of per-endpoint result lists the
    output is ordered by the round-robin interleave of the lists (one row of
    every list per round, exhausted lists skipped): it holds the merged record
    of every URL that is not empty and has one, at the place of the first
    encounter of the URL in the interleave, and no URL twice. A URL has a
    merged record exactly when a row of at least four fields carries it. In
    particular, when endpoint [A] returns rows with the URLs [u1, u2, u3] and
    endpoint [B] rows with the URLs [u4, u5], the rows having at least four
    fields and the URLs being distinct and not empty, the output has the URLs
    [u1, u4, u2, u5, u3]. *)
Theorem C1_round_robin_first_encounter :
  (forall er,
     is_dict er ->
     _aggregate_results er
     = omap (fun u => merged_result <$> first_pass er !! u)
            (filter (fun u => u ≠ "") (first_occurrences (urls (round_robin er.*2))))
     ∧ (forall u, is_Some (first_pass er !! u)
                  <-> exists r, r ∈ concat er.*2 ∧ carries u r)
     ∧ NoDup (urls (_aggregate_results er)))
  ∧ (forall (A B u1 u2 u3 u4 u5 : string) (r1 r2 r3 r4 r5 : row),
       A ≠ B ->
       NoDup [u1; u2; u3; u4; u5] ->
       "" ∉ [u1; u2; u3; u4; u5] ->
       Forall2 carries [u1; u2; u3; u4; u5] [r1; r2; r3; r4; r5] ->
       urls (_aggregate_results [(A, [r1; r2; r3]); (B, [r4; r5])])
       = [u1; u4; u2; u5; u3]).
Proof.
  split.
  - intros er Hd. split_and!.
    + by apply aggregate_emits.
    + apply first_pass_is_Some.
    + by apply aggregate_urls_NoDup.
  - intros A B u1 u2 u3 u4 u5 r1 r2 r3 r4 r5 HAB Hnd Hne Hc.
    rewrite (interleave_3_2 A B r1 r2 r3 r4 r5 _ HAB Hnd Hne Hc).
    repeat match goal with
           | H : Forall2 _ _ _ |- _ => inversion H; clear H; subst
           end.
    repeat match goal with
           | H : carries _ ?r |- _ =>
               destruct H as [_ ?]; destruct r; simplify_eq/=
           end.
    done.
Qed.

(** The payload of an output row follows from the non-empty payloads filed
    under its URL. *)
Lemma aggregate_payload er r :
  is_dict er -> r ∈ _aggregate_results er ->
  exists u, u ≠ "" ∧ head r = Some u
            ∧ r !! 1 = Some (merged_json_str merge_json_array json_dumps
                               (payloads (rows_for u er))).
Proof.
  intros Hd Hr. apply (aggregate_elem er r Hd) in Hr as (u & d & Hne & _ & Hfp & ->).
  apply first_pass_Some in Hfp as (Hurl & Hjson & _).
  exists u. simpl. by rewrite Hurl, Hjson.
Qed.

(** Two endpoints that each return one row for the same URL. *)
Lemma aggregate_two_sources (A B u p1 n1 s1 p2 n2 s2 : string) :
  A ≠ B -> u ≠ "" ->
  _aggregate_results [(A, [[u; p1; n1; s1]]); (B, [[u; p2; n2; s2]])]
  = [[u; merged_json_str merge_json_array json_dumps
           (payloads [[u; p1; n1; s1]; [u; p2; n2; s2]]); n1; s1]].
Proof.
  intros HAB Hne. rewrite aggregate_emits by by apply is_dict_two.
  change (urls (round_robin _)) with [u; u]. cbn [first_occurrences].
  rewrite (filter_cons_False _ u []) by tauto.
  rewrite filter_nil, filter_cons_True by done. rewrite filter_nil. csimpl.
  destruct (first_pass _ !! u) as [d|] eqn:Hfp.
  - apply first_pass_Some in Hfp as (Hurl & Hjson & r0 & Hr0 & Hname & Hsite).
    unfold rows_for in *. csimpl in *.
    rewrite (filter_cons_True (carries u)) in Hjson, Hr0
      by (unfold carries, well_formed; simpl; split; [lia|done]).
    rewrite (filter_cons_True (carries u)) in Hjson
      by (unfold carries, well_formed; simpl; split; [lia|done]).
    injection Hr0 as <-. unfold Aggregate.merged_result.
    by rewrite Hurl, Hjson, Hname, Hsite.
  - apply first_pass_None in Hfp. unfold rows_for in Hfp. csimpl in Hfp.
    rewrite (filter_cons_True (carries u)) in Hfp
      by (unfold carries, well_formed; simpl; split; [lia|done]).
    done.
Qed.

(** C8, as amended. When the rows of a single endpoint have exactly four
    fields, a URL and a payload that are not empty, and pairwise distinct
    URLs, the aggregation of that one list is the list itself. *)
Theorem C8_single_endpoint_identity (name : string) (rows : list row) :
  Forall (fun r => length r = 4 ∧ head r ≠ Some "" ∧ r !! 1 ≠ Some "") rows ->
  NoDup (urls rows) ->
  _aggregate_results [(name, rows)] = rows.
Proof.
  intros Hall Hnd. rewrite aggregate_clean.
  - simpl. rewrite round_robin_single.
    induction Hall as [|r rows (Hlen & _ & Hp) _ IH]; [done|].
    csimpl. rewrite IH.
    + f_equal. destruct r as [|u [|j [|n [|s [|x t]]]]]; simplify_eq/=.
      unfold normalize, url_of, payload_of, name_of, site_of. simpl.
      destruct j; [by destruct Hp|done].
    + unfold urls in *. csimpl in Hnd. destruct (head r); [|done].
      by apply NoDup_cons in Hnd as [_ Hnd].
  - apply is_dict_one.
  - simpl. rewrite app_nil_r. eapply Forall_impl; [exact Hall|].
    intros r (Hlen & Hu & _). split; [|done]. unfold well_formed. lia.
  - simpl. by rewrite app_nil_r.
Qed.

(** C10. Every row of the output has exactly four fields, and its URL, name
    and site are those of an input row of at least four fields; a row of
    fewer than four fields is not recorded by the first pass; and a URL that
    only such rows carry is in no row of the output. *)
Theorem C10_output_rows_have_four_fields er :
  is_dict er ->
  (forall r, r ∈ _aggregate_results er ->
     length r = 4
     ∧ exists r0, r0 ∈ concat er.*2 ∧ well_formed r0
                  ∧ head r = head r0 ∧ r !! 2 = r0 !! 2 ∧ r !! 3 = r0 !! 3)
  ∧ (forall endpoint_name utd r,
       ¬ well_formed r -> record_result endpoint_name utd r = utd)
  ∧ (forall u,
       (forall r, r ∈ concat er.*2 -> head r = Some u -> ¬ well_formed r) ->
       u ∉ urls (_aggregate_results er)).
Proof.
  intros Hd. split_and!.
  - intros r Hr. apply (aggregate_elem er r Hd) in Hr as (u & d & _ & _ & Hfp & ->).
    split; [done|].
    apply first_pass_Some in Hfp as (Hurl & _ & r0 & Hr0 & Hname & Hsite).
    assert (r0 ∈ rows_for u er) as Hin.
    { destruct (rows_for u er); simplify_eq/=. left. }
    apply list_elem_of_filter in Hin as [[Hwf Hh] Hin].
    exists r0. split_and!; [done..| | |].
    + simpl. by rewrite Hurl, Hh.
    + simpl. rewrite Hname.
      destruct r0 as [|? [|? [|? ?]]]; try (unfold well_formed in Hwf; simpl in Hwf; lia).
      done.
    + simpl. rewrite Hsite.
      destruct r0 as [|? [|? [|? [|? ?]]]];
        try (unfold well_formed in Hwf; simpl in Hwf; lia).
      done.
  - intros endpoint_name utd r Hwf.
    destruct r as [|? [|? [|? [|? ?]]]]; try done.
    exfalso. apply Hwf. unfold well_formed. simpl. lia.
  - intros u Hshort Hin. apply urls_elem in Hin as (r & Hr & Hh).
    apply (aggregate_elem er r Hd) in Hr as (u' & d & _ & _ & Hfp & ->).
    simpl in Hh. injection Hh as Hh.
    pose proof Hfp as Hfp'. apply first_pass_Some in Hfp' as (Hurl & _).
    assert (is_Some (first_pass er !! u')) as Hs by eauto.
    apply first_pass_is_Some in Hs as (r0 & Hr0 & Hwf & Hh0).
    apply (Hshort r0 Hr0); [|done]. by rewrite Hh0, <- Hurl, Hh.
Qed.

End AggregateFacts.

Lemma is_dict_two_endpoints : is_dict Samples.two_endpoints.
Proof. apply (bool_decide_unpack _). vm_compute. reflexivity. Defined.

(** C1 at the sample of two endpoints. *)
Lemma C1_witness :
  is_dict Samples.two_endpoints
  ∧ urls (Aggregate._aggregate_results JsonSamples.sample_merge JsonSamples.sample_dumps
            Samples.two_endpoints)
    = ["u1"; "u4"; "u2"; "u5"; "u3"].
Proof.
  split; [exact is_dict_two_endpoints|].
  rewrite (proj1 (proj1 (C1_round_robin_first_encounter JsonSamples.sample_merge
                   JsonSamples.sample_dumps) Samples.two_endpoints is_dict_two_endpoints)).
  vm_compute. reflexivity.
Defined.

(** C1 as stated fails on a row whose URL is the empty string: the output is
    empty, so it is not true that every URL with a merged record is emitted
    where the interleave first meets it. *)
Lemma C1_counterexample :
  Aggregate._aggregate_results JsonSamples.sample_merge JsonSamples.sample_dumps
    Samples.empty_url = []
  ∧ ¬ (forall u,
         is_Some (Aggregate.first_pass Samples.empty_url !! u) ->
         u ∈ urls (round_robin Samples.empty_url.*2) ->
         u ∈ urls (Aggregate._aggregate_results JsonSamples.sample_merge
                     JsonSamples.sample_dumps Samples.empty_url)).
Proof.
  assert (Aggregate._aggregate_results JsonSamples.sample_merge JsonSamples.sample_dumps
            Samples.empty_url = []) as Hout by (vm_compute; reflexivity).
  split; [exact Hout|]. intros H. specialize (H "").
  rewrite Hout in H. apply (elem_of_nil (A:=string) ""), H.
  - vm_compute. eauto.
  - vm_compute. left.
Qed.

(** C4, as amended. The payload of an output row is decided by the non-empty
    payloads of the rows of at least four fields that carry its URL, over all
    endpoints in the order of the first pass: a single one is kept unchanged,
    none gives the empty object, and two or more are merged by
    [merge_json_array] and serialized again.

    The merge is the deep merge of the specification, for any scalars and any
    reading of the payloads. It has union semantics: the earlier value is
    extended at every depth and never overwritten; a merged object has the
    fields of both, a field of both being merged in turn and a field of one
    being taken as it is; a merged array has the items of the earlier one,
    then the items of the later one that the earlier one lacks; a scalar is
    extended by itself only. Over a list of payloads: the first payload is
    extended by the merge; the merge of payloads that are objects is an
    object whose field names are exactly those of the payloads; and the
    value of a field extends the value that the field has in the first
    payload that has it.

    In particular two endpoints that return the same non-empty URL with the
    payloads [{"a":1}] and [{"b":2}] give a single row whose payload is the
    serialized object with both fields. *)
Theorem C4_payload_merge_policy :
  (forall (J : Type) (merge_json_array : list string -> J) (json_dumps : J -> string)
          (er : pydict (list row)) (r : row),
     is_dict er ->
     r ∈ Aggregate._aggregate_results merge_json_array json_dumps er ->
     exists u, head r = Some u
               ∧ r !! 1 = Some match payloads (rows_for u er) with
                               | [] => "{}"
                               | [p] => p
                               | ps => json_dumps (merge_json_array ps)
                               end)
  ∧ (forall (scalar : Type) (Heq : EqDecision scalar)
            (json_loads : string -> Json.json scalar),
       (forall a b : Json.json scalar, Json.extends a (Json.deep_merge a b))
       ∧ (forall (fa fb : pydict (Json.json scalar)) (k : string),
            Json.field k (Json.deep_merge (Json.JObj fa) (Json.JObj fb))
            = match dict_get k fa, dict_get k fb with
              | Some x, Some y => Some (Json.deep_merge x y)
              | Some x, None => Some x
              | None, y => y
              end)
       ∧ (forall xa xb : list (Json.json scalar),
            exists new,
              Json.deep_merge (Json.JArr xa) (Json.JArr xb) = Json.JArr (xa ++ new)
              ∧ new `sublist_of` xb
              ∧ forall z, z ∈ new <-> z ∈ xb ∧ z ∉ xa)
       ∧ (forall (x : scalar) (v : Json.json scalar),
            Json.extends (Json.JScalar x) v -> v = Json.JScalar x)
       ∧ (forall (p : string) (ps : list string),
            Json.extends (json_loads p) (Json.merge_json_array json_loads (p :: ps)))
       ∧ (forall (p : string) (ps : list string),
            (forall q, q ∈ p :: ps -> Json.is_object (json_loads q)) ->
            Json.is_object (Json.merge_json_array json_loads (p :: ps))
            ∧ forall k, k ∈ Json.keys (Json.merge_json_array json_loads (p :: ps))
                <-> exists q, q ∈ p :: ps ∧ k ∈ Json.keys (json_loads q))
       ∧ (forall (before : list string) (p : string) (after : list string)
                 (k : string) (x : Json.json scalar),
            (forall q, q ∈ before ->
               Json.is_object (json_loads q) ∧ k ∉ Json.keys (json_loads q)) ->
            Json.field k (json_loads p) = Some x ->
            exists y,
              Json.field k (Json.merge_json_array json_loads (before ++ p :: after))
              = Some y
              ∧ Json.extends x y))
  ∧ (forall (scalar : Type) (Heq : EqDecision scalar)
            (json_loads : string -> Json.json scalar)
            (json_dumps : Json.json scalar -> string) (one two : scalar)
            (A B u n1 s1 n2 s2 : string),
       A ≠ B -> u ≠ "" ->
       json_loads Samples.payload_a = Json.JObj [("a", Json.JScalar one)] ->
       json_loads Samples.payload_b = Json.JObj [("b", Json.JScalar two)] ->
       Aggregate._aggregate_results (Json.merge_json_array json_loads) json_dumps
         [(A, [[u; Samples.payload_a; n1; s1]]); (B, [[u; Samples.payload_b; n2; s2]])]
       = [[u; json_dumps (Json.JObj [("a", Json.JScalar one); ("b", Json.JScalar two)]);
           n1; s1]]).
Proof.
  split_and!.
  - intros J merge_json_array json_dumps er r Hd Hr.
    destruct (aggregate_payload merge_json_array json_dumps er r Hd Hr)
      as (u & _ & Hh & Hp).
    exists u. split; [done|]. rewrite Hp. f_equal.
    unfold Aggregate.merged_json_str.
    by destruct (payloads (rows_for u er)) as [|p [|q ps]].
  - intros scalar Heq json_loads. split_and!.
    + apply JsonFacts.deep_merge_extends.
    + apply JsonFacts.deep_merge_field.
    + apply JsonFacts.deep_merge_arr.
    + apply JsonFacts.extends_scalar_inv.
    + apply JsonFacts.merge_extends_first.
    + apply JsonFacts.merge_keys.
    + apply JsonFacts.merge_field.
  - intros scalar Heq json_loads json_dumps one two A B u n1 s1 n2 s2 HAB Hu Ha Hb.
    rewrite (aggregate_two_sources (Json.merge_json_array json_loads) json_dumps
               A B u _ n1 s1 _ n2 s2 HAB Hu).
    change (payloads _) with [Samples.payload_a; Samples.payload_b].
    unfold Aggregate.merged_json_str, Json.merge_json_array. csimpl.
    rewrite Ha, Hb. reflexivity.
Qed.

(** C4 at the samples: the payloads of the sample of two endpoints; the
    payloads [{"a":1}] and [{"b":2}] of one URL, merged to an object with
    both fields; and the payloads [{"a":1}] and [{"a":9}], where the earlier
    value of the field stands. *)
Lemma C4_witness :
  is_dict Samples.two_endpoints
  ∧ (forall r,
       r ∈ Aggregate._aggregate_results JsonSamples.sample_merge JsonSamples.sample_dumps
             Samples.two_endpoints ->
       exists u, head r = Some u
                 ∧ r !! 1 = Some match payloads (rows_for u Samples.two_endpoints) with
                                 | [] => "{}"
                                 | [p] => p
                                 | ps => JsonSamples.sample_dumps (JsonSamples.sample_merge ps)
                                 end)
  ∧ Aggregate._aggregate_results JsonSamples.sample_merge JsonSamples.sample_dumps
      [("A", [["u"; Samples.payload_a; "n1"; "s"]]);
       ("B", [["u"; Samples.payload_b; "n2"; "s"]])]
    = [["u"; JsonSamples.sample_dumps
               (Json.JObj [("a", Json.JScalar "1"); ("b", Json.JScalar "2")]);
        "n1"; "s"]]
  ∧ Json.extends (JsonSamples.sample_loads Samples.payload_a)
      (JsonSamples.sample_merge [Samples.payload_a; JsonSamples.payload_a9]).
Proof.
  destruct C4_payload_merge_policy as (Hpolicy & Hmerge & Hexample).
  split; [exact is_dict_two_endpoints|]. split_and!.
  - intros r Hr. exact (Hpolicy _ _ _ _ r is_dict_two_endpoints Hr).
  - apply (Hexample string _ JsonSamples.sample_loads JsonSamples.sample_dumps
             "1" "2" "A" "B" "u" "n1" "s" "n2" "s"); done.
  - destruct (Hmerge string _ JsonSamples.sample_loads) as (_ & _ & _ & _ & Hfirst & _).
    apply Hfirst.
Defined.

(** C4 as stated fails on a URL that one endpoint contributes once, with the
    empty string as payload: the payload of the output row is the empty
    object, which is the payload of no input row. The merge function is not
    called on this input. *)
Lemma C4_counterexample :
  Aggregate._aggregate_results JsonSamples.sample_merge JsonSamples.sample_dumps
    Samples.empty_payload = [["u"; "{}"; "n"; "s"]]
  ∧ ¬ (forall r,
         r ∈ Aggregate._aggregate_results JsonSamples.sample_merge JsonSamples.sample_dumps
               Samples.empty_payload ->
         exists r0, r0 ∈ concat Samples.empty_payload.*2
                    ∧ head r = head r0 ∧ r !! 1 = r0 !! 1).
Proof.
  assert (Aggregate._aggregate_results JsonSamples.sample_merge JsonSamples.sample_dumps
            Samples.empty_payload = [["u"; "{}"; "n"; "s"]]) as Hout
    by (vm_compute; reflexivity).
  split; [exact Hout|]. intros H.
  destruct (H ["u"; "{}"; "n"; "s"]) as (r0 & Hr0 & _ & Hp).
  - rewrite Hout. left.
  - change (r0 ∈ [["u"; ""; "n"; "s"]]) in Hr0.
    apply list_elem_of_singleton in Hr0 as ->. discriminate Hp.
Qed.

(** C8 at the sample of clean rows. *)
Lemma C8_witness :
  Forall (fun r => length r = 4 ∧ head r ≠ Some "" ∧ r !! 1 ≠ Some "") Samples.clean_rows
  ∧ NoDup (urls Samples.clean_rows)
  ∧ Aggregate._aggregate_results JsonSamples.sample_merge JsonSamples.sample_dumps
      [("A", Samples.clean_rows)] = Samples.clean_rows.
Proof.
  assert (Forall (fun r => length r = 4 ∧ head r ≠ Some "" ∧ r !! 1 ≠ Some "")
                 Samples.clean_rows) as Hall
    by (apply (bool_decide_unpack _); vm_compute; reflexivity).
  assert (NoDup (urls Samples.clean_rows)) as Hnd
    by (apply (bool_decide_unpack _); vm_compute; reflexivity).
  split_and!; [exact Hall|exact Hnd|].
  exact (C8_single_endpoint_identity JsonSamples.sample_merge JsonSamples.sample_dumps
           "A" Samples.clean_rows Hall Hnd).
Defined.

(** C8 as stated fails on a list that holds the same row twice: the output
    has one row, with the merged payload, and is not the list. *)
Lemma C8_counterexample :
  Aggregate._aggregate_results JsonSamples.sample_merge JsonSamples.sample_dumps
    [("A", Samples.repeated_row)]
  = [["u"; JsonSamples.sample_dumps (Json.JObj [("a", Json.JScalar "1")]); "n"; "s"]]
  ∧ ¬ (Aggregate._aggregate_results JsonSamples.sample_merge JsonSamples.sample_dumps
         [("A", Samples.repeated_row)] = Samples.repeated_row).
Proof.
  assert (Aggregate._aggregate_results JsonSamples.sample_merge JsonSamples.sample_dumps
            [("A", Samples.repeated_row)]
          = [["u"; JsonSamples.sample_dumps (Json.JObj [("a", Json.JScalar "1")]); "n"; "s"]])
    as Hout by (vm_compute; reflexivity).
  split; [exact Hout|]. rewrite Hout. discriminate.
Qed.

(** C10 at the sample with a short row. *)
Lemma C10_witness :
  is_dict Samples.short_row
  ∧ (forall r,
       r ∈ Aggregate._aggregate_results JsonSamples.sample_merge JsonSamples.sample_dumps
             Samples.short_row ->
       length r = 4)
  ∧ "u1" ∉ urls (Aggregate._aggregate_results JsonSamples.sample_merge JsonSamples.sample_dumps
                   Samples.short_row).
Proof.
  pose proof (C10_output_rows_have_four_fields JsonSamples.sample_merge JsonSamples.sample_dumps
                Samples.short_row (is_dict_one _ _)) as (H1 & _ & H3).
  split_and!.
  - apply is_dict_one.
  - intros r Hr. exact (proj1 (H1 r Hr)).
  - apply H3. intros r Hr Hh.
    change (r ∈ [["u1"; Samples.payload_a]; ["u2"; Samples.payload_b; "n2"; "s"]]) in Hr.
    apply elem_of_cons in Hr as [->|Hr]; [unfold well_formed; simpl; lia|].
    apply elem_of_cons in Hr as [->|Hr]; [discriminate Hh|].
    by apply elem_of_nil in Hr.
Defined.

End AggregateFacts.


(** ** The client *)

Module ClientFacts.
Import VectorDBClient.

(** C3. The usability of an endpoint is the entry of the table of 4.1 for its
    backend kind and for which of the API key, the API endpoint and the
    database path are present (set and not empty); the endpoint's name and
    its other fields play no part. *)
Theorem C3_credentials_follow_table (name : string) (cfg : endpoint_config) :
  _has_valid_credentials name cfg
  = usable_by_table (kind_of (db_type cfg))
      (truthy_opt (api_key cfg)) (truthy_opt (api_endpoint cfg))
      (truthy_opt (database_path cfg)).
Proof.
  unfold _has_valid_credentials, kind_of.
  repeat match goal with
         | |- context [String.eqb ?a ?b] => destruct (String.eqb_spec a b)
         end;
    repeat case_decide; simplify_eq/=; done.
Qed.

Section Client.

Context {Json : Type}.
Variable merge_json_array : list string -> Json.
Variable json_dumps : Json -> string.
Variable CONFIG : config.
Variable adapter_init : adapter -> option exn.
Variable sites_of : adapter -> exn + option (list string).
Variable rows_of : adapter -> adapter_call -> exn + list row.
Variable count_of : adapter -> adapter_call -> exn + Z.

Local Abbreviation init := (init CONFIG).
Local Abbreviation validate_write_endpoint := (validate_write_endpoint CONFIG).
Local Abbreviation write_endpoint_invalid := (write_endpoint_invalid CONFIG).

(** *** Construction *)

(** [enabled_endpoints] is empty exactly when no enabled endpoint has valid
    credentials. *)
Lemma collect_enabled_nil endpoints :
  collect_enabled endpoints = []
  <-> forall name cfg, (name, cfg) ∈ endpoints ->
        enabled cfg = true -> _has_valid_credentials name cfg = false.
Proof.
  unfold collect_enabled.
  assert (forall acc,
    fold_left (fun acc entry =>
                 if negb (enabled entry.2) then acc
                 else if _has_valid_credentials entry.1 entry.2
                      then dict_set entry.1 entry.2 acc
                      else acc) endpoints acc = []
    <-> acc = [] ∧ forall name cfg, (name, cfg) ∈ endpoints ->
          enabled cfg = true -> _has_valid_credentials name cfg = false) as H.
  { induction endpoints as [|[n c] endpoints IH]; intros acc; simpl.
    - split; [intros ->; split; [done|]; by intros ? ? ?%elem_of_nil|by intros [-> _]].
    - rewrite IH. destruct (enabled c) eqn:He; simpl.
      + destruct (_has_valid_credentials n c) eqn:Hv.
        * split.
          -- intros [Hset _]. destruct acc as [|[k v] acc]; [done|].
             simpl in Hset. by destruct (String.eqb n k).
          -- intros [-> Hall]. specialize (Hall n c (list_elem_of_here _ _) He).
             congruence.
        * split.
          -- intros [-> Hall]. split; [done|]. intros name cfg Hin Hen.
             apply elem_of_cons in Hin as [[= -> ->]|Hin]; [done|by apply Hall].
          -- intros [-> Hall]. split; [done|]. intros name cfg Hin.
             apply Hall. by right.
      + split.
        * intros [-> Hall]. split; [done|]. intros name cfg Hin Hen.
          apply elem_of_cons in Hin as [[= -> ->]|Hin]; [congruence|by apply Hall].
        * intros [-> Hall]. split; [done|]. intros name cfg Hin.
          apply Hall. by right. }
  rewrite H. tauto.
Qed.

Lemma validate_write_endpoint_fails c :
  (exists e, validate_write_endpoint c = inl e) <-> write_endpoint_invalid.
Proof.
  unfold VectorDBClient.validate_write_endpoint, write_endpoint_invalid.
  destruct (truthy_opt (write_endpoint CONFIG)).
  - destruct (dict_get _ _) as [cfg|].
    + destruct (_has_valid_credentials _ cfg) eqn:Hv; simpl.
      * split; [by intros [e ?]|]. intros [_ [?|(cfg' & [= <-] & ?)]]; congruence.
      * split; [|eauto]. intros _. split; [done|]. right. eauto.
    + split; [|eauto]. intros _. split; [done|]. by left.
  - split; [by intros [e ?]|]. by intros [? _].
Qed.

Lemma validate_write_endpoint_ok c c' :
  validate_write_endpoint c = inr c' -> c' = c.
Proof.
  unfold VectorDBClient.validate_write_endpoint.
  destruct (truthy_opt _); [|congruence].
  destruct (dict_get _ _); [|done].
  destruct (_has_valid_credentials _ _); simpl; congruence.
Qed.

Lemma validate_write_endpoint_error c e :
  validate_write_endpoint c = inl e -> exists msg, e = ValueError msg.
Proof.
  unfold VectorDBClient.validate_write_endpoint.
  destruct (truthy_opt _); [|done].
  destruct (dict_get _ _); [|intros [= <-]; eauto].
  destruct (_has_valid_credentials _ _); simpl; [done|intros [= <-]; eauto].
Qed.

(** C7. The construction of a client fails exactly when the endpoint name it
    is given (a name that is set and not empty) is not registered, or no name
    is given and no enabled endpoint has valid credentials, or a write
    endpoint is configured that is not registered or lacks valid credentials;
    every such failure is a [ValueError]; and without a configured write
    endpoint the construction fails for the first two reasons only. *)
Theorem C7_construction_fails_exactly_when (endpoint_name : option string) :
  ((exists e, init endpoint_name = inl e)
   <-> (truthy_opt endpoint_name = true
        ∧ dict_get (default "" endpoint_name) (retrieval_endpoints CONFIG) = None)
       ∨ (truthy_opt endpoint_name = false
          ∧ forall name cfg, (name, cfg) ∈ retrieval_endpoints CONFIG ->
              enabled cfg = true -> _has_valid_credentials name cfg = false)
       ∨ write_endpoint_invalid)
  ∧ (forall e, init endpoint_name = inl e -> exists msg, e = ValueError msg)
  ∧ (truthy_opt (write_endpoint CONFIG) = false -> ¬ write_endpoint_invalid).
Proof.
  split_and!.
  - unfold VectorDBClient.init. destruct (truthy_opt endpoint_name) eqn:Hn.
    + destruct (dict_get _ _) as [cfg|] eqn:Hg.
      * rewrite validate_write_endpoint_fails.
        split; [tauto|]. intros [[_ ?]|[[? _]|?]]; [done..|tauto].
      * split; [tauto|]. eauto.
    + destruct (collect_enabled _) as [|first rest] eqn:Hc.
      * pose proof (proj1 (collect_enabled_nil _) Hc) as Hall.
        split; [tauto|]. eauto.
      * rewrite validate_write_endpoint_fails.
        split; [tauto|]. intros [[? _]|[[_ Hall]|?]]; [done| |tauto].
        pose proof (proj2 (collect_enabled_nil _) Hall). congruence.
  - intros e. unfold VectorDBClient.init. destruct (truthy_opt endpoint_name).
    + destruct (dict_get _ _); [apply validate_write_endpoint_error|].
      intros [= <-]. eauto.
    + destruct (collect_enabled _); [intros [= <-]; eauto|].
      apply validate_write_endpoint_error.
  - intros Hw [Hw' _]. congruence.
Qed.

(** *** The site index *)

Local Abbreviation get_client := (get_client adapter_init).
Local Abbreviation _get_endpoint_sites := (_get_endpoint_sites adapter_init sites_of).
Local Abbreviation _endpoint_has_site := (_endpoint_has_site adapter_init sites_of).
Local Abbreviation listed_sites := (listed_sites adapter_init sites_of).

Lemma get_endpoint_sites_cached self endpoint_name w cached :
  endpoint_sites_cache w !! endpoint_name = Some cached ->
  _get_endpoint_sites self endpoint_name w = (inr cached, w).
Proof. intros H. unfold VectorDBClient._get_endpoint_sites. by rewrite H. Qed.

Lemma get_endpoint_sites_fresh self endpoint_name w :
  endpoint_sites_cache w !! endpoint_name = None ->
  exists w',
    _get_endpoint_sites self endpoint_name w
    = (inr (listed_sites self endpoint_name w), w')
    ∧ endpoint_sites_cache w' !! endpoint_name
      = Some (listed_sites self endpoint_name w).
Proof.
  intros H. unfold VectorDBClient._get_endpoint_sites, listed_sites. rewrite H.
  unfold try_except, bind.
  destruct (get_client self endpoint_name w) as [[e|a] w1] eqn:Hc; simpl.
  - eexists. split; [reflexivity|]. simpl. apply lookup_insert_eq.
  - destruct (sites_of a) as [e|[sites|]] eqn:Hs; simpl.
    + eexists. split; [reflexivity|]. simpl. apply lookup_insert_eq.
    + eexists. split; [reflexivity|]. simpl. apply lookup_insert_eq.
    + eexists. split; [reflexivity|]. simpl. apply lookup_insert_eq.
Qed.

Lemma get_endpoint_sites_total self endpoint_name w :
  exists sites w', _get_endpoint_sites self endpoint_name w = (inr sites, w').
Proof.
  destruct (endpoint_sites_cache w !! endpoint_name) as [cached|] eqn:H.
  - exists cached, w. by apply get_endpoint_sites_cached.
  - destruct (get_endpoint_sites_fresh self endpoint_name w H) as (w' & Hw & _). eauto.
Qed.

Lemma existsb_sites (sites requested : list string) :
  existsb (fun site_name => bool_decide (site_name ∈ sites)) requested = true
  <-> exists site_name, site_name ∈ requested ∧ site_name ∈ sites.
Proof.
  rewrite existsb_exists. split.
  - intros (x & Hx & Hb). exists x. split; [by apply list_elem_of_In|].
    by apply bool_decide_eq_true in Hb.
  - intros (x & Hx & Hs). exists x. split; [by apply list_elem_of_In|].
    by apply bool_decide_eq_true.
Qed.

(** The answer of the check once the index of the endpoint is cached. *)
Lemma endpoint_has_site_cached self endpoint_name site w cached :
  site_is site "all" = false ->
  endpoint_sites_cache w !! endpoint_name = Some cached ->
  _endpoint_has_site self endpoint_name site w
  = (inr match cached with
         | None => true
         | Some sites =>
             existsb (fun site_name => bool_decide (site_name ∈ sites))
                     (sites_to_check site)
         end, w).
Proof.
  intros Hall Hc. unfold VectorDBClient._endpoint_has_site. rewrite Hall.
  unfold bind. rewrite (get_endpoint_sites_cached _ _ _ _ Hc).
  destruct cached as [[|x sites]|]; [|done..].
  unfold ret. do 2 f_equal. by induction (sites_to_check site).
Qed.

(** C5. The site check of an endpoint: the filter ["all"] is answered [True]
    whatever the index holds; when the cached index is [None] the answer is
    [True]; when it is the empty list the answer to any other filter is
    [False]; otherwise the answer to a filter other than ["all"], one site or
    a list of sites, is [True] exactly when one of the requested sites is in
    the cached list. The world is left as it was in all these cases. An index
    that is not cached yet is fetched and cached: [None] when the adapter
    cannot be had, when its [get_sites] raises or when it returns [None], and
    the list it returns otherwise; and the check that fetches it answers by
    what it has fetched, in the same way: [True] for [None], and for a list
    [True] exactly when one of the requested sites is in it. *)
Theorem C5_site_eligibility (self : client) (endpoint_name : string)
    (site : site_filter) (w : world) :
  (site_is site "all" = true ->
     _endpoint_has_site self endpoint_name site w = (inr true, w))
  ∧ (endpoint_sites_cache w !! endpoint_name = Some None ->
     _endpoint_has_site self endpoint_name site w = (inr true, w))
  ∧ (site_is site "all" = false ->
     endpoint_sites_cache w !! endpoint_name = Some (Some []) ->
     _endpoint_has_site self endpoint_name site w = (inr false, w))
  ∧ (site_is site "all" = false ->
     forall sites,
       endpoint_sites_cache w !! endpoint_name = Some (Some sites) ->
       exists answer,
         _endpoint_has_site self endpoint_name site w = (inr answer, w)
         ∧ (answer = true
            <-> exists site_name, site_name ∈ sites_to_check site ∧ site_name ∈ sites))
  ∧ (endpoint_sites_cache w !! endpoint_name = None ->
     exists w',
       _get_endpoint_sites self endpoint_name w
       = (inr (listed_sites self endpoint_name w), w')
       ∧ endpoint_sites_cache w' !! endpoint_name
         = Some (listed_sites self endpoint_name w))
  ∧ (site_is site "all" = false ->
     endpoint_sites_cache w !! endpoint_name = None ->
     exists answer w',
       _endpoint_has_site self endpoint_name site w = (inr answer, w')
       ∧ endpoint_sites_cache w' !! endpoint_name
         = Some (listed_sites self endpoint_name w)
       ∧ (answer = true
          <-> listed_sites self endpoint_name w = None
              ∨ exists sites site_name,
                  listed_sites self endpoint_name w = Some sites
                  ∧ site_name ∈ sites_to_check site ∧ site_name ∈ sites)).
Proof.
  split_and!.
  - intros Hall. unfold VectorDBClient._endpoint_has_site. by rewrite Hall.
  - intros Hc. destruct (site_is site "all") eqn:Hall.
    + unfold VectorDBClient._endpoint_has_site. by rewrite Hall.
    + by rewrite (endpoint_has_site_cached _ _ _ _ _ Hall Hc).
  - intros Hall Hc. rewrite (endpoint_has_site_cached _ _ _ _ _ Hall Hc).
    do 2 f_equal. by induction (sites_to_check site).
  - intros Hall sites Hc. rewrite (endpoint_has_site_cached _ _ _ _ _ Hall Hc).
    eexists. split; [reflexivity|]. apply existsb_sites.
  - apply get_endpoint_sites_fresh.
  - intros Hall Hc. unfold VectorDBClient._endpoint_has_site. rewrite Hall.
    unfold bind.
    destruct (get_endpoint_sites_fresh self endpoint_name w Hc) as (w' & -> & Hc').
    destruct (listed_sites self endpoint_name w) as [[|site_name sites]|];
      unfold ret; eexists _, w'; (split; [reflexivity|]); (split; [done|]).
    + split; [done|]. intros [?|(sites & site_name & [= <-] & _ & Hin)]; [done|].
      by apply elem_of_nil in Hin.
    + rewrite existsb_sites. split.
      * intros (x & Hx & Hin). right. eauto.
      * intros [?|(sites' & x & [= <-] & Hx & Hin)]; [done|]. eauto.
    + split; [by left|done].
Qed.

(** *** The fan-out *)

Local Abbreviation create_task := (create_task adapter_init sites_of).
Local Abbreviation create_tasks := (create_tasks adapter_init sites_of).
Local Abbreviation gather := (gather rows_of).
Local Abbreviation search :=
  (search merge_json_array json_dumps adapter_init sites_of rows_of).
Local Abbreviation success := (success rows_of).

Lemma endpoint_has_site_total self endpoint_name site w :
  exists answer w', _endpoint_has_site self endpoint_name site w = (inr answer, w').
Proof.
  unfold VectorDBClient._endpoint_has_site.
  destruct (site_is site "all"); [by exists true, w|].
  unfold bind.
  destruct (get_endpoint_sites_total self endpoint_name w) as (sites & w' & ->).
  destruct sites as [[|x sites]|]; unfold ret; eauto.
Qed.

(** An iteration of the dispatch loop raises nothing and adds at most one
    task, for the endpoint at hand. *)
Lemma create_task_spec self query site num_results tasks endpoint_name w :
  exists new w',
    create_task self query site num_results tasks endpoint_name w
    = (inr (tasks ++ new), w')
    ∧ (new = []
       ∨ exists a, new = [(endpoint_name, a, search_call query site num_results)]).
Proof.
  unfold VectorDBClient.create_task, try_except, bind.
  destruct (endpoint_has_site_total self endpoint_name site w) as (answer & w1 & ->).
  destruct answer; simpl.
  - destruct (get_client self endpoint_name w1) as [[e|a] w2]; unfold ret.
    + exists [], w2. rewrite app_nil_r. eauto.
    + exists [(endpoint_name, a, search_call query site num_results)], w2. eauto.
  - exists [], w1. rewrite app_nil_r. unfold ret. eauto.
Qed.

Lemma create_tasks_spec self query site num_results names tasks w :
  exists new w',
    create_tasks self query site num_results tasks names w = (inr (tasks ++ new), w')
    ∧ new.*1.*1 `sublist_of` names
    ∧ Forall (fun t => t.2 = search_call query site num_results) new.
Proof.
  revert tasks w. induction names as [|name names IH]; intros tasks w.
  - exists [], w. rewrite app_nil_r. split_and!; [done|done|constructor].
  - cbn [VectorDBClient.create_tasks]. unfold bind.
    destruct (create_task_spec self query site num_results tasks name w)
      as (new1 & w1 & -> & Hnew1).
    destruct (IH (tasks ++ new1) w1) as (new2 & w2 & -> & Hsub & Hcalls).
    exists (new1 ++ new2), w2. rewrite app_assoc. split_and!; [done|..].
    + destruct Hnew1 as [->|[a ->]]; simpl.
      * by apply sublist_cons.
      * by apply sublist_skip.
    + destruct Hnew1 as [->|[a ->]]; [done|]. by constructor.
Qed.

Lemma gather_spec (tasks : list task) w :
  gather tasks w
  = (inr ((fun t => rows_of t.1.2 t.2) <$> tasks),
     World (client_cache w) (endpoint_sites_cache w)
           (trace w ++ ((fun t => Called t.1.2 t.2) <$> tasks))).
Proof.
  revert w. induction tasks as [|t tasks IH]; intros w.
  - simpl. unfold ret. rewrite app_nil_r. by destruct w.
  - cbn [VectorDBClient.gather]. unfold bind, run_task. rewrite IH. simpl.
    unfold ret. by rewrite <- app_assoc.
Qed.

Lemma omap_success_cons name a c (tasks : list task) :
  omap success ((name, a, c) :: tasks)
  = match rows_of a c with
    | inr result => (name, result) :: omap success tasks
    | inl _ => omap success tasks
    end.
Proof. csimpl. unfold success at 1. simpl. by destruct (rows_of a c). Qed.

(** On tasks of distinct endpoints the loop over the outcomes keeps the
    result lists of the tasks that succeeded, in the order of the tasks. *)
Lemma collect_results_spec (tasks : list task) :
  NoDup tasks.*1.*1 ->
  collect_results tasks.*1.*1 ((fun t => rows_of t.1.2 t.2) <$> tasks)
  = (omap success tasks, length (omap success tasks)).
Proof.
  unfold collect_results.
  assert (forall acc k,
    NoDup (acc.*1 ++ tasks.*1.*1) ->
    fold_left (fun acc nr =>
                 match nr.2 with
                 | inl _ => acc
                 | inr result => (dict_set nr.1 result acc.1, S acc.2)
                 end)
      (zip tasks.*1.*1 ((fun t => rows_of t.1.2 t.2) <$> tasks)) (acc, k)
    = (acc ++ omap success tasks, k + length (omap success tasks))) as H.
  { induction tasks as [|[[name a] c] tasks IH]; intros acc k Hnd.
    - simpl. by rewrite app_nil_r, Nat.add_0_r.
    - rewrite omap_success_cons. csimpl.
      csimpl in Hnd. apply NoDup_app in Hnd as (Hacc & Hdisj & Hnd).
      apply NoDup_cons in Hnd as [Hname Hnd].
      destruct (rows_of a c) as [e|result]; simpl.
      + rewrite IH; [done|]. apply NoDup_app. split_and!; [done| |done].
        intros x Hx Hx'. apply (Hdisj x Hx). by right.
      + rewrite dict_set_fresh by (intros Hin; apply (Hdisj name Hin); left).
        rewrite IH.
        * rewrite <- app_assoc. simpl. f_equal. lia.
        * rewrite fmap_app. simpl. rewrite <- app_assoc. simpl.
          apply NoDup_app. split_and!; [done| |by apply NoDup_cons].
          intros x Hx Hx'. by apply (Hdisj x Hx). }
  intros Hnd. by rewrite (H [] 0 Hnd).
Qed.

(** C2. A search over the enabled endpoints dispatches one task for every
    endpoint that has the site and whose adapter can be had, the dispatch
    itself raising nothing. With no task the call raises the [ValueError]
    "No valid endpoints available for search"; with tasks that all fail it
    raises the [ValueError] "All endpoint searches failed"; and when a task
    succeeds it returns the aggregation of the result lists of the tasks that
    succeeded, those of the failed ones left out and their errors not raised,
    cut to [num_results]. *)
Theorem C2_search_tolerates_partial_failure (self : client) (query : string)
    (site : site_filter) (num_results : Z) (w : world) :
  is_dict (enabled_endpoints self) ->
  exists tasks w1,
    create_tasks self query site num_results [] (enabled_endpoints self).*1 w
    = (inr tasks, w1)
    ∧ tasks.*1.*1 `sublist_of` (enabled_endpoints self).*1
    ∧ Forall (fun t => t.2 = search_call query site num_results) tasks
    ∧ exists w2,
        search self query site num_results w
        = (match tasks, omap success tasks with
           | [], _ => inl (ValueError NoValidEndpoints)
           | _ :: _, [] => inl (ValueError AllSearchesFailed)
           | _ :: _, (_ :: _) as endpoint_results =>
               inr (slice_to (Aggregate._aggregate_results merge_json_array
                                json_dumps endpoint_results) num_results)
           end, w2).
Proof.
  intros Hd.
  destruct (create_tasks_spec self query site num_results
              (enabled_endpoints self).*1 [] w) as (tasks & w1 & Hct & Hsub & Hcalls).
  simpl in Hct. exists tasks, w1. split_and!; [done..|].
  unfold VectorDBClient.search, bind. rewrite Hct.
  destruct tasks as [|t tasks]; [by exists w1|].
  rewrite gather_spec, collect_results_spec.
  2:{ exact (sublist_NoDup _ _ Hd Hsub). }
  eexists. destruct (omap success (t :: tasks)); reflexivity.
Qed.

(** *** Writes *)

Local Abbreviation upload_documents := (upload_documents adapter_init count_of).
Local Abbreviation delete_documents_by_site :=
  (delete_documents_by_site adapter_init count_of).

(** The first part of C6: without a write endpoint a write raises at once
    and the world, so also the trace of adapter events, is as before. *)
Lemma write_without_endpoint self documents site w :
  truthy_opt (client_write_endpoint self) = false ->
  upload_documents self documents w = (inl (ValueError NoWriteEndpointForUpload), w)
  ∧ delete_documents_by_site self site w
    = (inl (ValueError NoWriteEndpointForDelete), w).
Proof.
  intros H. unfold VectorDBClient.upload_documents,
    VectorDBClient.delete_documents_by_site. by rewrite H.
Qed.

(** The second part of C6, when the adapter of the write endpoint can be
    had: a write is one call of that adapter, and what the call returns or
    raises is the outcome. *)
Lemma write_delegates self documents site w name a w1 :
  client_write_endpoint self = Some name -> truthy name = true ->
  get_client self name w = (inr a, w1) ->
  upload_documents self documents w
  = (count_of a (UploadDocuments documents),
     World (client_cache w1) (endpoint_sites_cache w1)
           (trace w1 ++ [Called a (UploadDocuments documents)]))
  ∧ delete_documents_by_site self site w
    = (count_of a (DeleteDocumentsBySite site),
       World (client_cache w1) (endpoint_sites_cache w1)
             (trace w1 ++ [Called a (DeleteDocumentsBySite site)])).
Proof.
  intros Hw Ht Hc. unfold VectorDBClient.upload_documents,
    VectorDBClient.delete_documents_by_site, try_except, bind, call_count, raise.
  rewrite Hw. cbn [default truthy_opt]. rewrite Ht. cbn [negb]. unfold id.
  rewrite Hc. split; by destruct (count_of a _).
Qed.

(** With a write endpoint that is not among the enabled endpoints of the
    client, a write raises the [ValueError] of [get_client] and no adapter is
    built or called. *)
Lemma write_endpoint_not_enabled self documents site w name :
  client_write_endpoint self = Some name -> truthy name = true ->
  dict_get name (enabled_endpoints self) = None ->
  upload_documents self documents w = (inl (ValueError (EndpointNotEnabled name)), w)
  ∧ delete_documents_by_site self site w
    = (inl (ValueError (EndpointNotEnabled name)), w).
Proof.
  intros Hw Ht Hg. unfold VectorDBClient.upload_documents,
    VectorDBClient.delete_documents_by_site, try_except, bind, raise,
    VectorDBClient.get_client.
  rewrite Hw. cbn [default truthy_opt]. rewrite Ht. cbn [negb]. unfold id.
  by rewrite Hg.
Qed.

End Client.
(** C2 at the sample client: [E1] answers and [E2] fails. *)
Lemma C2_witness :
  is_dict (enabled_endpoints Samples.sample_client)
  ∧ exists w2,
      search JsonSamples.sample_merge JsonSamples.sample_dumps Samples.sample_init
        Samples.sample_sites Samples.sample_rows Samples.sample_client
        "query" (SiteStr "siteX") 10 Samples.fresh_world
      = (inr [["u1"; Samples.payload_a; "n1"; "siteX"]], w2).
Proof.
  assert (is_dict (enabled_endpoints Samples.sample_client)) as Hd
    by (apply (bool_decide_unpack _); vm_compute; reflexivity).
  split; [exact Hd|].
  destruct (C2_search_tolerates_partial_failure JsonSamples.sample_merge JsonSamples.sample_dumps
              Samples.sample_init Samples.sample_sites Samples.sample_rows
              Samples.sample_client "query" (SiteStr "siteX") 10
              Samples.fresh_world Hd)
    as (tasks & w1 & Hct & _ & _ & w2 & Hs).
  vm_compute in Hct. injection Hct as <- <-.
  exists w2. rewrite Hs. vm_compute. reflexivity.
Defined.

(** C5 at the sample world in which the index of [E1] holds [siteX], and at
    the world in which no index is cached yet: there the check of [E1], whose
    adapter lists [siteX], answers [False] for [siteY], and the check of
    [E2], whose adapter lists nothing, answers [True]. *)
Lemma C5_witness :
  _endpoint_has_site Samples.sample_init Samples.sample_sites Samples.sample_client
    "E1" (SiteStr "siteY") Samples.indexed_world = (inr false, Samples.indexed_world)
  ∧ _endpoint_has_site Samples.sample_init Samples.sample_sites Samples.sample_client
      "E1" (SiteStr "siteX") Samples.indexed_world = (inr true, Samples.indexed_world)
  ∧ _endpoint_has_site Samples.sample_init Samples.sample_sites Samples.sample_client
      "E1" (SiteStr "all") Samples.indexed_world = (inr true, Samples.indexed_world)
  ∧ (exists w',
       _endpoint_has_site Samples.sample_init Samples.sample_sites Samples.sample_client
         "E1" (SiteStr "siteY") Samples.fresh_world = (inr false, w')
       ∧ endpoint_sites_cache w' !! "E1" = Some (Some ["siteX"]))
  ∧ (exists w',
       _endpoint_has_site Samples.sample_init Samples.sample_sites Samples.sample_client
         "E2" (SiteStr "siteY") Samples.fresh_world = (inr true, w')
       ∧ endpoint_sites_cache w' !! "E2" = Some None).
Proof.
  assert (endpoint_sites_cache Samples.indexed_world !! "E1" = Some (Some ["siteX"]))
    as Hc by (vm_compute; reflexivity).
  split_and!.
  - destruct (C5_site_eligibility Samples.sample_init Samples.sample_sites
                Samples.sample_client "E1" (SiteStr "siteY") Samples.indexed_world)
      as (_ & _ & _ & H & _).
    destruct (H eq_refl _ Hc) as (answer & -> & Hiff).
    destruct answer; [|done]. destruct (proj1 Hiff eq_refl) as (x & Hx & Hs).
    apply list_elem_of_singleton in Hx as ->.
    by apply list_elem_of_singleton in Hs.
  - destruct (C5_site_eligibility Samples.sample_init Samples.sample_sites
                Samples.sample_client "E1" (SiteStr "siteX") Samples.indexed_world)
      as (_ & _ & _ & H & _).
    destruct (H eq_refl _ Hc) as (answer & -> & Hiff).
    rewrite (proj2 Hiff); [done|]. exists "siteX". split; apply list_elem_of_singleton; done.
  - exact (proj1 (C5_site_eligibility Samples.sample_init Samples.sample_sites
                    Samples.sample_client "E1" (SiteStr "all") Samples.indexed_world)
             eq_refl).
  - destruct (C5_site_eligibility Samples.sample_init Samples.sample_sites
                Samples.sample_client "E1" (SiteStr "siteY") Samples.fresh_world)
      as (_ & _ & _ & _ & _ & H).
    destruct (H eq_refl eq_refl) as (answer & w' & -> & Hc' & Hiff).
    exists w'. split; [|exact Hc']. destruct answer; [|done].
    destruct (proj1 Hiff eq_refl) as [Hl|(sites & x & Hl & Hx & Hs)];
      vm_compute in Hl; [done|].
    injection Hl as <-. apply list_elem_of_singleton in Hx as ->.
    by apply list_elem_of_singleton in Hs.
  - destruct (C5_site_eligibility Samples.sample_init Samples.sample_sites
                Samples.sample_client "E2" (SiteStr "siteY") Samples.fresh_world)
      as (_ & _ & _ & _ & _ & H).
    destruct (H eq_refl eq_refl) as (answer & w' & -> & Hc' & Hiff).
    exists w'. split; [|exact Hc']. rewrite (proj2 Hiff); [done|]. by left.
Defined.

(** C7 at the sample configuration without a write endpoint: the construction
    succeeds. *)
Lemma C7_witness :
  truthy_opt (write_endpoint Samples.read_only_config) = false
  ∧ ¬ write_endpoint_invalid Samples.read_only_config
  ∧ ¬ exists e, init Samples.read_only_config None = inl e.
Proof.
  destruct (C7_construction_fails_exactly_when Samples.read_only_config None)
    as (Hiff & _ & Hw).
  split_and!; [done|by apply Hw|].
  intros [e He]. vm_compute in He. discriminate He.
Defined.

(** C6 fails on the sample configuration: its write endpoint passes the
    validation of [__init__], yet a write through the client so built raises
    the [ValueError] of [get_client], because the endpoint is not enabled, and
    no adapter is built or called. *)
Lemma C6_write_to_validated_endpoint_fails :
  init Samples.sample_config None = inr Samples.sample_client
  ∧ upload_documents Samples.sample_init Samples.sample_count Samples.sample_client
      [[("url", "u1")]] Samples.fresh_world
    = (inl (ValueError (EndpointNotEnabled "W")), Samples.fresh_world)
  ∧ delete_documents_by_site Samples.sample_init Samples.sample_count
      Samples.sample_client "siteX" Samples.fresh_world
    = (inl (ValueError (EndpointNotEnabled "W")), Samples.fresh_world).
Proof. split_and!; vm_compute; reflexivity. Qed.

End ClientFacts.

(** ** The relevance precheck *)

Module RelevanceFacts.
Import RelevanceDetection.

(** C9. Whatever the site of the handler and whatever the prompt would
    answer, the guard of [do] is truthy, and [do] only marks the precheck
    step done: it raises nothing, runs no prompt and changes no attribute. *)
Theorem C9_precheck_always_short_circuits
    (response : option (pydict string)) (st : state) :
  py_truthy (guard st) = true
  ∧ do response st = (None, act (PrecheckStepDone STEP_NAME) st)
  ∧ actions (do response st).2 = actions st ++ [PrecheckStepDone "Relevance"]
  ∧ (forall prompt_name level, RunPrompt prompt_name level ∈ actions (do response st).2 ->
                               RunPrompt prompt_name level ∈ actions st).
Proof.
  assert (py_truthy (guard st) = true) as Hg.
  { unfold guard, py_or. by repeat (destruct (site_is _ _); simpl). }
  split_and!; [done|..]; unfold do; rewrite Hg; [done..|].
  intros prompt_name level Hin. simpl in Hin.
  apply elem_of_app in Hin as [Hin|Hin]; [done|].
  by apply list_elem_of_singleton in Hin.
Qed.

End RelevanceFacts.

(** * Further properties *)

(** ** The aggregation *)

Module AggregateMore.
Import Aggregate AggregateNotions.
Section AggregateMore.

Context {Json : Type}.
Variable merge_json_array : list string -> Json.
Variable json_dumps : Json -> string.

Local Abbreviation merged_result := (merged_result merge_json_array json_dumps).
Local Abbreviation _aggregate_results_within :=
  (_aggregate_results_within merge_json_array json_dumps).
Local Abbreviation _aggregate_results := (_aggregate_results merge_json_array json_dumps).
Local Abbreviation record_for := (record_for merge_json_array json_dumps).

Local Abbreviation first_pass_Some :=
  (AggregateFacts.first_pass_Some merge_json_array json_dumps).
Local Abbreviation first_pass_None :=
  (AggregateFacts.first_pass_None merge_json_array json_dumps).
Local Abbreviation first_pass_is_Some :=
  (AggregateFacts.first_pass_is_Some merge_json_array json_dumps).
Local Abbreviation aggregate_emits :=
  (AggregateFacts.aggregate_emits merge_json_array json_dumps).
Local Abbreviation aggregate_elem :=
  (AggregateFacts.aggregate_elem merge_json_array json_dumps).
Local Abbreviation aggregate_urls_NoDup :=
  (AggregateFacts.aggregate_urls_NoDup merge_json_array json_dumps).
Local Abbreviation aggregate_terminates :=
  (AggregateFacts.aggregate_terminates merge_json_array json_dumps).

Implicit Types (er : pydict (list row)).

Lemma omap_ext_all {A B} (f g : A -> option B) (l : list A) :
  (forall x, f x = g x) -> omap f l = omap g l.
Proof. intros H. induction l as [|x l IH]; csimpl; [done|]. by rewrite H, IH. Qed.

(** The table of the first pass, read off the rows. *)
Lemma first_pass_record er u :
  merged_result <$> first_pass er !! u = record_for u er.
Proof.
  unfold AggregateNotions.record_for.
  destruct (first_pass er !! u) as [d|] eqn:Hfp.
  - apply first_pass_Some in Hfp as (Hurl & Hjson & r0 & Hr0 & Hname & Hsite).
    destruct (rows_for u er) as [|r1 rest] eqn:Hrows; [done|].
    injection Hr0 as ->. simpl. unfold Aggregate.merged_result.
    by rewrite Hurl, Hjson, Hname, Hsite.
  - apply first_pass_None in Hfp. by rewrite Hfp.
Qed.

(** The output, read off the rows. *)
Lemma aggregate_records er :
  is_dict er ->
  _aggregate_results er
  = omap (fun u => record_for u er)
         (filter (fun u => u ≠ "") (first_occurrences (urls (round_robin er.*2)))).
Proof.
  intros Hd. rewrite (aggregate_emits er Hd).
  apply omap_ext_all. intros u. apply first_pass_record.
Qed.

(** X1. The [while iterators] loop of the second pass ends because the
    iterators run out: one round more than the longest result list has rows
    is enough, and further rounds change nothing. *)
Theorem X1_interleave_loop_terminates er (fuel : nat) :
  is_dict er ->
  rounds_bound er <= fuel ->
  _aggregate_results_within fuel er = Some (_aggregate_results er).
Proof. apply aggregate_terminates. Qed.

(** X2. Every row of the output is [url, payload, name, site] where the name
    and the site are those of the first row, in the order of the endpoints
    and then of their lists, that has at least four fields and carries the
    URL, and the payload is made of the non-empty payloads of all such rows
    in that order; this is so also when the interleave meets a row of a
    later endpoint first. *)
Theorem X2_record_fields_from_first_row er (r : row) :
  is_dict er ->
  r ∈ _aggregate_results er ->
  exists u r0,
    u ≠ "" ∧ head (rows_for u er) = Some r0
    ∧ r = [u;
           merged_json_str merge_json_array json_dumps (payloads (rows_for u er));
           name_of r0; site_of r0].
Proof.
  intros Hd Hr. rewrite (aggregate_records er Hd) in Hr.
  apply list_elem_of_omap in Hr as (u & Hu & Hrec).
  apply list_elem_of_filter in Hu as [Hne _].
  unfold AggregateNotions.record_for in Hrec.
  destruct (rows_for u er) as [|r0 rest] eqn:Hrows; [done|].
  injection Hrec as <-. exists u, r0. by rewrite Hrows.
Qed.

(** The URLs of the output. *)
Lemma aggregate_urls_elem er (u : string) :
  is_dict er ->
  u ∈ urls (_aggregate_results er)
  <-> u ≠ "" ∧ exists r, r ∈ concat er.*2 ∧ carries u r.
Proof.
  intros Hd. rewrite AggregateFacts.urls_elem. split.
  - intros (r & Hr & Hh). apply (aggregate_elem er r Hd) in Hr
      as (u' & d & Hne & _ & Hfp & ->).
    pose proof (first_pass_Some er u' d Hfp) as (Hurl & _).
    simpl in Hh. injection Hh as Hh. rewrite Hurl in Hh. subst u'.
    split; [done|]. apply first_pass_is_Some. eauto.
  - intros (Hne & r0 & Hr0 & Hc).
    assert (is_Some (first_pass er !! u)) as [d Hfp]
      by (apply first_pass_is_Some; eauto).
    exists (merged_result d). split.
    + apply (aggregate_elem er _ Hd). exists u, d. split_and!; [done| |done..].
      exists r0. split; [done|]. by destruct Hc.
    + pose proof (first_pass_Some er u d Hfp) as (Hurl & _). simpl. by rewrite Hurl.
Qed.

(** X3. A URL is in the output exactly when it is not the empty string and
    some row of at least four fields carries it: no such URL is lost. *)
Theorem X3_output_urls er (u : string) :
  is_dict er ->
  u ∈ urls (_aggregate_results er)
  <-> u ≠ "" ∧ exists r, r ∈ concat er.*2 ∧ carries u r.
Proof. apply aggregate_urls_elem. Qed.

(** The rows of the output are as many as its URLs. *)
Lemma aggregate_urls_length er :
  is_dict er -> length (urls (_aggregate_results er)) = length (_aggregate_results er).
Proof.
  intros Hd.
  assert (forall rows : list row,
            (forall r, r ∈ rows -> r ≠ []) -> length (urls rows) = length rows) as H.
  { induction rows as [|r rows IH]; intros Hne; [done|].
    destruct r as [|u r]; [by destruct (Hne [] (list_elem_of_here _ _))|].
    unfold urls in *. csimpl. f_equal. apply IH. intros r0 Hr0. apply Hne. by right. }
  apply H. intros r Hr. apply (aggregate_elem er r Hd) in Hr as (u & d & _ & _ & _ & ->).
  done.
Qed.

Lemma length_omap_le {A B} (f : A -> option B) (l : list A) :
  length (omap f l) <= length l.
Proof. induction l as [|x l IH]; csimpl; [done|]. destruct (f x); simpl; lia. Qed.

(** X4. The output has at most as many rows as the input has rows of at
    least four fields, over all endpoints. *)
Theorem X4_output_is_bounded er :
  is_dict er ->
  length (_aggregate_results er) <= length (filter well_formed (concat er.*2)).
Proof.
  intros Hd. rewrite <- (aggregate_urls_length er Hd).
  transitivity (length (urls (filter well_formed (concat er.*2))));
    [|apply length_omap_le].
  apply submseteq_length, NoDup_submseteq; [by apply aggregate_urls_NoDup|].
  intros u Hu. apply (aggregate_urls_elem er u Hd) in Hu as (_ & r & Hr & Hwf & Hh).
  apply AggregateFacts.urls_elem. exists r. split; [|done].
  by apply list_elem_of_filter.
Qed.

Lemma concat_live {A} (ls : list (list A)) :
  concat (filter (fun l => l ≠ []) ls) = concat ls.
Proof.
  induction ls as [|l ls IH]; [done|]. destruct l as [|x l].
  - by rewrite filter_cons_False by tauto.
  - rewrite filter_cons_True by done. simpl. by rewrite IH.
Qed.

(** X5. The output depends only on the result lists that are not empty, in
    their order: the names of the endpoints play no part, and an endpoint
    that returned nothing changes nothing. *)
Theorem X5_only_the_nonempty_lists_matter er er' :
  is_dict er -> is_dict er' ->
  filter (fun l => l ≠ []) er.*2 = filter (fun l => l ≠ []) er'.*2 ->
  _aggregate_results er = _aggregate_results er'.
Proof.
  intros Hd Hd' Hrows.
  rewrite (aggregate_records er Hd), (aggregate_records er' Hd').
  rewrite <- (round_robin_live er.*2), <- (round_robin_live er'.*2), Hrows.
  apply omap_ext_all. intros u.
  unfold AggregateNotions.record_for, rows_for.
  by rewrite <- (concat_live er.*2), <- (concat_live er'.*2), Hrows.
Qed.

End AggregateMore.

Lemma is_dict_crossed : is_dict MoreSamples.crossed.
Proof. apply (bool_decide_unpack _). vm_compute. reflexivity. Defined.

Lemma is_dict_with_silent_endpoint : is_dict MoreSamples.with_silent_endpoint.
Proof. apply (bool_decide_unpack _). vm_compute. reflexivity. Defined.

Lemma is_dict_renamed : is_dict MoreSamples.renamed.
Proof. apply (bool_decide_unpack _). vm_compute. reflexivity. Defined.

(** X1 at the sample of two endpoints, with four rounds. *)
Lemma X1_witness :
  is_dict Samples.two_endpoints
  ∧ rounds_bound Samples.two_endpoints <= 4
  ∧ _aggregate_results_within JsonSamples.sample_merge JsonSamples.sample_dumps 4
      Samples.two_endpoints
    = Some (_aggregate_results JsonSamples.sample_merge JsonSamples.sample_dumps
              Samples.two_endpoints).
Proof.
  assert (rounds_bound Samples.two_endpoints <= 4) as Hb by (vm_compute; lia).
  split_and!; [exact AggregateFacts.is_dict_two_endpoints|exact Hb|].
  exact (X1_interleave_loop_terminates JsonSamples.sample_merge JsonSamples.sample_dumps
           Samples.two_endpoints 4 AggregateFacts.is_dict_two_endpoints Hb).
Defined.

(** X2 at the crossed sample: the row of [u1] has the name and site of the
    row of endpoint [A]. *)
Lemma X2_witness :
  is_dict MoreSamples.crossed
  ∧ forall r,
      r ∈ _aggregate_results JsonSamples.sample_merge JsonSamples.sample_dumps MoreSamples.crossed ->
      exists u r0,
        u ≠ "" ∧ head (rows_for u MoreSamples.crossed) = Some r0
        ∧ r = [u;
               merged_json_str JsonSamples.sample_merge JsonSamples.sample_dumps
                 (payloads (rows_for u MoreSamples.crossed));
               name_of r0; site_of r0].
Proof.
  split; [exact is_dict_crossed|]. intros r Hr.
  exact (X2_record_fields_from_first_row JsonSamples.sample_merge JsonSamples.sample_dumps
           MoreSamples.crossed r is_dict_crossed Hr).
Defined.

(** X3 at the crossed sample. *)
Lemma X3_witness :
  is_dict MoreSamples.crossed
  ∧ "u1" ∈ urls (_aggregate_results JsonSamples.sample_merge JsonSamples.sample_dumps
                   MoreSamples.crossed).
Proof.
  split; [exact is_dict_crossed|].
  apply (X3_output_urls JsonSamples.sample_merge JsonSamples.sample_dumps
           MoreSamples.crossed "u1" is_dict_crossed).
  split; [done|]. exists ["u1"; Samples.payload_b; "nameB"; "siteB"]. split.
  - vm_compute. do 2 right. left.
  - split; [unfold well_formed; simpl; lia|done].
Defined.

(** X4 at the sample of two endpoints. *)
Lemma X4_witness :
  is_dict Samples.two_endpoints
  ∧ length (_aggregate_results JsonSamples.sample_merge JsonSamples.sample_dumps
              Samples.two_endpoints)
    <= length (filter well_formed (concat Samples.two_endpoints.*2)).
Proof.
  split; [exact AggregateFacts.is_dict_two_endpoints|].
  exact (X4_output_is_bounded JsonSamples.sample_merge JsonSamples.sample_dumps
           Samples.two_endpoints AggregateFacts.is_dict_two_endpoints).
Defined.

(** X5 at the sample with a silent endpoint and its renaming. *)
Lemma X5_witness :
  is_dict MoreSamples.with_silent_endpoint
  ∧ is_dict MoreSamples.renamed
  ∧ _aggregate_results JsonSamples.sample_merge JsonSamples.sample_dumps
      MoreSamples.with_silent_endpoint
    = _aggregate_results JsonSamples.sample_merge JsonSamples.sample_dumps MoreSamples.renamed.
Proof.
  split_and!; [exact is_dict_with_silent_endpoint|exact is_dict_renamed|].
  apply (X5_only_the_nonempty_lists_matter JsonSamples.sample_merge JsonSamples.sample_dumps
           _ _ is_dict_with_silent_endpoint is_dict_renamed).
  vm_compute. reflexivity.
Defined.

End AggregateMore.

(** ** The client *)

Module ClientMore.
Import VectorDBClient ClientNotions.
Section ClientMore.

Context {Json : Type}.
Variable merge_json_array : list string -> Json.
Variable json_dumps : Json -> string.
Variable CONFIG : config.
Variable adapter_init : adapter -> option exn.
Variable sites_of : adapter -> exn + option (list string).
Variable rows_of : adapter -> adapter_call -> exn + list row.
Variable count_of : adapter -> adapter_call -> exn + Z.

Local Abbreviation init := (init CONFIG).
Local Abbreviation get_client := (get_client adapter_init).
Local Abbreviation _get_endpoint_sites := (_get_endpoint_sites adapter_init sites_of).
Local Abbreviation _endpoint_has_site := (_endpoint_has_site adapter_init sites_of).
Local Abbreviation create_tasks := (create_tasks adapter_init sites_of).
Local Abbreviation search :=
  (search merge_json_array json_dumps adapter_init sites_of rows_of).
Local Abbreviation upload_documents := (upload_documents adapter_init count_of).
Local Abbreviation delete_documents_by_site :=
  (delete_documents_by_site adapter_init count_of).

(** *** [get_client] *)

(** What a call of [get_client] can do. *)
Lemma get_client_cases self endpoint_name w :
  (dict_get endpoint_name (enabled_endpoints self) = None
   ∧ get_client self endpoint_name w
     = (inl (ValueError (EndpointNotEnabled endpoint_name)), w))
  ∨ exists cfg,
      dict_get endpoint_name (enabled_endpoints self) = Some cfg
      ∧ ((exists a,
            client_cache w !! (db_type cfg ++ "_" ++ endpoint_name)%string = Some a
            ∧ get_client self endpoint_name w = (inr a, w))
         ∨ (client_cache w !! (db_type cfg ++ "_" ++ endpoint_name)%string = None
            ∧ known_db_type (db_type cfg) = false
            ∧ get_client self endpoint_name w
              = (inl (ValueError (UnsupportedDatabaseType (db_type cfg))), w))
         ∨ (exists e,
              client_cache w !! (db_type cfg ++ "_" ++ endpoint_name)%string = None
              ∧ known_db_type (db_type cfg) = true
              ∧ adapter_init (Adapter (db_type cfg) endpoint_name) = Some e
              ∧ get_client self endpoint_name w = (inl e, w))
         ∨ (client_cache w !! (db_type cfg ++ "_" ++ endpoint_name)%string = None
            ∧ known_db_type (db_type cfg) = true
            ∧ adapter_init (Adapter (db_type cfg) endpoint_name) = None
            ∧ get_client self endpoint_name w
              = (inr (Adapter (db_type cfg) endpoint_name),
                 World (<[(db_type cfg ++ "_" ++ endpoint_name)%string
                          := Adapter (db_type cfg) endpoint_name]> (client_cache w))
                       (endpoint_sites_cache w)
                       (trace w ++ [Constructed (Adapter (db_type cfg) endpoint_name)])))).
Proof.
  unfold VectorDBClient.get_client.
  destruct (dict_get endpoint_name (enabled_endpoints self)) as [cfg|]; [|by left].
  right. exists cfg. split; [done|].
  destruct (client_cache w !! _) as [a|] eqn:Hc; [left; eauto|].
  destruct (known_db_type (db_type cfg)) eqn:Hk; [|right; left; done].
  destruct (adapter_init _) as [e|] eqn:Hi.
  - right. right. left. eauto.
  - right. right. right. done.
Qed.

(** X6. An adapter that [get_client] has returned is returned again by the
    next call for the same endpoint, which builds nothing and leaves the
    cache, the site index and the trace as they are. *)
Theorem X6_get_client_is_cached self endpoint_name w a w1 :
  get_client self endpoint_name w = (inr a, w1) ->
  get_client self endpoint_name w1 = (inr a, w1).
Proof.
  intros H.
  destruct (get_client_cases self endpoint_name w)
    as [[_ H']|(cfg & Hg & [(a' & Hc & H')|[(_ & _ & H')|[(e & _ & _ & _ & H')|(Hc & Hk & Hi & H')]]])];
    rewrite H' in H; simplify_eq.
  - done.
  - unfold VectorDBClient.get_client. rewrite Hg. simpl. by rewrite lookup_insert_eq.
Qed.

(** A call of [get_client] that raises. *)
Lemma get_client_failure self endpoint_name w e w1 :
  get_client self endpoint_name w = (inl e, w1) ->
  w1 = w
  ∧ (e = ValueError (EndpointNotEnabled endpoint_name)
     ∨ exists cfg,
         dict_get endpoint_name (enabled_endpoints self) = Some cfg
         ∧ (e = ValueError (UnsupportedDatabaseType (db_type cfg))
            ∨ adapter_init (Adapter (db_type cfg) endpoint_name) = Some e)).
Proof.
  intros H.
  destruct (get_client_cases self endpoint_name w)
    as [[_ H']|(cfg & Hg & [(a' & Hc & H')|[(_ & _ & H')|[(e' & _ & _ & Hi & H')|(Hc & Hk & Hi & H')]]])];
    rewrite H' in H; simplify_eq; (split; [done|]); eauto 6.
Qed.

(** X7. A call of [get_client] that raises leaves the world as it was:
    nothing is cached, so a later call tries again; and what it raises is
    the [ValueError] for an endpoint that is not enabled, the [ValueError]
    for a database type without an adapter class, or the exception of the
    adapter's constructor. *)
Theorem X7_get_client_failure_changes_nothing self endpoint_name w e w1 :
  get_client self endpoint_name w = (inl e, w1) ->
  w1 = w
  ∧ (e = ValueError (EndpointNotEnabled endpoint_name)
     ∨ exists cfg,
         dict_get endpoint_name (enabled_endpoints self) = Some cfg
         ∧ (e = ValueError (UnsupportedDatabaseType (db_type cfg))
            ∨ adapter_init (Adapter (db_type cfg) endpoint_name) = Some e)).
Proof. apply get_client_failure. Qed.

(** X8. A call of [get_client] that returns builds at most one adapter, and
    then the one of the class named by the [db_type] of the endpoint, for
    that endpoint; it calls no adapter, leaves the site index alone, and
    keeps every entry the cache had. *)
Theorem X8_get_client_builds_at_most_one self endpoint_name w a w1 :
  get_client self endpoint_name w = (inr a, w1) ->
  endpoint_sites_cache w1 = endpoint_sites_cache w
  ∧ (forall key a', client_cache w !! key = Some a' -> client_cache w1 !! key = Some a')
  ∧ (trace w1 = trace w
     ∨ exists cfg,
         dict_get endpoint_name (enabled_endpoints self) = Some cfg
         ∧ a = Adapter (db_type cfg) endpoint_name
         ∧ trace w1 = trace w ++ [Constructed a]).
Proof.
  intros H.
  destruct (get_client_cases self endpoint_name w)
    as [[_ H']|(cfg & Hg & [(a' & Hc & H')|[(_ & _ & H')|[(e' & _ & _ & Hi & H')|(Hc & Hk & Hi & H')]]])];
    rewrite H' in H; simplify_eq.
  - split_and!; [done|done|by left].
  - split_and!; [done| |right; eauto].
    intros key a' Hk'. simpl. rewrite lookup_insert_ne; [done|]. congruence.
Qed.

(** The database types [get_client] has an adapter class for. *)
Lemma known_db_type_cases (t : string) :
  known_db_type t = true ->
  t = "azure_ai_search" ∨ t = "milvus" ∨ t = "opensearch" ∨ t = "qdrant"
  ∨ t = "snowflake_cortex_search".
Proof.
  unfold known_db_type. intros H.
  repeat match goal with
         | H : context [String.eqb ?a ?b] |- _ => destruct (String.eqb_spec a b)
         end; simplify_eq/=; tauto.
Qed.

Lemma cache_key_inj (t1 t2 n1 n2 : string) :
  known_db_type t1 = true -> known_db_type t2 = true ->
  (t1 ++ "_" ++ n1)%string = (t2 ++ "_" ++ n2)%string ->
  t1 = t2 ∧ n1 = n2.
Proof.
  intros H1 H2 Hkey.
  apply known_db_type_cases in H1 as [->|[->|[->|[->| ->]]]];
    apply known_db_type_cases in H2 as [->|[->|[->|[->| ->]]]];
    simpl in Hkey; simplify_eq; done.
Qed.

(** X9. The cache key of [get_client] tells supported endpoints apart: two
    endpoints whose database types both have an adapter class get the same
    key only when they have the same type and the same name. *)
Theorem X9_cache_keys_are_distinct (t1 t2 n1 n2 : string) :
  known_db_type t1 = true -> known_db_type t2 = true ->
  (t1 ++ "_" ++ n1)%string = (t2 ++ "_" ++ n2)%string ->
  t1 = t2 ∧ n1 = n2.
Proof. apply cache_key_inj. Qed.

(** X10. In a world whose adapter cache is consistent, as the empty cache
    is, [get_client] returns for an endpoint of a supported database type
    the adapter of that very endpoint and type, whether it was cached or is
    built now, and the cache stays consistent. *)
Theorem X10_get_client_returns_own_adapter self endpoint_name cfg w a w1 :
  cache_consistent w ->
  dict_get endpoint_name (enabled_endpoints self) = Some cfg ->
  known_db_type (db_type cfg) = true ->
  get_client self endpoint_name w = (inr a, w1) ->
  a = Adapter (db_type cfg) endpoint_name ∧ cache_consistent w1.
Proof.
  intros Hok Hg Hk H.
  destruct (get_client_cases self endpoint_name w)
    as [[Hg' _]|(cfg' & Hg' & [(a' & Hc & H')|[(_ & _ & H')|[(e' & _ & _ & Hi & H')|(Hc & Hk' & Hi & H')]]])];
    try rewrite H' in H; simplify_eq.
  - destruct (Hok _ _ Hc) as [Hkey Hka]. split; [|done].
    destruct (cache_key_inj _ _ _ _ Hk Hka Hkey) as [Ht Hn].
    destruct a. simpl in *. by subst.
  - split; [done|]. intros key a' Hl. simpl in Hl.
    destruct (decide (key = (db_type cfg ++ "_" ++ endpoint_name)%string)) as [->|Hne].
    + rewrite lookup_insert_eq in Hl. by simplify_eq.
    + rewrite lookup_insert_ne in Hl by done. by apply Hok.
Qed.

(** *** The site index *)

(** X11. A call of [_get_endpoint_sites] never raises; what it returns is
    then in the index of the endpoint, and every later call returns it from
    there and leaves the world as it is: the adapter is asked at most once,
    and a listing that failed is not tried again. *)
Theorem X11_site_index_is_fetched_once self endpoint_name w :
  exists sites w1,
    _get_endpoint_sites self endpoint_name w = (inr sites, w1)
    ∧ endpoint_sites_cache w1 !! endpoint_name = Some sites
    ∧ _get_endpoint_sites self endpoint_name w1 = (inr sites, w1).
Proof.
  destruct (endpoint_sites_cache w !! endpoint_name) as [cached|] eqn:Hc.
  - exists cached, w.
    by rewrite (ClientFacts.get_endpoint_sites_cached _ _ self _ _ _ Hc).
  - destruct (ClientFacts.get_endpoint_sites_fresh adapter_init sites_of self _ _ Hc)
      as (w1 & H1 & Hc1).
    eexists _, w1. split_and!; [exact H1|exact Hc1|].
    by apply ClientFacts.get_endpoint_sites_cached.
Qed.

(** *** [__init__] *)

(** On a dictionary the loop of [__init__] keeps the endpoints that are
    enabled and have valid credentials, in their order. *)
Lemma collect_enabled_filter (endpoints : pydict endpoint_config) :
  is_dict endpoints ->
  collect_enabled endpoints
  = filter (fun e => enabled e.2 = true ∧ _has_valid_credentials e.1 e.2 = true)
           endpoints.
Proof.
  unfold collect_enabled, is_dict.
  assert (forall acc,
    NoDup (acc ++ endpoints).*1 ->
    fold_left (fun acc entry =>
                 if negb (enabled entry.2) then acc
                 else if _has_valid_credentials entry.1 entry.2
                      then dict_set entry.1 entry.2 acc
                      else acc) endpoints acc
    = acc ++ filter (fun e => enabled e.2 = true
                              ∧ _has_valid_credentials e.1 e.2 = true) endpoints) as H.
  { induction endpoints as [|[n c] endpoints IH]; intros acc Hnd.
    - by rewrite app_nil_r.
    - assert (NoDup (acc ++ endpoints).*1) as Hnd'.
      { rewrite fmap_app in *. simpl in Hnd.
        apply NoDup_app in Hnd as (H1 & H2 & H3). apply NoDup_cons in H3 as [_ H3].
        apply NoDup_app. split_and!; [done| |done].
        intros x Hx Hx'. apply (H2 x Hx). by right. }
      cbn [fold_left fst snd].
      destruct (enabled c) eqn:He; cbn [negb].
      + destruct (_has_valid_credentials n c) eqn:Hv.
        * rewrite filter_cons_True by done. rewrite dict_set_fresh.
          -- rewrite IH; [by rewrite <- app_assoc|].
             rewrite <- app_assoc. simpl. exact Hnd.
          -- rewrite fmap_app in Hnd. simpl in Hnd.
             apply NoDup_app in Hnd as (_ & H2 & _). intros Hin.
             apply (H2 n Hin). left.
        * rewrite filter_cons_False by (simpl; intros [_ ?]; congruence).
          by apply IH.
      + rewrite filter_cons_False by (simpl; intros [? _]; congruence).
        by apply IH. }
  intros Hnd. by rewrite (H [] Hnd).
Qed.

(** X12. A client built without an endpoint name has as its enabled
    endpoints exactly the registered endpoints that are enabled and have
    valid credentials, in the order of the configuration; its database type
    is that of the first of them and its write endpoint the configured one. *)
Theorem X12_enabled_endpoints_of_a_client (endpoint_name : option string) (c : client) :
  is_dict (retrieval_endpoints CONFIG) ->
  truthy_opt endpoint_name = false ->
  init endpoint_name = inr c ->
  enabled_endpoints c
  = filter (fun e => enabled e.2 = true ∧ _has_valid_credentials e.1 e.2 = true)
           (retrieval_endpoints CONFIG)
  ∧ client_db_type c = (fun e => db_type e.2) <$> head (enabled_endpoints c)
  ∧ client_write_endpoint c = write_endpoint CONFIG.
Proof.
  intros Hd Hn H. unfold VectorDBClient.init in H. rewrite Hn in H.
  rewrite <- (collect_enabled_filter _ Hd).
  destruct (collect_enabled (retrieval_endpoints CONFIG)) as [|first rest]; [done|].
  apply ClientFacts.validate_write_endpoint_ok in H. by subst c.
Qed.

(** X13. A client built for a registered endpoint name has that endpoint as
    its only enabled endpoint, whether or not the endpoint is enabled and
    whether or not it has valid credentials: only the validation of the
    write endpoint can make the construction fail. *)
Theorem X13_pinned_client_skips_the_checks (name : string) (cfg : endpoint_config) :
  truthy name = true ->
  dict_get name (retrieval_endpoints CONFIG) = Some cfg ->
  ¬ write_endpoint_invalid CONFIG ->
  init (Some name)
  = inr {| endpoint_name := Some name;
           client_db_type := Some (db_type cfg);
           enabled_endpoints := [(name, cfg)];
           client_write_endpoint := write_endpoint CONFIG |}.
Proof.
  intros Hn Hg Hw. unfold VectorDBClient.init. simpl. rewrite Hn, Hg.
  destruct (validate_write_endpoint CONFIG _) as [e|c'] eqn:Hv.
  - exfalso. apply Hw.
    eapply (proj1 (ClientFacts.validate_write_endpoint_fails CONFIG _)). eauto.
  - apply ClientFacts.validate_write_endpoint_ok in Hv. by subst.
Qed.

(** *** Writes *)

(** The outcome of a write through the adapter call [c]. *)
Lemma write_outcome self name w (c : adapter_call) :
  forall res w2,
    try_except
      (bind (get_client self name) (fun a => call_count count_of a c))
      (fun e => raise e) w = (res, w2) ->
    (exists e, res = inl e ∧ w2 = w)
    ∨ (exists a w1,
         get_client self name w = (inr a, w1)
         ∧ res = count_of a c
         ∧ client_cache w2 = client_cache w1
         ∧ endpoint_sites_cache w2 = endpoint_sites_cache w1
         ∧ trace w2 = trace w1 ++ [Called a c]).
Proof.
  intros res w2. unfold try_except, bind, call_count, raise.
  destruct (get_client self name w) as [[e|a] w1] eqn:Hc.
  - intros [= <- <-]. left. exists e. split; [done|].
    by destruct (get_client_failure _ _ _ _ _ Hc).
  - intros H. right. exists a, w1. split; [done|].
    destruct (count_of a c); by simplify_eq.
Qed.


(** *** [search] *)

Local Abbreviation create_task := (create_task adapter_init sites_of).
Local Abbreviation success := (success rows_of).

Lemma setup_from_refl w : setup_from w w.
Proof. exists []. by rewrite app_nil_r. Qed.

Lemma setup_from_trans w1 w2 w3 :
  setup_from w1 w2 -> setup_from w2 w3 -> setup_from w1 w3.
Proof.
  intros (e1 & H1 & F1) (e2 & H2 & F2). exists (e1 ++ e2).
  split; [by rewrite H2, H1, <- app_assoc|]. by apply Forall_app.
Qed.

Lemma get_client_setup self endpoint_name w res w1 :
  get_client self endpoint_name w = (res, w1) -> setup_from w w1.
Proof.
  intros H.
  destruct (get_client_cases self endpoint_name w)
    as [[_ Hg]|(cfg & _ & [(a & _ & Hg)|[(_ & _ & Hg)|[(e & _ & _ & _ & Hg)|(_ & _ & _ & Hg)]]])];
    rewrite Hg in H; simplify_eq; try apply setup_from_refl.
  eexists. split; [reflexivity|]. by repeat constructor.
Qed.

Lemma get_endpoint_sites_setup self endpoint_name w res w1 :
  _get_endpoint_sites self endpoint_name w = (res, w1) -> setup_from w w1.
Proof.
  unfold VectorDBClient._get_endpoint_sites.
  destruct (endpoint_sites_cache w !! endpoint_name); [intros [= <- <-]; apply setup_from_refl|].
  unfold try_except, bind.
  destruct (get_client self endpoint_name w) as [[e|a] w0] eqn:Hc;
    apply get_client_setup in Hc as (evs & Hevs & Hall); simpl.
  - intros [= <- <-]. by exists evs.
  - assert (Forall is_setup (evs ++ [Called a GetSites])) as Hall'
      by (apply Forall_app; split; [done|by repeat constructor]).
    destruct (sites_of a) as [e|[sites|]]; simpl; intros [= <- <-];
      exists (evs ++ [Called a GetSites]); simpl; by rewrite Hevs, <- app_assoc.
Qed.

Lemma endpoint_has_site_setup self endpoint_name site w res w1 :
  _endpoint_has_site self endpoint_name site w = (res, w1) -> setup_from w w1.
Proof.
  unfold VectorDBClient._endpoint_has_site.
  destruct (site_is site "all"); [intros [= <- <-]; apply setup_from_refl|].
  unfold bind.
  destruct (_get_endpoint_sites self endpoint_name w) as [[e|sites] w0] eqn:Hs;
    apply get_endpoint_sites_setup in Hs.
  - by intros [= <- <-].
  - destruct sites as [[|x sites]|]; by intros [= <- <-].
Qed.

Lemma create_task_setup self query site num_results tasks endpoint_name w res w1 :
  create_task self query site num_results tasks endpoint_name w = (res, w1) ->
  setup_from w w1.
Proof.
  unfold VectorDBClient.create_task, try_except, bind.
  destruct (_endpoint_has_site self endpoint_name site w) as [[e|has] w0] eqn:Hs;
    apply endpoint_has_site_setup in Hs.
  - by intros [= <- <-].
  - destruct has; simpl.
    + destruct (get_client self endpoint_name w0) as [[e|a] w2] eqn:Hc;
        apply get_client_setup in Hc; intros [= <- <-];
        by apply (setup_from_trans _ w0).
    + by intros [= <- <-].
Qed.

Lemma create_tasks_setup self query site num_results names tasks w res w1 :
  create_tasks self query site num_results tasks names w = (res, w1) ->
  setup_from w w1.
Proof.
  revert tasks w. induction names as [|name names IH]; intros tasks w.
  - intros [= <- <-]. apply setup_from_refl.
  - cbn [VectorDBClient.create_tasks]. unfold bind.
    destruct (create_task self query site num_results tasks name w)
      as [[e|tasks'] w0] eqn:Hc; apply create_task_setup in Hc.
    + by intros [= <- <-].
    + intros H. apply IH in H. by apply (setup_from_trans _ w0).
Qed.

(** A search, once its tasks are dispatched. *)
Lemma search_outcome self query site num_results w :
  is_dict (enabled_endpoints self) ->
  exists tasks w1,
    create_tasks self query site num_results [] (enabled_endpoints self).*1 w
    = (inr tasks, w1)
    ∧ tasks.*1.*1 `sublist_of` (enabled_endpoints self).*1
    ∧ Forall (fun t => t.2 = search_call query site num_results) tasks
    ∧ search self query site num_results w
      = (match tasks, omap success tasks with
         | [], _ => inl (ValueError NoValidEndpoints)
         | _ :: _, [] => inl (ValueError AllSearchesFailed)
         | _ :: _, (_ :: _) as endpoint_results =>
             inr (slice_to (Aggregate._aggregate_results merge_json_array
                              json_dumps endpoint_results) num_results)
         end,
         World (client_cache w1) (endpoint_sites_cache w1)
               (trace w1 ++ calls_of tasks)).
Proof.
  intros Hd.
  destruct (ClientFacts.create_tasks_spec adapter_init sites_of self query site
              num_results (enabled_endpoints self).*1 [] w)
    as (tasks & w1 & Hct & Hsub & Hcalls).
  simpl in Hct. exists tasks, w1. split_and!; [done..|].
  unfold VectorDBClient.search, bind. rewrite Hct.
  destruct tasks as [|t tasks].
  { unfold raise, calls_of. simpl. rewrite app_nil_r. by destruct w1. }
  rewrite ClientFacts.gather_spec, ClientFacts.collect_results_spec.
  2:{ exact (sublist_NoDup _ _ Hd Hsub). }
  unfold calls_of. by destruct (omap success (t :: tasks)).
Qed.

(** *** The adapters that a search calls *)

Lemma cache_consistent_ext w w' :
  client_cache w' = client_cache w -> cache_consistent w -> cache_consistent w'.
Proof. intros Heq H key a. rewrite Heq. apply H. Qed.

Lemma get_client_consistent self endpoint_name w res w1 :
  cache_consistent w -> get_client self endpoint_name w = (res, w1) -> cache_consistent w1.
Proof.
  intros Hok H.
  destruct (get_client_cases self endpoint_name w)
    as [[_ H']|(cfg & Hg & [(a' & Hc & H')|[(_ & _ & H')|[(e' & _ & _ & Hi & H')|(Hc & Hk & Hi & H')]]])];
    rewrite H' in H; simplify_eq; try done.
  intros key a' Hl. simpl in Hl.
  destruct (decide (key = (db_type cfg ++ "_" ++ endpoint_name)%string)) as [->|Hne].
  - rewrite lookup_insert_eq in Hl. by simplify_eq.
  - rewrite lookup_insert_ne in Hl by done. by apply Hok.
Qed.

Lemma get_client_own self endpoint_name w a w1 :
  cache_consistent w -> supported self ->
  get_client self endpoint_name w = (inr a, w1) ->
  own_adapter self endpoint_name = Some a.
Proof.
  intros Hok Hsup H. unfold own_adapter.
  destruct (get_client_cases self endpoint_name w)
    as [[_ H']|(cfg & Hg & [(a' & Hc & H')|[(_ & _ & H')|[(e' & _ & _ & Hi & H')|(Hc & Hk & Hi & H')]]])];
    rewrite H' in H; simplify_eq; rewrite Hg; simpl; [|done].
  destruct (Hok _ _ Hc) as [Hkey Hka].
  assert (known_db_type (db_type cfg) = true) as Hk.
  { unfold supported in Hsup. rewrite Forall_forall in Hsup.
    exact (Hsup _ (dict_get_Some _ _ _ Hg)). }
  destruct (cache_key_inj _ _ _ _ Hk Hka Hkey) as [Ht Hn].
  destruct a. simpl in *. by subst.
Qed.

Lemma get_endpoint_sites_consistent self endpoint_name w res w1 :
  cache_consistent w -> _get_endpoint_sites self endpoint_name w = (res, w1) ->
  cache_consistent w1.
Proof.
  intros Hok. unfold VectorDBClient._get_endpoint_sites.
  destruct (endpoint_sites_cache w !! endpoint_name); [by intros [= <- <-]|].
  unfold try_except, bind.
  destruct (get_client self endpoint_name w) as [[e|a] w0] eqn:Hc;
    apply (get_client_consistent _ _ _ _ _ Hok) in Hc; simpl.
  - intros [= <- <-]. by apply (cache_consistent_ext w0).
  - destruct (sites_of a) as [e|[sites|]]; simpl; intros [= <- <-];
      by apply (cache_consistent_ext w0).
Qed.

Lemma endpoint_has_site_consistent self endpoint_name site w res w1 :
  cache_consistent w -> _endpoint_has_site self endpoint_name site w = (res, w1) ->
  cache_consistent w1.
Proof.
  intros Hok. unfold VectorDBClient._endpoint_has_site.
  destruct (site_is site "all"); [by intros [= <- <-]|].
  unfold bind.
  destruct (_get_endpoint_sites self endpoint_name w) as [[e|sites] w0] eqn:Hs;
    apply (get_endpoint_sites_consistent _ _ _ _ _ Hok) in Hs.
  - by intros [= <- <-].
  - destruct sites as [[|x sites]|]; by intros [= <- <-].
Qed.

(** An iteration of the dispatch loop, from a consistent cache: the task it
    adds is for the adapter of the endpoint. *)
Lemma create_task_own self query site num_results tasks endpoint_name w :
  cache_consistent w -> supported self ->
  exists new w',
    create_task self query site num_results tasks endpoint_name w
    = (inr (tasks ++ new), w')
    ∧ cache_consistent w'
    ∧ (new = []
       ∨ exists a, own_adapter self endpoint_name = Some a
                   ∧ new = [(endpoint_name, a, search_call query site num_results)]).
Proof.
  intros Hok Hsup. unfold VectorDBClient.create_task, try_except, bind.
  destruct (_endpoint_has_site self endpoint_name site w) as [[e|has] w0] eqn:Hs;
    apply (endpoint_has_site_consistent _ _ _ _ _ _ Hok) in Hs.
  - exists [], w0. rewrite app_nil_r. unfold ret. eauto.
  - destruct has; simpl.
    + destruct (get_client self endpoint_name w0) as [[e|a] w2] eqn:Hc.
      * exists [], w2. rewrite app_nil_r. unfold ret.
        split_and!; [done| |by left]. by apply (get_client_consistent _ _ _ _ _ Hs Hc).
      * exists [(endpoint_name, a, search_call query site num_results)], w2. unfold ret.
        split_and!; [done| |right].
        -- by apply (get_client_consistent _ _ _ _ _ Hs Hc).
        -- exists a. split; [|done]. by apply (get_client_own _ _ _ _ _ Hs Hsup Hc).
    + exists [], w0. rewrite app_nil_r. unfold ret. eauto.
Qed.

Lemma create_tasks_own self query site num_results names tasks w :
  cache_consistent w -> supported self ->
  exists new w',
    create_tasks self query site num_results tasks names w = (inr (tasks ++ new), w')
    ∧ Forall (fun t => own_adapter self t.1.1 = Some t.1.2) new.
Proof.
  intros Hok Hsup. revert tasks w Hok.
  induction names as [|name names IH]; intros tasks w Hok.
  - exists [], w. rewrite app_nil_r. by split.
  - cbn [VectorDBClient.create_tasks]. unfold bind.
    destruct (create_task_own self query site num_results tasks name w Hok Hsup)
      as (new1 & w1 & -> & Hok1 & Hnew1).
    destruct (IH (tasks ++ new1) w1 Hok1) as (new2 & w2 & -> & Hown).
    exists (new1 ++ new2), w2. rewrite app_assoc. split; [done|].
    apply Forall_app. split; [|done].
    destruct Hnew1 as [->|(a & Ha & ->)]; [done|]. by repeat constructor.
Qed.

(** The tasks of a search from a consistent cache are for the adapters of
    their endpoints, so that no adapter is called twice. *)
Lemma tasks_own self query site num_results w tasks w1 :
  cache_consistent w -> supported self ->
  create_tasks self query site num_results [] (enabled_endpoints self).*1 w
  = (inr tasks, w1) ->
  Forall (fun t => own_adapter self t.1.1 = Some t.1.2) tasks.
Proof.
  intros Hok Hsup Hct.
  destruct (create_tasks_own self query site num_results
              (enabled_endpoints self).*1 [] w Hok Hsup) as (new & w' & Hct' & Hown).
  rewrite Hct in Hct'. by simplify_eq/=.
Qed.

Lemma own_adapter_endpoint self endpoint_name a :
  own_adapter self endpoint_name = Some a -> adapter_endpoint a = endpoint_name.
Proof.
  unfold own_adapter. destruct (dict_get _ _); [|done]. by intros [= <-].
Qed.

Lemma calls_of_NoDup self (tasks : list task) :
  Forall (fun t => own_adapter self t.1.1 = Some t.1.2) tasks ->
  NoDup tasks.*1.*1 -> NoDup (calls_of tasks).
Proof.
  intros Hown Hnd.
  apply (NoDup_fmap_1 (fun ev => match ev with
                                 | Called a _ => adapter_endpoint a
                                 | Constructed a => adapter_endpoint a
                                 end)).
  unfold calls_of. rewrite <- list_fmap_compose.
  replace ((fun ev => match ev with
                      | Called a _ => adapter_endpoint a
                      | Constructed a => adapter_endpoint a
                      end) ∘ (fun t : task => Called t.1.2 t.2) <$> tasks)
    with tasks.*1.*1; [done|].
  rewrite <- list_fmap_compose. apply Forall_fmap_ext_1.
  eapply Forall_impl; [exact Hown|]. intros t Ht. simpl.
  symmetry. by apply (own_adapter_endpoint self).
Qed.

Lemma success_names (tasks : list task) :
  (omap success tasks).*1 `sublist_of` tasks.*1.*1.
Proof.
  induction tasks as [|[[name a] c] tasks IH]; [done|].
  rewrite ClientFacts.omap_success_cons. destruct (rows_of a c); csimpl.
  - by apply sublist_cons.
  - by apply sublist_skip.
Qed.

Lemma elem_of_concat_list {A} (x : A) (ls : list (list A)) :
  x ∈ concat ls <-> exists l, l ∈ ls ∧ x ∈ l.
Proof.
  rewrite list_elem_of_In, in_concat. split; intros (l & H1 & H2); exists l;
    by rewrite ?list_elem_of_In in *.
Qed.

Lemma urls_take (rows : list row) (k : nat) : NoDup (urls rows) -> NoDup (urls (take k rows)).
Proof.
  intros H. rewrite <- (take_drop k rows) in H. unfold urls in *.
  rewrite omap_app in H. by apply NoDup_app in H as [? _].
Qed.

(** X15. What a search returns, when it returns, from a consistent adapter
    cache and for enabled endpoints of supported database types: at most
    [num_results] rows (for a limit that is not negative), each of four
    fields, with URLs that are not empty and pairwise distinct, and each URL
    is that of a row found by an enabled endpoint whose search succeeded:
    the adapter of that endpoint, of the class its [db_type] names, returned
    the row for the call of this search. *)
Theorem X15_search_result_shape self query site num_results w rows w2 :
  is_dict (enabled_endpoints self) ->
  cache_consistent w ->
  supported self ->
  (0 <= num_results)%Z ->
  search self query site num_results w = (inr rows, w2) ->
  length rows <= Z.to_nat num_results
  ∧ NoDup (urls rows)
  ∧ forall r, r ∈ rows ->
      length r = 4 ∧ head r ≠ Some ""
      ∧ exists endpoint_name cfg found r0,
          dict_get endpoint_name (enabled_endpoints self) = Some cfg
          ∧ rows_of (Adapter (db_type cfg) endpoint_name)
                    (search_call query site num_results) = inr found
          ∧ r0 ∈ found ∧ head r0 = head r.
Proof.
  intros Hd Hok Hsup Hn Hs.
  destruct (search_outcome self query site num_results w Hd)
    as (tasks & w1 & Hct & Hsub & Hcalls & Hs').
  pose proof (tasks_own _ _ _ _ _ _ _ Hok Hsup Hct) as Hown.
  rewrite Hs' in Hs. clear Hs'.
  destruct tasks as [|t tasks]; [done|].
  destruct (omap success (t :: tasks)) as [|er0 er] eqn:Her; [done|].
  injection Hs as <- <-. rewrite <- Her. clear er0 er Her.
  set (tasks' := t :: tasks) in *.
  assert (is_dict (omap success tasks')) as Hd'.
  { unfold is_dict. eapply sublist_NoDup; [|apply success_names].
    eapply sublist_NoDup; [exact Hd|exact Hsub]. }
  unfold slice_to. rewrite (proj2 (Z.leb_le 0 num_results) Hn).
  split_and!.
  - rewrite length_take. lia.
  - apply urls_take. by apply AggregateFacts.aggregate_urls_NoDup.
  - intros r Hr. apply elem_of_take in Hr as (i & Hr & _).
    apply list_elem_of_lookup_2 in Hr.
    apply (AggregateFacts.aggregate_elem merge_json_array json_dumps _ r Hd') in Hr
      as (u & d & Hne & (r0 & Hr0 & Hh) & Hfp & ->).
    pose proof (AggregateFacts.first_pass_Some merge_json_array json_dumps _ _ _ Hfp)
      as (Hurl & _).
    split; [done|]. split.
    { simpl. rewrite Hurl. congruence. }
    apply elem_of_concat_list in Hr0 as (found & Hfound & Hr0).
    apply list_elem_of_fmap in Hfound as ([name found'] & -> & Hin).
    apply list_elem_of_omap in Hin as ([[name' a] c] & Ht & Hsucc).
    unfold VectorDBClient.success in Hsucc. simpl in Hsucc.
    destruct (rows_of a c) as [e|found''] eqn:Hrows; [done|].
    injection Hsucc as <- <-.
    rewrite Forall_forall in Hcalls. pose proof (Hcalls _ Ht) as Hc. simpl in Hc.
    rewrite Forall_forall in Hown. pose proof (Hown _ Ht) as Ha. simpl in Ha.
    unfold own_adapter in Ha.
    destruct (dict_get name' (enabled_endpoints self)) as [cfg|] eqn:Hcfg; [|done].
    injection Ha as <-.
    simpl in Hr0. subst c. exists name', cfg, found'', r0. split_and!; [done..|].
    simpl. rewrite Hurl. by rewrite Hh.
Qed.

(** X16. The adapter events of a search, whether it returns or raises, from
    a consistent adapter cache and for enabled endpoints of supported
    database types: setup events, adapters built and asked for their sites,
    and one search call for every dispatched task, on the adapter of the
    task's endpoint. The tasks are for distinct enabled endpoints, so no
    endpoint and no adapter is searched twice, and nothing else is called.
    The events are counted, not ordered: a task may start while the dispatch
    loop is still at a later endpoint. *)
Theorem X16_search_calls_each_endpoint_at_most_once self query site num_results w res w2 :
  is_dict (enabled_endpoints self) ->
  cache_consistent w ->
  supported self ->
  search self query site num_results w = (res, w2) ->
  exists added setup (tasks : list task),
    trace w2 = trace w ++ added
    ∧ added ≡ₚ setup ++ calls_of tasks
    ∧ Forall is_setup setup
    ∧ tasks.*1.*1 `sublist_of` (enabled_endpoints self).*1
    ∧ NoDup tasks.*1.*1
    ∧ Forall (fun t => own_adapter self t.1.1 = Some t.1.2
                       ∧ t.2 = search_call query site num_results) tasks
    ∧ NoDup (calls_of tasks).
Proof.
  intros Hd Hok Hsup Hs.
  destruct (search_outcome self query site num_results w Hd)
    as (tasks & w1 & Hct & Hsub & Hcalls & Hs').
  pose proof (tasks_own _ _ _ _ _ _ _ Hok Hsup Hct) as Hown.
  rewrite Hs' in Hs. injection Hs as _ <-.
  apply create_tasks_setup in Hct as (setup & Htr & Hall).
  assert (NoDup tasks.*1.*1) as Hnd by exact (sublist_NoDup _ _ Hd Hsub).
  exists (setup ++ calls_of tasks), setup, tasks. split_and!; [|done..| |].
  - simpl. by rewrite Htr, <- app_assoc.
  - apply Forall_forall. intros t Ht. rewrite Forall_forall in Hown, Hcalls. eauto.
  - by apply (calls_of_NoDup self).
Qed.

(** The dispatch loop at an endpoint for which the world is warm. *)
Lemma create_task_warm self query site num_results tasks endpoint_name w :
  is_Some (warm_entry self w endpoint_name) ->
  create_task self query site num_results tasks endpoint_name w
  = (inr (tasks ++ option_list (warm_task self w query site num_results endpoint_name)), w).
Proof.
  intros [[a index] Hw]. unfold warm_task. rewrite Hw.
  unfold warm_entry in Hw.
  destruct (dict_get endpoint_name (enabled_endpoints self)) as [cfg|] eqn:Hcfg; [|done].
  destruct (client_cache w !! _) as [a'|] eqn:Ha; [|done].
  destruct (endpoint_sites_cache w !! endpoint_name) as [index'|] eqn:Hi; [|done].
  injection Hw as -> ->.
  assert (get_client self endpoint_name w = (inr a, w)) as Hg.
  { unfold VectorDBClient.get_client. by rewrite Hcfg, Ha. }
  unfold VectorDBClient.create_task, try_except, bind, eligible.
  destruct (site_is site "all") eqn:Hall.
  - unfold VectorDBClient._endpoint_has_site. rewrite Hall. unfold ret at 1.
    simpl. by rewrite Hg.
  - rewrite (ClientFacts.endpoint_has_site_cached adapter_init sites_of
               _ _ _ _ _ Hall Hi). simpl.
    destruct index as [sites|]; simpl.
    + destruct (existsb _ _); simpl; [by rewrite Hg|].
      unfold ret. by rewrite app_nil_r.
    + by rewrite Hg.
Qed.

Lemma create_tasks_warm self query site num_results names tasks w :
  (forall name, name ∈ names -> is_Some (warm_entry self w name)) ->
  create_tasks self query site num_results tasks names w
  = (inr (tasks ++ omap (warm_task self w query site num_results) names), w).
Proof.
  revert tasks. induction names as [|name names IH]; intros tasks Hw.
  - simpl. unfold ret. by rewrite app_nil_r.
  - cbn [VectorDBClient.create_tasks]. unfold bind.
    rewrite create_task_warm by (apply Hw; left).
    rewrite IH by (intros n Hn; apply Hw; by right).
    rewrite <- app_assoc. csimpl.
    by destruct (warm_task self w query site num_results name).
Qed.

(** X17. A search in a world that is warm for the client, one that holds the
    adapter and the site index of every enabled endpoint, builds no adapter
    and lists no sites: it leaves both caches as they are and calls exactly
    the endpoints that are eligible for the site filter, each once and in
    the order of the enabled endpoints; and it raises "No valid endpoints"
    exactly when no endpoint is eligible. *)
Theorem X17_warm_search_calls_the_eligible_endpoints self query site num_results w :
  is_dict (enabled_endpoints self) ->
  (forall name, name ∈ (enabled_endpoints self).*1 ->
     is_Some (warm_entry self w name)) ->
  exists res,
    search self query site num_results w
    = (res,
       World (client_cache w) (endpoint_sites_cache w)
             (trace w
              ++ calls_of (omap (warm_task self w query site num_results)
                                (enabled_endpoints self).*1)))
    ∧ (res = inl (ValueError NoValidEndpoints)
       <-> omap (warm_task self w query site num_results)
                (enabled_endpoints self).*1 = []).
Proof.
  intros Hd Hw.
  destruct (search_outcome self query site num_results w Hd)
    as (tasks & w1 & Hct & _ & _ & Hs).
  rewrite (create_tasks_warm _ _ _ _ _ [] _ Hw) in Hct. simpl in Hct.
  injection Hct as <- <-. rewrite Hs. eexists. split; [reflexivity|].
  destruct (omap _ _) as [|t tasks]; [done|].
  destruct (omap success (t :: tasks)); split; done.
Qed.

End ClientMore.

(** *** The properties at the sample client *)

Lemma is_dict_sample_client : is_dict (enabled_endpoints Samples.sample_client).
Proof. apply (bool_decide_unpack _). vm_compute. reflexivity. Qed.

Lemma sample_build :
  get_client Samples.sample_init Samples.sample_client "E1" Samples.fresh_world
  = (inr ClientSamples.e1_adapter, ClientSamples.built_world).
Proof. vm_compute. reflexivity. Qed.

(** X6 at the sample client: the adapter of [E1] once built. *)
Lemma X6_witness :
  get_client Samples.sample_init Samples.sample_client "E1" Samples.fresh_world
  = (inr ClientSamples.e1_adapter, ClientSamples.built_world)
  ∧ get_client Samples.sample_init Samples.sample_client "E1" ClientSamples.built_world
    = (inr ClientSamples.e1_adapter, ClientSamples.built_world).
Proof.
  split; [exact sample_build|].
  exact (X6_get_client_is_cached Samples.sample_init Samples.sample_client "E1"
           Samples.fresh_world _ _ sample_build).
Defined.

(** X7 at the sample client: the endpoint [W] is not enabled. *)
Lemma X7_witness :
  get_client Samples.sample_init Samples.sample_client "W" Samples.fresh_world
  = (inl (ValueError (EndpointNotEnabled "W")), Samples.fresh_world)
  ∧ Samples.fresh_world = Samples.fresh_world.
Proof.
  assert (get_client Samples.sample_init Samples.sample_client "W" Samples.fresh_world
          = (inl (ValueError (EndpointNotEnabled "W")), Samples.fresh_world)) as H
    by (vm_compute; reflexivity).
  split; [exact H|].
  exact (proj1 (X7_get_client_failure_changes_nothing Samples.sample_init
                  Samples.sample_client "W" Samples.fresh_world _ _ H)).
Defined.

(** X8 at the sample client: building the adapter of [E1]. *)
Lemma X8_witness :
  get_client Samples.sample_init Samples.sample_client "E1" Samples.fresh_world
  = (inr ClientSamples.e1_adapter, ClientSamples.built_world)
  ∧ endpoint_sites_cache ClientSamples.built_world
    = endpoint_sites_cache Samples.fresh_world.
Proof.
  split; [exact sample_build|].
  exact (proj1 (X8_get_client_builds_at_most_one Samples.sample_init
                  Samples.sample_client "E1" Samples.fresh_world _ _ sample_build)).
Defined.

(** X9 at the key of the [qdrant] endpoint [E2]. *)
Lemma X9_witness :
  known_db_type "qdrant" = true
  ∧ ("qdrant" ++ "_" ++ "E2")%string = ("qdrant" ++ "_" ++ "E2")%string
  ∧ "qdrant" = "qdrant" ∧ "E2" = "E2".
Proof.
  split; [reflexivity|]. split; [reflexivity|].
  exact (X9_cache_keys_are_distinct "qdrant" "qdrant" "E2" "E2"
           eq_refl eq_refl eq_refl).
Defined.

Lemma fresh_world_consistent : cache_consistent Samples.fresh_world.
Proof. intros key a H. simpl in H. by rewrite lookup_empty in H. Qed.

(** X10 at the sample client, from the empty cache. *)
Lemma X10_witness :
  cache_consistent Samples.fresh_world
  ∧ ClientSamples.e1_adapter = Adapter (db_type Samples.azure) "E1"
  ∧ cache_consistent ClientSamples.built_world.
Proof.
  split; [exact fresh_world_consistent|].
  exact (X10_get_client_returns_own_adapter Samples.sample_init Samples.sample_client
           "E1" Samples.azure Samples.fresh_world _ _
           fresh_world_consistent eq_refl eq_refl sample_build).
Defined.

Lemma is_dict_sample_config : is_dict (retrieval_endpoints Samples.sample_config).
Proof. apply (bool_decide_unpack _). vm_compute. reflexivity. Qed.

Lemma sample_write_endpoint_valid : ¬ write_endpoint_invalid Samples.sample_config.
Proof.
  intros [_ [H|(cfg & H1 & H2)]]; [by vm_compute in H|].
  vm_compute in H1. injection H1 as <-. by vm_compute in H2.
Qed.

(** X12 at the sample configuration: [E1] and [E2] are kept, [W] is not
    enabled. *)
Lemma X12_witness :
  is_dict (retrieval_endpoints Samples.sample_config)
  ∧ init Samples.sample_config None = inr Samples.sample_client
  ∧ enabled_endpoints Samples.sample_client
    = filter (fun e => enabled e.2 = true ∧ _has_valid_credentials e.1 e.2 = true)
             (retrieval_endpoints Samples.sample_config).
Proof.
  assert (init Samples.sample_config None = inr Samples.sample_client) as H
    by (vm_compute; reflexivity).
  split; [exact is_dict_sample_config|]. split; [exact H|].
  exact (proj1 (X12_enabled_endpoints_of_a_client Samples.sample_config None
                  Samples.sample_client is_dict_sample_config eq_refl H)).
Defined.

(** X13 at the sample configuration: a client pinned to [W], which is not
    enabled. *)
Lemma X13_witness :
  ¬ write_endpoint_invalid Samples.sample_config
  ∧ init Samples.sample_config (Some "W") = inr ClientSamples.pinned_client.
Proof.
  split; [exact sample_write_endpoint_valid|].
  exact (X13_pinned_client_skips_the_checks Samples.sample_config "W"
           Samples.qdrant_local eq_refl eq_refl sample_write_endpoint_valid).
Defined.

Lemma sample_client_supported : supported Samples.sample_client.
Proof. unfold supported. by repeat constructor. Qed.

(** X15 at the sample client: [E1] answers with one row, [E2] fails. *)
Lemma X15_witness :
  is_dict (enabled_endpoints Samples.sample_client)
  ∧ cache_consistent Samples.fresh_world
  ∧ supported Samples.sample_client
  ∧ exists rows w2,
      search JsonSamples.sample_merge JsonSamples.sample_dumps Samples.sample_init
        Samples.sample_sites Samples.sample_rows Samples.sample_client
        "query" (SiteStr "siteX") 10 Samples.fresh_world = (inr rows, w2)
      ∧ length rows <= Z.to_nat 10
      ∧ NoDup (urls rows).
Proof.
  split; [exact is_dict_sample_client|]. split; [exact fresh_world_consistent|].
  split; [exact sample_client_supported|].
  eexists _, _. split; [vm_compute; reflexivity|].
  assert (0 <= 10)%Z as Hn by lia.
  pose proof (X15_search_result_shape JsonSamples.sample_merge JsonSamples.sample_dumps
                Samples.sample_init Samples.sample_sites Samples.sample_rows
                Samples.sample_client "query" (SiteStr "siteX") 10
                Samples.fresh_world _ _ is_dict_sample_client fresh_world_consistent
                sample_client_supported Hn eq_refl)
    as (Hlen & Hnd & _).
  split; [exact Hlen|exact Hnd].
Defined.

(** X16 at the sample client. *)
Lemma X16_witness :
  is_dict (enabled_endpoints Samples.sample_client)
  ∧ cache_consistent Samples.fresh_world
  ∧ supported Samples.sample_client
  ∧ exists res w2 added setup (tasks : list task),
      search JsonSamples.sample_merge JsonSamples.sample_dumps Samples.sample_init
        Samples.sample_sites Samples.sample_rows Samples.sample_client
        "query" (SiteStr "siteX") 10 Samples.fresh_world = (res, w2)
      ∧ trace w2 = trace Samples.fresh_world ++ added
      ∧ added ≡ₚ setup ++ calls_of tasks
      ∧ Forall is_setup setup
      ∧ NoDup tasks.*1.*1
      ∧ Forall (fun t => own_adapter Samples.sample_client t.1.1 = Some t.1.2) tasks
      ∧ NoDup (calls_of tasks).
Proof.
  split; [exact is_dict_sample_client|]. split; [exact fresh_world_consistent|].
  split; [exact sample_client_supported|].
  destruct (search JsonSamples.sample_merge JsonSamples.sample_dumps Samples.sample_init
              Samples.sample_sites Samples.sample_rows Samples.sample_client
              "query" (SiteStr "siteX") 10 Samples.fresh_world) as [res w2] eqn:Hs.
  destruct (X16_search_calls_each_endpoint_at_most_once JsonSamples.sample_merge
              JsonSamples.sample_dumps Samples.sample_init Samples.sample_sites
              Samples.sample_rows Samples.sample_client "query" (SiteStr "siteX") 10
              Samples.fresh_world res w2 is_dict_sample_client fresh_world_consistent
              sample_client_supported Hs)
    as (added & setup & tasks & Htr & Hperm & Hall & _ & Hnd & Hown & Hcalls).
  exists res, w2, added, setup, tasks.
  split_and!; [reflexivity|exact Htr|exact Hperm|exact Hall|exact Hnd| |exact Hcalls].
  eapply Forall_impl; [exact Hown|]. by intros t [Ht _].
Defined.

Lemma warm_world_is_warm name :
  name ∈ (enabled_endpoints Samples.sample_client).*1 ->
  is_Some (warm_entry Samples.sample_client ClientSamples.warm_world name).
Proof.
  intros H. change (name ∈ ["E1"; "E2"]) in H.
  apply elem_of_cons in H as [->|H]; [vm_compute; eauto|].
  apply list_elem_of_singleton in H as ->. vm_compute; eauto.
Qed.

(** X17 at the sample client in the warm world: of [E1], which lists
    [siteX], and [E2], which lists [siteY], a search for [siteY] calls [E2]
    only. *)
Lemma X17_witness :
  is_dict (enabled_endpoints Samples.sample_client)
  ∧ exists res,
      search JsonSamples.sample_merge JsonSamples.sample_dumps Samples.sample_init
        Samples.sample_sites Samples.sample_rows Samples.sample_client
        "query" (SiteStr "siteY") 10 ClientSamples.warm_world
      = (res,
         World (client_cache ClientSamples.warm_world)
               (endpoint_sites_cache ClientSamples.warm_world)
               [Called ClientSamples.e2_adapter (Search "query" (SiteStr "siteY") 10)]).
Proof.
  split; [exact is_dict_sample_client|].
  destruct (X17_warm_search_calls_the_eligible_endpoints JsonSamples.sample_merge
              JsonSamples.sample_dumps Samples.sample_init Samples.sample_sites
              Samples.sample_rows Samples.sample_client "query" (SiteStr "siteY") 10
              ClientSamples.warm_world is_dict_sample_client warm_world_is_warm)
    as (res & Hs & _).
  exists res. rewrite Hs. f_equal.
Defined.

End ClientMore.

(** ** Deduplication by URL *)

Module DeduplicateFacts.
Import Deduplicate.

Lemma first_occurrences_snoc (l : list string) (x : string) :
  first_occurrences (l ++ [x])
  = if bool_decide (x ∈ l) then first_occurrences l else first_occurrences l ++ [x].
Proof.
  induction l as [|y l IH]; [done|].
  cbn [app first_occurrences]. rewrite IH.
  destruct (decide (x = y)) as [->|Hne].
  - rewrite (bool_decide_eq_true_2 (y ∈ y :: l)) by left.
    case_bool_decide; [done|].
    rewrite filter_app, filter_cons_False by naive_solver.
    by rewrite filter_nil, app_nil_r.
  - case_bool_decide as Hin.
    + by rewrite bool_decide_eq_true_2 by (by right).
    + rewrite bool_decide_eq_false_2 by (rewrite elem_of_cons; tauto).
      rewrite filter_app, filter_cons_True by done. by rewrite filter_nil.
Qed.

Lemma dict_get_set {V} (k k' : string) (v : V) (d : pydict V) :
  dict_get k (dict_set k' v d) = if String.eqb k k' then Some v else dict_get k d.
Proof.
  induction d as [|[k0 v0] d IH]; simpl.
  - by destruct (String.eqb_spec k k').
  - destruct (String.eqb_spec k' k0) as [->|Hne]; simpl.
    + destruct (String.eqb_spec k k0); done.
    + rewrite IH. destruct (String.eqb_spec k k0) as [->|]; [|done].
      by destruct (String.eqb_spec k0 k') as [->|].
Qed.

Lemma dict_set_keys {V} (k : string) (v : V) (d : pydict V) :
  k ∈ d.*1 -> (dict_set k v d).*1 = d.*1.
Proof.
  induction d as [|[k0 v0] d IH]; simpl; [by intros ?%elem_of_nil|].
  intros Hin. destruct (String.eqb_spec k k0) as [->|Hne]; [done|].
  simpl. f_equal. apply IH. apply elem_of_cons in Hin as [?|?]; done.
Qed.

Lemma dict_get_elem {V} (k : string) (v : V) (d : pydict V) :
  is_dict d -> (k, v) ∈ d -> dict_get k d = Some v.
Proof.
  unfold is_dict. induction d as [|[k0 v0] d IH]; simpl; [by intros _ ?%elem_of_nil|].
  intros [Hk Hnd]%NoDup_cons Hin.
  apply elem_of_cons in Hin as [[= -> ->]|Hin].
  - by rewrite String.eqb_refl.
  - destruct (String.eqb_spec k k0) as [->|_]; [|by apply IH].
    exfalso. apply Hk. apply list_elem_of_fmap. by exists (k0, v).
Qed.

Lemma wide_head (r : row) : wide r -> head r = Some (default "" (head r)).
Proof. destruct r; [|done]. unfold wide. simpl. lia. Qed.

Lemma urls_filter_snoc (rows : list row) (r : row) :
  urls (filter wide (rows ++ [r]))
  = urls (filter wide rows) ++ (if decide (wide r) then [default "" (head r)] else []).
Proof.
  rewrite filter_app. unfold urls. rewrite omap_app. f_equal.
  destruct (decide (wide r)) as [Hw|Hw].
  - rewrite filter_cons_True by done. csimpl. by rewrite (wide_head r Hw).
  - by rewrite filter_cons_False.
Qed.

Lemma keep_narrow d r : ¬ wide r -> keep d r = d.
Proof.
  intros Hw. unfold keep. destruct (Nat.leb_spec 3 (length r)); [|done].
  by destruct Hw.
Qed.

Lemma keep_wide d r :
  wide r ->
  keep d r
  = match dict_get (default "" (head r)) d with
    | None => dict_set (default "" (head r)) r d
    | Some kept =>
        if (len (content kept) <? len (content r))%nat
        then dict_set (default "" (head r)) r d else d
    end.
Proof.
  intros Hw. unfold keep. destruct (Nat.leb_spec 3 (length r)); [done|].
  unfold wide in Hw. lia.
Qed.

Lemma kept_at_narrow rows r0 u r : ¬ wide r0 -> kept_at rows u r -> kept_at (rows ++ [r0]) u r.
Proof.
  intros Hn (i & Hi & Hw & Hh & Hmax). exists i. split_and!; [|done|done|].
  - by apply lookup_app_l_Some.
  - intros j r' Hj Hw' Hh'. apply lookup_app_Some in Hj as [Hj|[_ Hj]]; [by eapply Hmax|].
    apply list_lookup_singleton_Some in Hj as [_ <-]. done.
Qed.

Lemma kept_at_other rows r0 u r :
  head r0 ≠ Some u -> kept_at rows u r -> kept_at (rows ++ [r0]) u r.
Proof.
  intros Hn (i & Hi & Hw & Hh & Hmax). exists i. split_and!; [|done|done|].
  - by apply lookup_app_l_Some.
  - intros j r' Hj Hw' Hh'. apply lookup_app_Some in Hj as [Hj|[_ Hj]]; [by eapply Hmax|].
    apply list_lookup_singleton_Some in Hj as [_ <-]. done.
Qed.

Lemma fold_keep_spec (rows : list row) :
  (fold_left keep rows []).*1 = first_occurrences (urls (filter wide rows))
  ∧ forall u r, dict_get u (fold_left keep rows []) = Some r -> kept_at rows u r.
Proof.
  induction rows as [|r0 rows [IHk IHv]] using rev_ind; [done|].
  rewrite fold_left_app. cbn [fold_left].
  set (d := fold_left keep rows []) in *.
  destruct (decide (wide r0)) as [Hw|Hw].
  2:{ rewrite (keep_narrow _ _ Hw), urls_filter_snoc.
      rewrite decide_False, app_nil_r by done. split; [done|].
      intros u r Hg. apply kept_at_narrow; [done|]. by apply IHv. }
  rewrite (keep_wide _ _ Hw), urls_filter_snoc, decide_True by done.
  rewrite first_occurrences_snoc.
  set (u0 := default "" (head r0)) in *.
  assert (head r0 = Some u0) as Hh0 by (by apply wide_head).
  assert (forall u r, u ≠ u0 -> dict_get u d = Some r -> kept_at (rows ++ [r0]) u r)
    as Hother.
  { intros u r Hne Hg. apply kept_at_other; [congruence|]. by apply IHv. }
  assert (forall r, (forall r', r' ∈ rows -> wide r' -> head r' = Some u0 ->
                       len (content r') < len (content r0)) ->
                    r = r0 -> kept_at (rows ++ [r0]) u0 r) as Hnew.
  { intros r Hlt ->. exists (length rows). split_and!; [|done|done|].
    - by rewrite lookup_app_r, Nat.sub_diag by lia.
    - intros j r' Hj Hw' Hh'. apply lookup_app_Some in Hj as [Hj|[Hge Hj]].
      + apply list_elem_of_lookup_2 in Hj. specialize (Hlt r' Hj Hw' Hh'). lia.
      + apply list_lookup_singleton_Some in Hj as [_ <-]. split; [done|lia]. }
  destruct (dict_get u0 d) as [kept|] eqn:Hg.
  - assert (u0 ∈ d.*1) as Hin by (apply dict_get_is_Some; eauto).
    rewrite bool_decide_eq_true_2
      by (by rewrite <- first_occurrences_elem, <- IHk).
    destruct (IHv _ _ Hg) as (i & Hi & Hwk & Hhk & Hmax).
    destruct (Nat.ltb_spec (len (content kept)) (len (content r0)))
      as [Hlt|Hge].
    + split; [by rewrite dict_set_keys|].
      intros u r. rewrite dict_get_set.
      destruct (String.eqb_spec u u0) as [->|Hne]; [|by apply Hother].
      intros [= <-]. apply Hnew; [|done].
      intros r' Hr' Hw' Hh'. apply list_elem_of_lookup_1 in Hr' as [j Hj].
      destruct (Hmax j r' Hj Hw' Hh'). lia.
    + split; [done|]. intros u r Hg'.
      destruct (decide (u = u0)) as [->|Hne]; [|by apply Hother].
      rewrite Hg in Hg'. injection Hg' as <-.
      exists i. split_and!; [by apply lookup_app_l_Some|done|done|].
      intros j r' Hj Hw' Hh'. apply lookup_app_Some in Hj as [Hj|[Hlen Hj]].
      * by eapply Hmax.
      * apply list_lookup_singleton_Some in Hj as [_ <-].
        apply lookup_lt_Some in Hi. split; [lia|]. lia.
  - assert (u0 ∉ d.*1) as Hin by (by apply dict_get_None).
    rewrite bool_decide_eq_false_2
      by (by rewrite <- first_occurrences_elem, <- IHk).
    rewrite dict_set_fresh by done. split; [by rewrite fmap_app, IHk|].
    intros u r. rewrite <- (dict_set_fresh u0 r0 d Hin), dict_get_set.
    destruct (String.eqb_spec u u0) as [->|Hne]; [|by apply Hother].
    intros [= <-]. apply Hnew; [|done].
    intros r' Hr' Hw' Hh'. exfalso. apply Hin. rewrite IHk.
    apply first_occurrences_elem, AggregateFacts.urls_elem.
    exists r'. split; [|done]. by apply list_elem_of_filter.
Qed.

Lemma fold_keep_is_dict rows : is_dict (fold_left keep rows []).
Proof.
  unfold is_dict. rewrite (proj1 (fold_keep_spec rows)). apply first_occurrences_NoDup.
Qed.

Lemma fold_keep_values rows u r :
  (u, r) ∈ fold_left keep rows [] -> kept_at rows u r.
Proof.
  intros Hin. apply fold_keep_spec. apply dict_get_elem; [apply fold_keep_is_dict|done].
Qed.

Lemma urls_values (d : pydict row) :
  (forall u r, (u, r) ∈ d -> head r = Some u) -> urls d.*2 = d.*1.
Proof.
  induction d as [|[u r] d IH]; intros H; [done|].
  unfold urls in *. csimpl. rewrite (H u r) by left. csimpl. f_equal.
  apply IH. intros u' r' Hin. apply H. by right.
Qed.

Lemma deduplicate_urls rows :
  urls (_deduplicate_by_url rows) = first_occurrences (urls (filter wide rows)).
Proof.
  unfold _deduplicate_by_url. rewrite urls_values; [apply fold_keep_spec|].
  intros u r Hin. by destruct (fold_keep_values _ _ _ Hin) as (_ & _ & _ & ? & _).
Qed.

Lemma deduplicate_elem rows r :
  r ∈ _deduplicate_by_url rows -> exists u, kept_at rows u r.
Proof.
  unfold _deduplicate_by_url. intros ([u r'] & -> & Hin)%list_elem_of_fmap.
  exists u. by apply fold_keep_values.
Qed.

(** X18. The URLs of the deduplicated results are the URLs of the results of
    at least three fields, each once, in the order in which they first
    occur: no URL is lost, none is repeated, and results of fewer than three
    fields contribute nothing. The empty URL is a URL like any other here. *)
Theorem X18_deduplicated_urls_in_first_seen_order (results : list row) :
  urls (_deduplicate_by_url results) = first_occurrences (urls (filter wide results))
  ∧ NoDup (urls (_deduplicate_by_url results))
  ∧ length (urls (_deduplicate_by_url results)) = length (_deduplicate_by_url results).
Proof.
  split_and!.
  - apply deduplicate_urls.
  - rewrite deduplicate_urls. apply first_occurrences_NoDup.
  - unfold _deduplicate_by_url. rewrite urls_values.
    + by rewrite !length_fmap.
    + intros u r Hin.
      by destruct (fold_keep_values _ _ _ Hin) as (_ & _ & _ & ? & _).
Qed.

(** X19. Every deduplicated result is one of the given results, has at least
    three fields, and has the longest content, counted in characters as
    [len] does, among the results of at least three fields with its URL;
    among several with the longest content it is the one that comes first. *)
Theorem X19_longest_content_is_kept (results : list row) (r : row) :
  r ∈ _deduplicate_by_url results ->
  exists i,
    results !! i = Some r ∧ wide r
    ∧ forall j r', results !! j = Some r' -> wide r' -> head r' = head r ->
        len (content r') <= len (content r)
        ∧ (j < i -> len (content r') < len (content r)).
Proof.
  intros (u & i & Hi & Hw & Hh & Hmax)%deduplicate_elem.
  exists i. split_and!; [done..|]. intros j r' Hj Hw' Hh'. apply (Hmax j r' Hj Hw').
  congruence.
Qed.

(** Results of at least three fields with distinct URLs are all kept. *)
Lemma deduplicate_clean rows :
  Forall wide rows -> NoDup (urls rows) -> _deduplicate_by_url rows = rows.
Proof.
  intros Hall Hnd. unfold _deduplicate_by_url.
  assert (fold_left keep rows [] = (fun r => (default "" (head r), r)) <$> rows) as ->.
  { induction rows as [|r0 rows IH] using rev_ind; [done|].
    apply Forall_app in Hall as [Hall Hw]. apply Forall_inv in Hw.
    unfold urls in Hnd. rewrite omap_app in Hnd.
    apply NoDup_app in Hnd as (Hnd & Hdisj & _).
    rewrite fold_left_app, fmap_app. cbn [fold_left]. rewrite IH by done.
    rewrite (keep_wide _ _ Hw).
    assert (default "" (head r0) ∉ ((fun r => (default "" (head r), r)) <$> rows).*1)
      as Hfresh.
    { intros Hin. rewrite <- list_fmap_compose in Hin.
      apply list_elem_of_fmap in Hin as (r' & Hr' & Hin). simpl in Hr'.
      apply (Hdisj (default "" (head r0))).
      - apply AggregateFacts.urls_elem. exists r'. split; [done|].
        rewrite Hr'. apply wide_head. rewrite Forall_forall in Hall. by apply Hall.
      - csimpl. rewrite (wide_head r0 Hw). csimpl. left. }
    rewrite (proj2 (dict_get_None _ _) Hfresh). by rewrite dict_set_fresh. }
  rewrite <- list_fmap_compose. apply list_fmap_id.
Qed.

Lemma deduplicate_wide rows : Forall wide (_deduplicate_by_url rows).
Proof.
  apply Forall_forall. intros r Hr.
  by apply deduplicate_elem in Hr as (u & i & _ & Hw & _).
Qed.

Lemma deduplicate_NoDup rows : NoDup (urls (_deduplicate_by_url rows)).
Proof. rewrite deduplicate_urls. apply first_occurrences_NoDup. Qed.

(** X20. Deduplication changes nothing exactly when there is nothing to do:
    a list of results is returned as it is if and only if every result has
    at least three fields and the URLs are pairwise distinct. *)
Theorem X20_unchanged_exactly_when_clean (results : list row) :
  _deduplicate_by_url results = results
  <-> Forall wide results ∧ NoDup (urls results).
Proof.
  split.
  - intros H. rewrite <- H. split; [apply deduplicate_wide|apply deduplicate_NoDup].
  - intros [Hall Hnd]. by apply deduplicate_clean.
Qed.

(** X21. Deduplicating twice is deduplicating once. *)
Theorem X21_deduplication_is_idempotent (results : list row) :
  _deduplicate_by_url (_deduplicate_by_url results) = _deduplicate_by_url results.
Proof. apply deduplicate_clean; [apply deduplicate_wide|apply deduplicate_NoDup]. Qed.

(** X19 at the sample results: of the three results for [u] the first of
    the two with the longest content is kept; and of an accented character
    and two characters, the two characters are the longer content. *)
Lemma X19_witness :
  ["u"; "t3"; "abcd"] ∈ _deduplicate_by_url DeduplicateSamples.mixed
  ∧ (exists i, DeduplicateSamples.mixed !! i = Some ["u"; "t3"; "abcd"]
               ∧ wide ["u"; "t3"; "abcd"])
  ∧ _deduplicate_by_url DeduplicateSamples.accented = [["u"; "t2"; "ab"]]
  ∧ (forall r', r' ∈ DeduplicateSamples.accented ->
       len (content r') <= len (content ["u"; "t2"; "ab"])).
Proof.
  assert (["u"; "t3"; "abcd"] ∈ _deduplicate_by_url DeduplicateSamples.mixed) as H
    by (vm_compute; left).
  assert (_deduplicate_by_url DeduplicateSamples.accented = [["u"; "t2"; "ab"]]) as Hacc
    by (vm_compute; reflexivity).
  split; [exact H|]. split_and!.
  - destruct (X19_longest_content_is_kept DeduplicateSamples.mixed _ H)
      as (i & Hi & Hw & _).
    exists i. split; [exact Hi|exact Hw].
  - exact Hacc.
  - assert (["u"; "t2"; "ab"] ∈ _deduplicate_by_url DeduplicateSamples.accented) as H'
      by (rewrite Hacc; left).
    destruct (X19_longest_content_is_kept DeduplicateSamples.accented _ H')
      as (i & Hi & Hw & Hmax).
    intros r' Hr'. apply list_elem_of_lookup_1 in Hr' as [j Hj].
    refine (proj1 (Hmax j r' Hj _ _)).
    + apply list_elem_of_lookup_2 in Hj.
      apply elem_of_cons in Hj as [->|Hj]; [unfold wide; simpl; lia|].
      apply list_elem_of_singleton in Hj as ->. unfold wide; simpl; lia.
    + apply list_elem_of_lookup_2 in Hj.
      apply elem_of_cons in Hj as [->|Hj]; [done|].
      by apply list_elem_of_singleton in Hj as ->.
Defined.

End DeduplicateFacts.

(** ** The client's [get_sites] and [search_by_url] *)

Module FacadeFacts.
Import VectorDBClient ClientNotions Facade.
Section Sites.

Variable CONFIG : config.
Variable adapter_init : adapter -> option exn.
Variable sites_of : adapter -> exn + option (list string).

Local Abbreviation init := (init CONFIG).
Local Abbreviation get_client := (get_client adapter_init).
Local Abbreviation add_sites := (add_sites adapter_init sites_of).
Local Abbreviation collect_sites := (collect_sites adapter_init sites_of).
Local Abbreviation get_sites_locked := (get_sites_locked adapter_init sites_of).
Local Abbreviation get_sites := (get_sites CONFIG adapter_init sites_of).
Local Abbreviation listing := (listing sites_of).

(** What [get_client] does to the world: the site index stays, and the
    trace grows by nothing or by the construction of the adapter returned. *)
Lemma get_client_effect self name w res w1 :
  get_client self name w = (res, w1) ->
  endpoint_sites_cache w1 = endpoint_sites_cache w
  ∧ (trace w1 = trace w ∨ exists a, res = inr a ∧ trace w1 = trace w ++ [Constructed a]).
Proof.
  intros H.
  destruct (ClientMore.get_client_cases adapter_init self name w)
    as [[_ Hg]|(cfg & _ & [(a & _ & Hg)|[(_ & _ & Hg)|[(e & _ & _ & _ & Hg)|(_ & _ & _ & Hg)]]])];
    rewrite Hg in H; simplify_eq; (split; [done|]); eauto.
Qed.

(** *** [get_sites] *)

(** One iteration of the loop of [get_sites]. *)
Lemma add_sites_spec self all_sites name w :
  exists all_sites' w1 evs,
    add_sites self all_sites name w = (inr all_sites', w1)
    ∧ trace w1 = trace w ++ evs
    ∧ Forall is_setup evs
    ∧ endpoint_sites_cache w1 = endpoint_sites_cache w
    ∧ forall s, s ∈ all_sites'
        <-> s ∈ all_sites ∨ exists a, Called a GetSites ∈ evs ∧ s ∈ listing a.
Proof.
  unfold Facade.add_sites, try_except, bind.
  destruct (get_client self name w) as [[e|a] w0] eqn:Hc;
    apply get_client_effect in Hc as (Hidx & Htr).
  - destruct Htr as [Htr|(a & [=] & _)].
    exists all_sites, w0, []. rewrite app_nil_r. split_and!; [done..|].
    intros s. split; [tauto|]. intros [?|(a & Ha & _)]; [done|].
    by apply elem_of_nil in Ha.
  - assert (exists evs0, trace w0 = trace w ++ evs0 ∧ Forall is_setup evs0
                         ∧ forall a', Called a' GetSites ∉ evs0) as (evs0 & Hevs0 & Hall & Hno).
    { destruct Htr as [Htr|(a' & _ & Htr)].
      - exists []. rewrite app_nil_r. split_and!; [done|done|].
        intros a' Ha'. by apply elem_of_nil in Ha'.
      - exists [Constructed a']. split_and!; [done|by repeat constructor|].
        intros a'' Ha''. by apply list_elem_of_singleton in Ha''. }
    assert (forall a', Called a' GetSites ∈ evs0 ++ [Called a GetSites] <-> a' = a) as Hcalled.
    { intros a'. rewrite elem_of_app, list_elem_of_singleton. split.
      - intros [Hin|[= ->]]; [by destruct (Hno a')|done].
      - intros ->. by right. }
    unfold call_sites, Facade.listing in *. simpl.
    destruct (sites_of a) as [e|[[|site_name rest]|]] eqn:Hs; simpl; unfold ret;
      eexists _, _, (evs0 ++ [Called a GetSites]);
      (split_and!;
       [reflexivity
       |simpl; by rewrite Hevs0, <- app_assoc
       |apply Forall_app; split; [done|by repeat constructor]
       |done
       |]).
    + intros s. split; [tauto|]. intros [?|(a' & ->%Hcalled & Hin)]; [done|].
      rewrite Hs in Hin. by apply elem_of_nil in Hin.
    + intros s. split; [tauto|]. intros [?|(a' & ->%Hcalled & Hin)]; [done|].
      rewrite Hs in Hin. by apply elem_of_nil in Hin.
    + intros s. rewrite !elem_of_union, elem_of_singleton, elem_of_list_to_set. split.
      * intros [?|Hin]; [tauto|]. right. exists a. rewrite Hs.
        split; [by apply Hcalled|]. apply elem_of_cons. tauto.
      * intros [?|(a' & ->%Hcalled & Hin)]; [tauto|]. rewrite Hs in Hin.
        apply elem_of_cons in Hin. tauto.
    + intros s. split; [tauto|]. intros [?|(a' & ->%Hcalled & Hin)]; [done|].
      rewrite Hs in Hin. by apply elem_of_nil in Hin.
Qed.

Lemma collect_sites_spec self names all_sites w :
  exists all_sites' w1 evs,
    collect_sites self all_sites names w = (inr all_sites', w1)
    ∧ trace w1 = trace w ++ evs
    ∧ Forall is_setup evs
    ∧ endpoint_sites_cache w1 = endpoint_sites_cache w
    ∧ forall s, s ∈ all_sites'
        <-> s ∈ all_sites ∨ exists a, Called a GetSites ∈ evs ∧ s ∈ listing a.
Proof.
  revert all_sites w. induction names as [|name names IH]; intros all_sites w.
  - exists all_sites, w, []. rewrite app_nil_r. split_and!; [done..|].
    intros s. split; [tauto|]. intros [?|(a & Ha & _)]; [done|].
    by apply elem_of_nil in Ha.
  - cbn [Facade.collect_sites]. unfold bind.
    destruct (add_sites_spec self all_sites name w)
      as (s1 & w1 & evs1 & -> & Htr1 & Hall1 & Hidx1 & Hs1).
    destruct (IH s1 w1) as (s2 & w2 & evs2 & -> & Htr2 & Hall2 & Hidx2 & Hs2).
    exists s2, w2, (evs1 ++ evs2). split_and!; [done| | | |].
    + by rewrite Htr2, Htr1, <- app_assoc.
    + by apply Forall_app.
    + congruence.
    + intros s. rewrite Hs2, Hs1. split.
      * intros [[?|(a & Ha & Hin)]|(a & Ha & Hin)]; [tauto|right..];
          exists a; rewrite elem_of_app; tauto.
      * intros [?|(a & Ha & Hin)]; [tauto|].
        apply elem_of_app in Ha as [Ha|Ha]; [left; right|right]; eauto.
Qed.

(** The part under the lock raises nothing. *)
Lemma get_sites_locked_spec self w :
  exists sites w1 evs,
    get_sites_locked self w = (inr sites, w1)
    ∧ trace w1 = trace w ++ evs
    ∧ Forall is_setup evs
    ∧ endpoint_sites_cache w1 = endpoint_sites_cache w.
Proof.
  unfold Facade.get_sites_locked, try_except, bind.
  destruct (truthy_opt (endpoint_name self)).
  - destruct (get_client self _ w) as [[e|a] w0] eqn:Hc.
    + apply ClientMore.get_client_failure in Hc as [-> _].
      exists [], w, []. by rewrite app_nil_r.
    + pose proof (ClientMore.get_client_setup _ _ _ _ _ _ Hc) as (evs0 & Hevs0 & Hall).
      apply get_client_effect in Hc as (Hidx & _).
      assert (Forall is_setup (evs0 ++ [Called a GetSites])) as Hall'
        by (apply Forall_app; split; [done|by repeat constructor]).
      unfold call_sites. simpl.
      destruct (sites_of a) as [e|[sites|]]; simpl; unfold ret;
        eexists _, _, (evs0 ++ [Called a GetSites]);
        (split_and!; [reflexivity|simpl; by rewrite Hevs0, <- app_assoc|done|done]).
  - destruct (collect_sites_spec self (enabled_endpoints self).*1 ∅ w)
      as (s1 & w1 & evs & -> & Htr & Hall & Hidx & _).
    simpl. unfold ret. by exists (elements s1), w1, evs.
Qed.

(** X22. The client's [get_sites] raises only when it is called with another
    endpoint name than its own and no client can be built for that name: the
    error is then that of the construction and nothing has happened. In every
    other case it returns a list, failures of adapters having become the
    empty list or been passed over. Whatever the outcome, it builds adapters
    and asks them for their sites and does nothing else, and it neither
    reads nor fills the site index of the client. *)
Theorem X22_get_sites_raises_only_for_a_bad_override self requested w :
  (forall e w1,
     get_sites self requested w = (inl e, w1)
     <-> overrides self requested = true ∧ init requested = inl e ∧ w1 = w)
  ∧ (forall res w1,
       get_sites self requested w = (res, w1) ->
       endpoint_sites_cache w1 = endpoint_sites_cache w
       ∧ exists evs, trace w1 = trace w ++ evs ∧ Forall is_setup evs).
Proof.
  unfold Facade.get_sites. split.
  - intros e w1. destruct (overrides self requested).
    + destruct (init requested) as [e'|temp_client].
      * unfold raise. split; [intros [= -> ->]; done|].
        by intros (_ & [= ->] & ->).
      * destruct (get_sites_locked_spec temp_client w) as (sites & w' & evs & -> & _).
        split; [done|]. by intros (_ & [=] & _).
    + destruct (get_sites_locked_spec self w) as (sites & w' & evs & -> & _).
      split; [done|]. by intros ([=] & _).
  - intros res w1. destruct (overrides self requested).
    + destruct (init requested) as [e'|temp_client].
      * intros [= <- <-]. split; [done|]. exists []. by rewrite app_nil_r.
      * destruct (get_sites_locked_spec temp_client w)
          as (sites & w' & evs & -> & Htr & Hall & Hidx).
        intros [= <- <-]. eauto.
    + destruct (get_sites_locked_spec self w)
        as (sites & w' & evs & -> & Htr & Hall & Hidx).
      intros [= <- <-]. eauto.
Qed.

(** X23. A client without an endpoint name of its own returns from
    [get_sites] the sites that the adapters it has asked list, each site
    once: a site is returned exactly when an adapter that was asked lists
    it. An adapter whose call fails or returns [None] lists nothing, an
    endpoint whose adapter cannot be had is not asked, and neither makes the
    call fail. *)
Theorem X23_get_sites_is_the_union_of_the_listings self requested w :
  truthy_opt (endpoint_name self) = false ->
  overrides self requested = false ->
  exists sites w1 evs,
    get_sites self requested w = (inr sites, w1)
    ∧ trace w1 = trace w ++ evs
    ∧ NoDup sites
    ∧ forall s, s ∈ sites <-> exists a, Called a GetSites ∈ evs ∧ s ∈ listing a.
Proof.
  intros Hmulti Hover. unfold Facade.get_sites, Facade.get_sites_locked. rewrite Hover, Hmulti.
  unfold try_except, bind.
  destruct (collect_sites_spec self (enabled_endpoints self).*1 ∅ w)
    as (s1 & w1 & evs & -> & Htr & _ & _ & Hs).
  simpl. unfold ret. exists (elements s1), w1, evs.
  split_and!; [done|done|apply NoDup_elements|].
  intros s. rewrite elem_of_elements, Hs. split; [|tauto].
  intros [Hin|?]; [|done]. by apply elem_of_empty in Hin.
Qed.

(** The loop of [get_sites] when the adapters are cached. *)
Lemma collect_sites_warm self names all_sites w :
  (forall name, name ∈ names -> is_Some (cached_adapter self w name)) ->
  exists all_sites',
    collect_sites self all_sites names w
    = (inr all_sites',
       World (client_cache w) (endpoint_sites_cache w)
             (trace w ++ ((fun a => Called a GetSites)
                            <$> omap (cached_adapter self w) names)))
    ∧ forall s, s ∈ all_sites'
        <-> s ∈ all_sites
            ∨ exists a, a ∈ omap (cached_adapter self w) names ∧ s ∈ listing a.
Proof.
  revert all_sites w. induction names as [|name names IH]; intros all_sites w Hw.
  - exists all_sites. simpl. unfold ret. rewrite app_nil_r. split; [by destruct w|].
    intros s. split; [tauto|]. intros [?|(a & Ha & _)]; [done|].
    by apply elem_of_nil in Ha.
  - destruct (Hw name) as [a Ha]; [left|].
    assert (get_client self name w = (inr a, w)) as Hg.
    { unfold cached_adapter in Ha. unfold VectorDBClient.get_client.
      destruct (dict_get name (enabled_endpoints self)); [|done]. by rewrite Ha. }
    cbn [Facade.collect_sites]. unfold bind, Facade.add_sites, try_except, bind.
    rewrite Hg. unfold call_sites. simpl.
    set (w1 := World (client_cache w) (endpoint_sites_cache w)
                     (trace w ++ [Called a GetSites])).
    assert (forall name', name' ∈ names -> is_Some (cached_adapter self w1 name'))
      as Hw1 by (intros name' Hn; apply Hw; by right).
    assert (forall acc : gset string, exists all_sites',
              collect_sites self acc names w1
              = (inr all_sites',
                 World (client_cache w) (endpoint_sites_cache w)
                   (trace w ++ ((fun a => Called a GetSites)
                                  <$> omap (cached_adapter self w) (name :: names))))
              ∧ forall s, s ∈ all_sites'
                  <-> s ∈ acc ∨ exists a, a ∈ omap (cached_adapter self w) names
                                          ∧ s ∈ listing a) as Hrest.
    { intros acc. destruct (IH acc w1 Hw1) as (s' & Hc & Hs').
      exists s'. split; [|exact Hs']. rewrite Hc. csimpl. rewrite Ha. csimpl.
      by rewrite <- app_assoc. }
    assert (forall (s : string) (acc : gset string),
              (s ∈ acc <-> s ∈ all_sites ∨ s ∈ listing a) ->
              forall all_sites' : gset string,
                (forall s, s ∈ all_sites'
                   <-> s ∈ acc ∨ exists a, a ∈ omap (cached_adapter self w) names
                                           ∧ s ∈ listing a) ->
                s ∈ all_sites'
                <-> s ∈ all_sites
                    ∨ exists a0, a0 ∈ omap (cached_adapter self w) (name :: names)
                                 ∧ s ∈ listing a0) as Hmem.
    { intros s acc Hacc s' Hs'. rewrite Hs', Hacc. csimpl. rewrite Ha. csimpl. split.
      - intros [[?|Hin]|(a0 & Ha0 & Hin)]; [tauto| |].
        + right. exists a. split; [left|done].
        + right. exists a0. split; [by right|done].
      - intros [?|(a0 & Ha0 & Hin)]; [tauto|].
        apply elem_of_cons in Ha0 as [->|Ha0]; [tauto|]. right. eauto. }
    unfold Facade.listing in Hmem at 1.
    destruct (sites_of a) as [e|[[|site_name rest]|]] eqn:Hs; simpl; unfold ret.
    + destruct (Hrest all_sites) as (s' & -> & Hs'). exists s'. split; [done|].
      intros s. apply (Hmem s all_sites); [|done]. split; [tauto|].
      intros [?|Hin]; [done|]. by apply elem_of_nil in Hin.
    + destruct (Hrest all_sites) as (s' & -> & Hs'). exists s'. split; [done|].
      intros s. apply (Hmem s all_sites); [|done]. split; [tauto|].
      intros [?|Hin]; [done|]. by apply elem_of_nil in Hin.
    + destruct (Hrest (all_sites ∪ ({[site_name]} ∪ list_to_set rest)))
        as (s' & -> & Hs'). exists s'. split; [done|].
      intros s. apply (Hmem s (all_sites ∪ ({[site_name]} ∪ list_to_set rest))); [|done].
      by rewrite !elem_of_union, elem_of_singleton, elem_of_list_to_set, elem_of_cons.
    + destruct (Hrest all_sites) as (s' & -> & Hs'). exists s'. split; [done|].
      intros s. apply (Hmem s all_sites); [|done]. split; [tauto|].
      intros [?|Hin]; [done|]. by apply elem_of_nil in Hin.
Qed.

(** X24. In a world that holds the adapter of every enabled endpoint, a
    client without an endpoint name of its own asks every one of these
    adapters for its sites on every call of [get_sites], once each and in
    the order of the enabled endpoints, and changes no cache: nothing is
    remembered from one call to the next. A site is returned exactly when
    one of these adapters lists it. *)
Theorem X24_get_sites_asks_every_endpoint_every_time self w :
  truthy_opt (endpoint_name self) = false ->
  (forall name, name ∈ (enabled_endpoints self).*1 ->
     is_Some (cached_adapter self w name)) ->
  exists sites,
    get_sites self None w
    = (inr sites,
       World (client_cache w) (endpoint_sites_cache w)
             (trace w ++ ((fun a => Called a GetSites)
                            <$> omap (cached_adapter self w) (enabled_endpoints self).*1)))
    ∧ NoDup sites
    ∧ forall s, s ∈ sites
        <-> exists a, a ∈ omap (cached_adapter self w) (enabled_endpoints self).*1
                      ∧ s ∈ listing a.
Proof.
  intros Hmulti Hw. unfold Facade.get_sites, Facade.get_sites_locked, overrides.
  rewrite Hmulti. simpl. unfold try_except, bind.
  destruct (collect_sites_warm self (enabled_endpoints self).*1 ∅ w Hw)
    as (s1 & -> & Hs).
  simpl. unfold ret. exists (elements s1).
  split_and!; [done|apply NoDup_elements|].
  intros s. rewrite elem_of_elements, Hs. split; [|tauto].
  intros [Hin|?]; [|done]. by apply elem_of_empty in Hin.
Qed.

End Sites.

(** *** [search_by_url] *)

Section Lookup.

Variable CONFIG : config.
Variable adapter_init : adapter -> option exn.
Variable item_of : adapter -> string -> exn + option row.

Local Abbreviation init := (init CONFIG).
Local Abbreviation get_client := (get_client adapter_init).
Local Abbreviation probe_all := (probe_all adapter_init item_of).
Local Abbreviation search_by_url_locked := (search_by_url_locked adapter_init item_of).
Local Abbreviation search_by_url := (search_by_url CONFIG adapter_init item_of).
Local Abbreviation answer := (answer item_of).
Local Abbreviation until_answer := (until_answer item_of).
Local Abbreviation pinned := (pinned CONFIG).

Lemma answer_Some url a r :
  answer url a = Some r <-> item_of a url = inr (Some r) ∧ r ≠ [].
Proof.
  unfold Facade.answer. destruct (item_of a url) as [e|[[|field fields]|]]; split;
    try done; try (by intros [[=] _]).
  - by intros [[= <-] ?].
  - by intros [= <-].
  - by intros [[= <-] _].
Qed.

(** The loop over the enabled endpoints. *)
Lemma probe_all_spec self url names s :
  exists res s1 asked,
    probe_all self url names s = (inr res, s1)
    ∧ ls_asked s1 = ls_asked s ++ ((fun a => (a, url)) <$> asked)
    ∧ endpoint_sites_cache (ls_world s1) = endpoint_sites_cache (ls_world s)
    ∧ setup_from (ls_world s) (ls_world s1)
    ∧ match res with
      | Some r =>
          exists before a,
            asked = before ++ [a] ∧ answer url a = Some r
            ∧ Forall (fun a' => answer url a' = None) before
      | None => Forall (fun a' => answer url a' = None) asked
      end.
Proof.
  revert s. induction names as [|name names IH]; intros s.
  - exists None, s, []. simpl. rewrite app_nil_r.
    split_and!; [done..|apply ClientMore.setup_from_refl|done].
  - cbn [Facade.probe_all]. unfold lift.
    destruct (get_client self name (ls_world s)) as [[e|a] w0] eqn:Hc.
    + apply ClientMore.get_client_failure in Hc as [-> _].
      destruct (IH (LookupState (ls_world s) (ls_asked s)))
        as (res & s1 & asked & -> & Hasked & Hidx & Hsetup & Hres).
      by exists res, s1, asked.
    + pose proof (ClientMore.get_client_setup _ _ _ _ _ _ Hc) as Hsetup0.
      apply get_client_effect in Hc as (Hidx0 & _).
      assert (answer url a = None ->
              exists res s1 asked,
                probe_all self url names (LookupState w0 (ls_asked s ++ [(a, url)]))
                = (inr res, s1)
                ∧ ls_asked s1 = ls_asked s ++ ((fun a => (a, url)) <$> asked)
                ∧ endpoint_sites_cache (ls_world s1) = endpoint_sites_cache (ls_world s)
                ∧ setup_from (ls_world s) (ls_world s1)
                ∧ match res with
                  | Some r =>
                      exists before a,
                        asked = before ++ [a] ∧ answer url a = Some r
                        ∧ Forall (fun a' => answer url a' = None) before
                  | None => Forall (fun a' => answer url a' = None) asked
                  end) as Hcont.
      { intros Hans.
        destruct (IH (LookupState w0 (ls_asked s ++ [(a, url)])))
          as (res & s1 & asked & Hp & Hasked & Hidx & Hsetup & Hres).
        exists res, s1, (a :: asked). split_and!.
        - done.
        - rewrite Hasked. simpl. by rewrite <- app_assoc.
        - simpl in Hidx. congruence.
        - by apply (ClientMore.setup_from_trans _ w0).
        - destruct res as [r|].
          + destruct Hres as (before & a' & -> & Ha' & Hbefore).
            exists (a :: before), a'. split_and!; [done|done|by constructor].
          + by constructor. }
      unfold call_item. cbn [ls_world ls_asked].
      destruct (item_of a url) as [e|[[|field fields]|]] eqn:Hitem;
        try (apply Hcont; unfold Facade.answer; by rewrite Hitem).
      exists (Some (field :: fields)), (LookupState w0 (ls_asked s ++ [(a, url)])), [a].
      split_and!; [done..|]. exists [], a. split_and!; [done| |done].
      unfold Facade.answer. by rewrite Hitem.
Qed.

(** X25. A client without an endpoint name of its own never raises from
    [search_by_url]. It asks adapters one after the other and stops at the
    first that answers with a result that is not empty, which it returns:
    every adapter asked before has failed or had nothing, and no adapter is
    asked after it. When no adapter answers, it returns [None]. *)
Theorem X25_search_by_url_stops_at_the_first_answer self url requested s :
  truthy_opt (endpoint_name self) = false ->
  overrides self requested = false ->
  exists res s1 asked,
    search_by_url self url requested s = (inr res, s1)
    ∧ ls_asked s1 = ls_asked s ++ ((fun a => (a, url)) <$> asked)
    ∧ endpoint_sites_cache (ls_world s1) = endpoint_sites_cache (ls_world s)
    ∧ match res with
      | Some r =>
          r ≠ []
          ∧ exists before a,
              asked = before ++ [a] ∧ item_of a url = inr (Some r)
              ∧ Forall (fun a' => answer url a' = None) before
      | None => Forall (fun a' => answer url a' = None) asked
      end.
Proof.
  intros Hmulti Hover. unfold Facade.search_by_url, Facade.search_by_url_locked.
  rewrite Hover, Hmulti.
  destruct (probe_all_spec self url (enabled_endpoints self).*1 s)
    as (res & s1 & asked & -> & Hasked & Hidx & _ & Hres).
  exists res, s1, asked. split_and!; [done..|].
  destruct res as [r|]; [|done].
  destruct Hres as (before & a & -> & [Hitem Hne]%answer_Some & Hbefore).
  split; [done|]. by exists before, a.
Qed.

(** The loop when the adapters are cached. *)
Lemma probe_all_warm self url names s :
  (forall name, name ∈ names -> is_Some (cached_adapter self (ls_world s) name)) ->
  probe_all self url names s
  = (inr (head (omap (answer url) (omap (cached_adapter self (ls_world s)) names))),
     LookupState (ls_world s)
       (ls_asked s
        ++ ((fun a => (a, url))
              <$> until_answer url (omap (cached_adapter self (ls_world s)) names)))).
Proof.
  revert s. induction names as [|name names IH]; intros s Hw.
  - simpl. rewrite app_nil_r. by destruct s.
  - destruct (Hw name) as [a Ha]; [left|].
    assert (get_client self name (ls_world s) = (inr a, ls_world s)) as Hg.
    { unfold cached_adapter in Ha. unfold VectorDBClient.get_client.
      destruct (dict_get name (enabled_endpoints self)); [|done]. by rewrite Ha. }
    cbn [Facade.probe_all]. unfold lift. rewrite Hg. csimpl. rewrite Ha. csimpl.
    unfold call_item. cbn [ls_world ls_asked].
    assert (answer url a = None ->
            probe_all self url names (LookupState (ls_world s) (ls_asked s ++ [(a, url)]))
            = (inr (head (omap (answer url) (omap (cached_adapter self (ls_world s)) names))),
               LookupState (ls_world s)
                 (ls_asked s
                  ++ (a, url)
                     :: ((fun a => (a, url))
                           <$> until_answer url
                                 (omap (cached_adapter self (ls_world s)) names)))))
      as Hcont.
    { intros _. rewrite IH by (intros n Hn; apply Hw; by right).
      simpl. by rewrite <- app_assoc. }
    destruct (answer url a) as [r|] eqn:Hans; csimpl.
    + apply answer_Some in Hans as [-> Hne]. by destruct r.
    + rewrite <- (Hcont eq_refl).
      destruct (item_of a url) as [e|[[|field fields]|]] eqn:Hitem; try done.
      unfold Facade.answer in Hans. by rewrite Hitem in Hans.
Qed.

(** X26. In a world that holds the adapter of every enabled endpoint, the
    result of [search_by_url] of a client without an endpoint name of its
    own is the first answer that is not empty, the adapters taken in the
    order of the enabled endpoints; the adapters up to and including that
    one are asked, once each, and no other; no cache changes. *)
Theorem X26_search_by_url_returns_the_first_answer self url s :
  truthy_opt (endpoint_name self) = false ->
  (forall name, name ∈ (enabled_endpoints self).*1 ->
     is_Some (cached_adapter self (ls_world s) name)) ->
  search_by_url self url None s
  = (inr (head (omap (answer url)
                  (omap (cached_adapter self (ls_world s)) (enabled_endpoints self).*1))),
     LookupState (ls_world s)
       (ls_asked s
        ++ ((fun a => (a, url))
              <$> until_answer url
                    (omap (cached_adapter self (ls_world s))
                          (enabled_endpoints self).*1)))).
Proof.
  intros Hmulti Hw. unfold Facade.search_by_url, Facade.search_by_url_locked, overrides.
  rewrite Hmulti. simpl. by apply probe_all_warm.
Qed.

(** A client for a registered endpoint name. *)
Lemma init_pinned name cfg :
  truthy name = true ->
  dict_get name (retrieval_endpoints CONFIG) = Some cfg ->
  ¬ write_endpoint_invalid CONFIG ->
  init (Some name) = inr (pinned name cfg).
Proof.
  intros Hn Hg Hw. unfold VectorDBClient.init. simpl. rewrite Hn, Hg.
  destruct (validate_write_endpoint CONFIG _) as [e|c'] eqn:Hv.
  - exfalso. apply Hw.
    eapply (proj1 (ClientFacts.validate_write_endpoint_fails CONFIG _)). eauto.
  - apply ClientFacts.validate_write_endpoint_ok in Hv. by subst.
Qed.


End Lookup.

(** *** The properties at the sample client *)

Lemma warm_world_has_adapters name :
  name ∈ (enabled_endpoints Samples.sample_client).*1 ->
  is_Some (cached_adapter Samples.sample_client ClientSamples.warm_world name).
Proof.
  intros H. change (name ∈ ["E1"; "E2"]) in H.
  apply elem_of_cons in H as [->|H]; [vm_compute; eauto|].
  apply list_elem_of_singleton in H as ->. vm_compute; eauto.
Qed.

(** X23 at the sample client, from the world in which nothing has happened. *)
Lemma X23_witness :
  truthy_opt (endpoint_name Samples.sample_client) = false
  ∧ exists sites w1,
      get_sites Samples.sample_config Samples.sample_init Samples.sample_sites
        Samples.sample_client None Samples.fresh_world = (inr sites, w1)
      ∧ NoDup sites.
Proof.
  split; [reflexivity|].
  destruct (X23_get_sites_is_the_union_of_the_listings Samples.sample_config
              Samples.sample_init Samples.sample_sites Samples.sample_client None
              Samples.fresh_world eq_refl eq_refl)
    as (sites & w1 & evs & Hg & _ & Hnd & _).
  exists sites, w1. split; [exact Hg|exact Hnd].
Defined.

(** X24 at the sample client in the warm world: both adapters are asked. *)
Lemma X24_witness :
  truthy_opt (endpoint_name Samples.sample_client) = false
  ∧ exists sites,
      get_sites Samples.sample_config Samples.sample_init Samples.sample_sites
        Samples.sample_client None ClientSamples.warm_world
      = (inr sites,
         World (client_cache ClientSamples.warm_world)
               (endpoint_sites_cache ClientSamples.warm_world)
               [Called ClientSamples.e1_adapter GetSites;
                Called ClientSamples.e2_adapter GetSites])
      ∧ NoDup sites.
Proof.
  split; [reflexivity|].
  destruct (X24_get_sites_asks_every_endpoint_every_time Samples.sample_config
              Samples.sample_init Samples.sample_sites Samples.sample_client
              ClientSamples.warm_world eq_refl warm_world_has_adapters)
    as (sites & Hg & Hnd & _).
  exists sites. split; [|exact Hnd]. rewrite Hg. f_equal.
Defined.

(** X25 at the sample client, from the world in which nothing has happened:
    the adapter of [E1] has nothing and that of [E2] has the page. *)
Lemma X25_witness :
  truthy_opt (endpoint_name Samples.sample_client) = false
  ∧ exists res s1 asked,
      search_by_url Samples.sample_config Samples.sample_init FacadeSamples.sample_item
        Samples.sample_client "u" None FacadeSamples.fresh_lookup = (inr res, s1)
      ∧ ls_asked s1 = ls_asked FacadeSamples.fresh_lookup ++ ((fun a => (a, "u")) <$> asked).
Proof.
  split; [reflexivity|].
  destruct (X25_search_by_url_stops_at_the_first_answer Samples.sample_config
              Samples.sample_init FacadeSamples.sample_item Samples.sample_client
              "u" None FacadeSamples.fresh_lookup eq_refl eq_refl)
    as (res & s1 & asked & Hs & Hasked & _).
  exists res, s1, asked. split; [exact Hs|exact Hasked].
Defined.

(** X26 at the sample client in the warm world: [E1] is asked and has
    nothing, [E2] is asked and answers. *)
Lemma X26_witness :
  truthy_opt (endpoint_name Samples.sample_client) = false
  ∧ search_by_url Samples.sample_config Samples.sample_init FacadeSamples.sample_item
      Samples.sample_client "u" None FacadeSamples.warm_lookup
    = (inr (Some FacadeSamples.sample_page),
       LookupState ClientSamples.warm_world
         [(ClientSamples.e1_adapter, "u"); (ClientSamples.e2_adapter, "u")]).
Proof.
  split; [reflexivity|].
  rewrite (X26_search_by_url_returns_the_first_answer Samples.sample_config
             Samples.sample_init FacadeSamples.sample_item Samples.sample_client
             "u" FacadeSamples.warm_lookup eq_refl warm_world_has_adapters).
  vm_compute. reflexivity.
Defined.


End FacadeFacts.
